(** * APRS signal generation: the sample sink, the FM/interpolation loop and
      the C entry point of [aprs.cpp], with the frame builder of the
      specification.

    The development follows the source files:
    - [aprs.cpp]: [f32_to_s8], [modulate], [gen_iq_s8];
    - the main program: [override_config_from_args], [run_aprs] and the
      loop of [main];
    - [config.cpp]: [trim], [set_defaults], [set_value], [load_config],
      [print_config];
    - [interconnect.cpp]: [interconnect_handshake], [interconnect_bus],
      [request_json];
    - [transmit.cpp]: [tx_callback], [transmit_s8_iq_file];
    - [ax25.cpp] and [dsp.cpp] are not part of the sources at hand; what the
      callers above need from them is either a section variable or a
      definition modelled from the specification (each one says so). *)

From Stdlib Require Import ZArith List Bool Lia Ascii.
From Stdlib Require String DecimalString.
Import String.StringSyntax.
Delimit Scope string_scope with string.
From Stdlib Require Import Floats.SpecFloat.
Import ListNotations.
Open Scope Z_scope.

(** ** Fallible computations

    A C++ expression whose behaviour is undefined has no value: [None]. *)

Definition bind {A B : Type} (c : option A) (k : A -> option B) : option B :=
  match c with
  | Some a => k a
  | None => None
  end.

Notation "x <- c ;; k" := (bind c (fun x => k))
  (at level 61, c at next level, right associativity).

(** ** Machine integers *)

Module MachInt.

(** The value of a [w]-bit two's complement integer holding [z] modulo
    [2^w]. *)
Definition wrap (w : Z) (z : Z) : Z :=
  (z + 2 ^ (w - 1)) mod 2 ^ w - 2 ^ (w - 1).

Definition in_range (w : Z) (z : Z) : bool :=
  (- 2 ^ (w - 1) <=? z) && (z <? 2 ^ (w - 1)).

Definition INT_MAX : Z := 2147483647.
Definition SCHAR_MAX : Z := 127.
Definition SCHAR_MIN : Z := -128.

(** [(int)n] for a [size_t] value [n], and a value stored in an [int32_t]. *)
Definition to_int (z : Z) : Z := wrap 32 z.

(** The result of an arithmetic operation on [int] operands whose
    mathematical value is [z]: [z] when an [int] can hold it; signed overflow
    is undefined. *)
Definition int_value (z : Z) : option Z :=
  if in_range 32 z then Some z else None.

End MachInt.

(** ** IEEE-754 binary32, the C++ [float] *)

Module F32.

Definition prec : Z := 24.
Definition emax : Z := 128.

Definition t : Type := spec_float.

Definition valid (x : t) : bool := valid_binary prec emax x.

Definition mul (x y : t) : t := SFmul prec emax x y.
Definition add (x y : t) : t := SFadd prec emax x y.
Definition abs (x : t) : t := SFabs x.
Definition leb (x y : t) : bool := SFleb x y.

(** Conversion of an integer, rounding to nearest even. *)
Definition of_Z (z : Z) : t := binary_normalize prec emax z 0 false.

Definition zero : t := S754_zero false.
Definition one : t := Eval cbv in of_Z 1.

(** Conversion to an integer type discards the fractional part; it has no
    value for an infinity or a NaN. *)
Definition trunc (x : t) : option Z :=
  match x with
  | S754_zero _ => Some 0
  | S754_finite s m e => Some (cond_Zopp s (Z.shiftl (Zpos m) e))
  | S754_infinity _ | S754_nan => None
  end.

(** Conversion to [int8_t]: the truncated value when the destination type
    can represent it, undefined otherwise. *)
Definition to_int8 (x : t) : option Z :=
  z <- trunc x ;;
  if MachInt.in_range 8 z then Some z else None.

(** Narrowing a [double]: the value rounded to binary32. *)
Definition of_F64 (x : spec_float) : t :=
  match x with
  | S754_finite s m e => binary_round prec emax s m e
  | _ => x
  end.

End F32.

(** ** IEEE-754 binary64, the C++ [double] *)

Module F64.

Definition prec : Z := 53.
Definition emax : Z := 1024.

Definition t : Type := spec_float.

Definition mul (x y : t) : t := SFmul prec emax x y.
Definition div (x y : t) : t := SFdiv prec emax x y.
Definition sub (x y : t) : t := SFsub prec emax x y.
Definition of_Z (z : Z) : t := binary_normalize prec emax z 0 false.

(** Widening a [float]: every binary32 value is a binary64 value. *)
Definition of_F32 (x : F32.t) : t :=
  match x with
  | S754_finite s m e => binary_round prec emax s m e
  | _ => x
  end.

(** [M_PI], the double nearest to pi: [0x400921FB54442D18]. *)
Definition M_PI : t := S754_finite false 7074237752028440 (-51).

End F64.

(** ** [std::complex<float>] *)

Record complexf : Type := Cplx { real : F32.t; imag : F32.t }.

(** ** Vectors written by index *)

Fixpoint upd {A : Type} (i : nat) (x : A) (l : list A) : list A :=
  match l, i with
  | [], _ => []
  | _ :: l', O => x :: l'
  | y :: l', S i' => y :: upd i' x l'
  end.

(** ** The sample sink: [f32_to_s8] *)

(** [SCHAR_MAX] converted to [float] for the multiplication. *)
Definition SCHAR_MAX_f : F32.t := Eval cbv in F32.of_Z MachInt.SCHAR_MAX.

(** One assignment [result[k] = x * SCHAR_MAX]. *)
Definition scale_s8 (x : F32.t) : option Z :=
  F32.to_int8 (F32.mul x SCHAR_MAX_f).

(** The body of the loop, from index [i] on: [input] holds the elements not
    yet visited.  The indices [i * 2] and [i * 2 + 1] are computed in [int],
    as [i] is one. *)
Fixpoint f32_to_s8_loop (input : list complexf) (i : nat) (result : list Z)
  : option (list Z) :=
  match input with
  | [] => Some result
  | c :: rest =>
      even <- MachInt.int_value (Z.of_nat i * 2) ;;
      a <- scale_s8 (real c) ;;
      twice <- MachInt.int_value (Z.of_nat i * 2) ;;
      odd <- MachInt.int_value (twice + 1) ;;
      b <- scale_s8 (imag c) ;;
      f32_to_s8_loop rest (S i)
        (upd (Z.to_nat odd) b (upd (Z.to_nat even) a result))
  end.

(** [result] starts as [input.size() * 2] zeros; the loop counter is an [int]
    compared with [(int)input.size()]. *)
Definition f32_to_s8 (input : list complexf) : option (list Z) :=
  let n := MachInt.to_int (Z.of_nat (length input)) in
  f32_to_s8_loop (firstn (Z.to_nat n) input) 0 (repeat 0 (length input * 2)).

(** The sample sink as the specification words it: scale by 127, round toward
    zero, clamp to the range of a signed byte, I before Q. *)
Definition clamp (lo hi z : Z) : Z := Z.max lo (Z.min hi z).

Definition quantize_spec (x : F32.t) : option Z :=
  z <- F32.trunc (F32.mul x SCHAR_MAX_f) ;;
  Some (clamp MachInt.SCHAR_MIN MachInt.SCHAR_MAX z).

Fixpoint iq_s8_spec (input : list complexf) : option (list Z) :=
  match input with
  | [] => Some []
  | c :: rest =>
      a <- quantize_spec (real c) ;;
      b <- quantize_spec (imag c) ;;
      out <- iq_s8_spec rest ;;
      Some (a :: b :: out)
  end.

(** A sample the sink can convert: both scaled components truncate into the
    range of [int8_t]. *)
Definition s8_representable (c : complexf) : bool :=
  match scale_s8 (real c), scale_s8 (imag c) with
  | Some _, Some _ => true
  | _, _ => false
  end.

(** Unit amplitude: a finite component of magnitude at most one. *)
Definition unit_amplitude (x : F32.t) : bool :=
  F32.valid x && F32.leb (F32.abs x) F32.one.


(** ** Bytes written by [fwrite] *)

(** An [int8_t] in memory. *)
Definition byte_of_int8 (z : Z) : Z := z mod 256.

(** The [n] low bytes of [z], least significant first. *)
Definition le_bytes (n : nat) (z : Z) : list Z :=
  map (fun i => (z / 2 ^ (8 * Z.of_nat i)) mod 256) (seq 0 n).

(** The binary32 interchange encoding; NaN is the default quiet NaN. *)
Definition bits_of_f32 (x : F32.t) : Z :=
  let sign (s : bool) := if s then 2 ^ 31 else 0 in
  match x with
  | S754_zero s => sign s
  | S754_infinity s => sign s + 255 * 2 ^ 23
  | S754_nan => 255 * 2 ^ 23 + 2 ^ 22
  | S754_finite s m e =>
      sign s + (if Z.pos m <? 2 ^ 23 then Z.pos m
                else (e + 150) * 2 ^ 23 + (Z.pos m - 2 ^ 23))
  end.

Definition f32_bytes (x : F32.t) : list Z := le_bytes 4 (bits_of_f32 x).

Definition complexf_bytes (c : complexf) : list Z :=
  f32_bytes (real c) ++ f32_bytes (imag c).

(** ** What [aprs.cpp] takes from [dsp.h] *)

(** [dsp.cpp] is not among the sources: its functions are the fields of an
    interface.  A ring buffer is the list of the samples it holds, oldest
    first; [fmmod] receives the chunk [input[0..input_size)], the ring buffer,
    the sensitivity and the last phase, and returns the ring buffer after its
    insertions with the phase it returns; [interpolate] returns the state of
    the interpolator after the call, the samples it stored in [output] and
    the count it returns; [afsk] turns line bits into audio samples. *)
Class Dsp : Type := {
  BUFSIZE : positive;
  lowpass : F32.t -> F32.t -> F32.t -> F32.t -> list F32.t;
  fmmod : list F32.t -> list complexf -> F32.t -> F32.t ->
          list complexf * F32.t;
  FIRInterpolator : Type;
  FIRInterpolator_new : F32.t -> list F32.t -> FIRInterpolator;
  interpolate : FIRInterpolator -> list complexf ->
                FIRInterpolator * list complexf * Z;
  afsk : list bool -> list F32.t
}.

(** The audio rate of [dsp.h], as the comment above [modulate] has it:
    48000 * 50 = 2400000. *)
Definition AUDIO_SAMPLE_RATE : Z := 48000.

(** ** [modulate] *)

Inductive OutputFormat : Type := IQ_S8 | IQ_F32 | PCM_F32.

Definition max_deviation : F32.t := F32.of_Z 5000.

(** [2 * M_PI * max_deviation / (float)AUDIO_SAMPLE_RATE]: evaluated in
    [double], stored in a [float]. *)
Definition sensitivity : F32.t :=
  F32.of_F64
    (F64.div
       (F64.mul (F64.mul (F64.of_Z 2) F64.M_PI) (F64.of_F32 max_deviation))
       (F64.of_F32 (F32.of_Z AUDIO_SAMPLE_RATE))).

Definition factor : F32.t := F32.of_Z 50.
Definition fractional_bw : F32.t :=
  F32.of_F64 (F64.div (F64.of_Z 4) (F64.of_Z 10)).
Definition halfband : F32.t :=
  F32.of_F64 (F64.div (F64.of_Z 1) (F64.of_Z 2)).
Definition trans_width : F32.t := SFsub F32.prec F32.emax halfband fractional_bw.
Definition mid_transition_band : F32.t :=
  F32.of_F64
    (F64.sub (F64.of_F32 halfband)
       (F64.div (F64.of_F32 trans_width) (F64.of_Z 2))).

(** One pass through the body of the [while] loop, as observed from outside:
    the chunk given to [fmmod] with the phase passed and returned, the ring
    buffer before and after [fmmod], what the interpolator returned for it,
    and the bytes given to [fwrite]. *)
Record iteration : Type := {
  it_offset : Z;
  it_chunk : list F32.t;
  it_sensitivity : F32.t;
  it_phase_in : F32.t;
  it_phase_out : F32.t;
  it_buf_in : list complexf;
  it_mod_buf : list complexf;
  it_processed : Z;
  it_interp_buf : list complexf;
  it_written : list Z
}.

(** The bytes of one [fwrite] in [modulate]. *)
Definition sink (iq_sf : OutputFormat) (interp_buf : list complexf)
  : option (list Z) :=
  match iq_sf with
  | IQ_S8 =>
      samples_s8 <- f32_to_s8 interp_buf ;;
      Some (map byte_of_int8 samples_s8)
  | _ => Some (flat_map complexf_bytes interp_buf)
  end.

Section Modulate.

Context {dsp : Dsp}.

(** The local variables of [modulate] that live across iterations, the bytes
    written to [fout] so far, and the iterations so far. *)
Record mstate : Type := {
  last_phase : F32.t;
  offset : Z;
  mod_buf : list complexf;
  interp : FIRInterpolator;
  fout : list Z;
  trace : list iteration
}.

Definition taps : list F32.t :=
  lowpass factor factor mid_transition_band trans_width.

Definition modulate_init : mstate :=
  {| last_phase := F32.zero; offset := 0; mod_buf := [];
     interp := FIRInterpolator_new factor taps; fout := []; trace := [] |}.

(** The [while] loop.  Every iteration that does not leave the loop advances
    [offset] by at least one sample, so [fuel] iterations are enough whenever
    [fuel] is at least the number of samples left ([modulate_loop_fuel]). *)
Fixpoint modulate_loop (fuel : nat) (waveform : list F32.t)
  (iq_sf : OutputFormat) (st : mstate) : option mstate :=
  match fuel with
  | O => Some st
  | S fuel' =>
      let size := MachInt.to_int (Z.of_nat (length waveform)) in
      if offset st <? size then
        let input_size := Z.min (Z.pos BUFSIZE) (size - offset st) in
        let chunk :=
          firstn (Z.to_nat input_size)
                 (skipn (Z.to_nat (offset st)) waveform) in
        let '(buf, phase) :=
          fmmod chunk (mod_buf st) sensitivity (last_phase st) in
        let '(interp', interp_buf, processed) :=
          interpolate (interp st) buf in
        let it bytes :=
          {| it_offset := offset st; it_chunk := chunk;
             it_sensitivity := sensitivity;
             it_phase_in := last_phase st; it_phase_out := phase;
             it_buf_in := mod_buf st; it_mod_buf := buf;
             it_processed := processed;
             it_interp_buf := interp_buf; it_written := bytes |} in
        if processed =? 0 then
          Some {| last_phase := phase; offset := offset st; mod_buf := buf;
                  interp := interp'; fout := fout st;
                  trace := trace st ++ [it []] |}
        else
          bytes <- sink iq_sf interp_buf ;;
          modulate_loop fuel' waveform iq_sf
            {| last_phase := phase; offset := offset st + input_size;
               mod_buf := skipn (Z.to_nat processed) buf;
               interp := interp'; fout := fout st ++ bytes;
               trace := trace st ++ [it bytes] |}
      else Some st
  end.

(** The state in which [modulate] returns. *)
Definition modulate_run (waveform : list F32.t) (iq_sf : OutputFormat)
  : option mstate :=
  modulate_loop (length waveform) waveform iq_sf modulate_init.

(** The bytes [modulate] writes to [fout]. *)
Definition modulate (waveform : list F32.t) (iq_sf : OutputFormat)
  : option (list Z) :=
  st <- modulate_run waveform iq_sf ;;
  Some (fout st).

(** The state after an iteration that goes on to the next one. *)
Definition next_state (input_size : Z) (st : mstate) (it : iteration)
  (interp' : FIRInterpolator) : mstate :=
  {| last_phase := it_phase_out it;
     offset := offset st + input_size;
     mod_buf := skipn (Z.to_nat (it_processed it)) (it_mod_buf it);
     interp := interp';
     fout := fout st ++ it_written it;
     trace := trace st ++ [it] |}.

(** The state after the iteration that leaves the loop by [break]. *)
Definition break_state (st : mstate) (it : iteration)
  (interp' : FIRInterpolator) : mstate :=
  {| last_phase := it_phase_out it;
     offset := offset st;
     mod_buf := it_mod_buf it;
     interp := interp';
     fout := fout st;
     trace := trace st ++ [it] |}.

(** [run_from waveform iq_sf st its st']: started in [st], the loop goes
    through the iterations [its], in this order, and is left in [st']. *)
Fixpoint run_from (waveform : list F32.t) (iq_sf : OutputFormat)
  (st : mstate) (its : list iteration) (st' : mstate) : Prop :=
  let size := MachInt.to_int (Z.of_nat (length waveform)) in
  match its with
  | [] => size <= offset st /\ st' = st
  | it :: rest =>
      offset st < size /\
      it_offset it = offset st /\
      it_chunk it =
        firstn (Z.to_nat (Z.min (Z.pos BUFSIZE) (size - offset st)))
               (skipn (Z.to_nat (offset st)) waveform) /\
      it_sensitivity it = sensitivity /\
      it_phase_in it = last_phase st /\
      it_buf_in it = mod_buf st /\
      fmmod (it_chunk it) (mod_buf st) sensitivity (last_phase st)
        = (it_mod_buf it, it_phase_out it) /\
      exists interp',
        interpolate (interp st) (it_mod_buf it)
          = (interp', it_interp_buf it, it_processed it) /\
        if it_processed it =? 0 then
          it_written it = [] /\ rest = [] /\ st' = break_state st it interp'
        else
          sink iq_sf (it_interp_buf it) = Some (it_written it) /\
          run_from waveform iq_sf
            (next_state (Z.min (Z.pos BUFSIZE) (size - offset st)) st it
                        interp')
            rest st'
  end.

End Modulate.

(** The phase handed from one call of [fmmod] to the next: every iteration
    starts from the phase the one before returned, the first from [p]. *)
Fixpoint phase_chain (p : F32.t) (its : list iteration) : Prop :=
  match its with
  | [] => True
  | it :: rest => it_phase_in it = p /\ phase_chain (it_phase_out it) rest
  end.

(** The interpolation factor of [modulate] as a count. *)
Definition INTERP : Z := 50.

(** An iteration in which [fmmod] stored one sample for each input sample and
    the interpolator consumed the whole ring buffer, giving 50 samples for
    each one. *)
Definition it_full (it : iteration) : bool :=
  (length (it_mod_buf it) =? length (it_buf_in it) + length (it_chunk it))%nat
  && (it_processed it =? Z.of_nat (length (it_mod_buf it)))
  && (Z.of_nat (length (it_interp_buf it)) =? INTERP * it_processed it).

(** An iteration in which the interpolator gave 50 samples for each sample it
    consumed. *)
Definition it_exact (it : iteration) : bool :=
  (0 <=? it_processed it)
  && (Z.of_nat (length (it_interp_buf it)) =? INTERP * it_processed it).

Definition consumed (its : list iteration) : Z :=
  fold_right (fun it acc => it_processed it + acc) 0 its.

(** ** What the callers take from [ax25.h] *)

(** The ways the frame builder refuses a request. *)
Inductive error : Type := InvalidCallsign | InvalidPath | OversizedInfo.

(** A call returns, leaves by an error of the frame builder that no caller
    catches, or has undefined behaviour. *)
Inductive outcome (A : Type) : Type :=
| Ret (a : A)
| Throw (e : error)
| Undefined.

Arguments Ret {A} a.
Arguments Throw {A} e.
Arguments Undefined {A}.

Definition obind {A B : Type} (c : outcome A) (k : A -> outcome B)
  : outcome B :=
  match c with
  | Ret a => k a
  | Throw e => Throw e
  | Undefined => Undefined
  end.

Notation "x <~ c ;; k" := (obind c (fun x => k))
  (at level 61, c at next level, right associativity).

Definition of_option {A : Type} (c : option A) : outcome A :=
  match c with
  | Some a => Ret a
  | None => Undefined
  end.

(** [ax25.cpp] is not among the sources either: [ax25frame] builds the bit
    stream of a frame from callsign, destination, path and information field,
    [nrzi] is the line coder. *)
Class Ax25 : Type := {
  ax25frame : String.string -> String.string -> String.string ->
              String.string -> bool -> outcome (list bool);
  nrzi : list bool -> list bool
}.

(** ** C strings *)

Definition NUL : ascii := Ascii.zero.

(** [strncpy(dst, src, n)] writes exactly [n] bytes: the characters of [src]
    up to [n] of them, then zero bytes. *)
Definition strncpy (src : list ascii) (n : nat) : list ascii :=
  firstn n (src ++ repeat NUL n).

(** The string that starts an array: the characters before its first zero
    byte.  Without a zero byte the read runs off the array. *)
Fixpoint c_str (mem : list ascii) : option (list ascii) :=
  match mem with
  | [] => None
  | c :: rest =>
      if Ascii.eqb c NUL then Some []
      else s <- c_str rest ;; Some (c :: s)
  end.

(** [s.c_str()] of a [std::string] as a C function reads it: the characters
    before the first zero byte. *)
Fixpoint c_chars (s : list ascii) : list ascii :=
  match s with
  | [] => []
  | c :: rest => if Ascii.eqb c NUL then [] else c :: c_chars rest
  end.

Definition string_c_str (s : String.string) : String.string :=
  String.string_of_list_ascii (c_chars (String.list_ascii_of_string s)).

(** ** [gen_iq_s8] *)

(** What a call finds in its environment: the byte that happens to be in
    [path[63]], which nothing initialises, and the answer of [malloc] to a
    request of a given size: [None] when it fails, else the byte found at
    each index of the new block. *)
Record c_env : Type := {
  path_63 : ascii;
  malloc : Z -> option (nat -> Z)
}.

(** A block of [size] bytes after a stream opened on it by [fmemopen] for
    writing has received [data] and has been closed, as the C library does
    it (POSIX, glibc): the data is stored as far as it fits and the bytes not
    reached keep what the block held; unless the data ends with a zero byte,
    a zero byte is stored behind it, in the last byte of the block when the
    data reaches the end of the block; data longer than a block that has no
    room for this zero byte is refused.  A stream that received nothing
    stores nothing.  (When the data is longer than the block, what is left
    in the last byte of the block depends on the pieces in which the stream
    hands the data on; the data is taken in one piece here.) *)
Definition fmemopen_write (block : nat -> Z) (size : nat) (data : list Z)
  : list Z :=
  let untouched := map block (seq 0 size) in
  let addnullc := negb (last data 1 =? 0) in
  match data with
  | [] => untouched
  | _ :: _ =>
      if Nat.ltb size (length data)
         && Nat.leb size (if addnullc then 1 else 0)
      then untouched
      else
        let stored :=
          firstn size data
          ++ map block (seq (length data) (size - length data)) in
        if addnullc then
          upd (Nat.min (length data) (size - 1)) 0 stored
        else stored
  end.

Definition to_size_t (z : Z) : Z := z mod 2 ^ 64.

Section Callers.

Context {dsp : Dsp} {ax25 : Ax25}.

(** The value stored in [*total] and the pointer returned: [None] is the null
    pointer, [Some b] a block whose bytes are [b]. *)
Definition gen_iq_s8 (env : c_env) (callsign user_path info : String.string)
  : outcome (Z * option (list Z)) :=
  let dest := "APRS"%string in
  path <~ of_option
            (c_str (strncpy (String.list_ascii_of_string user_path) 63
                    ++ [path_63 env])) ;;
  frame <~ ax25frame callsign dest (String.string_of_list_ascii path)
                     info false ;;
  let frame_nrzi := nrzi frame in
  let wave := afsk frame_nrzi in
  let total := MachInt.to_int (Z.of_nat (length wave) * 50 * 2) in
  match malloc env (to_size_t total) with
  | None => Ret (total, None)
  | Some samples =>
      written <~ of_option (modulate wave IQ_S8) ;;
      Ret (total,
           Some (fmemopen_write samples (Z.to_nat (to_size_t total)) written))
  end.

(** ** [run_aprs] *)

Record Config : Type := {
  debug : bool;
  callsign : String.string;
  dest : String.string;
  path : String.string;
  output : String.string;
  info : String.string;
  iq_sf : OutputFormat;
  frequency : F64.t;
  sampleRate : F64.t;
  amplifier : Z;
  txvga_gain : Z
}.

Definition empty (s : String.string) : bool := String.eqb s ""%string.

(** The callsign and the information field the frame is built from: the
    configured ones, or the built-in defaults when they are empty. *)
Definition callsignUsed (config : Config) : String.string :=
  if negb (empty (callsign config)) then callsign config
  else "KD9WPR"%string.

Definition infoUsed (config : Config) : String.string :=
  if negb (empty (info config)) then info config
  else "Hello from APRS default message"%string.

(** The value returned and the bytes written to [fout]; [fopen_ok] tells
    whether the output file, when one is named, can be created. *)
Definition run_aprs (fopen_ok : bool) (config : Config)
  : outcome (Z * list Z) :=
  frame <~ ax25frame (string_c_str (callsignUsed config))
                     (string_c_str (dest config))
                     (string_c_str (path config))
                     (string_c_str (infoUsed config)) false ;;
  let frame_nrzi := nrzi frame in
  let wave := afsk frame_nrzi in
  if negb (empty (output config)) && negb fopen_ok then Ret (1, [])
  else
    written <~ match iq_sf config with
               | PCM_F32 => Ret (flat_map f32_bytes wave)
               | fmt => of_option (modulate wave fmt)
               end ;;
    Ret (0, written).

End Callers.

(** [config] with another callsign. *)
Definition with_callsign (c : String.string) (config : Config) : Config :=
  {| debug := debug config; callsign := c; dest := dest config;
     path := path config; output := output config; info := info config;
     iq_sf := iq_sf config; frequency := frequency config;
     sampleRate := sampleRate config; amplifier := amplifier config;
     txvga_gain := txvga_gain config |}.

(** ** The frame builder, the line coder and the DSP stages of the
       specification

    [ax25.cpp] and [dsp.cpp] being absent, the stages below are written from
    the specification (sections 3 and 4). *)

Module Spec.

(** The [n] low bits of [z], least significant first. *)
Definition bits_lsb (n : nat) (z : Z) : list bool :=
  map (fun i => Z.testbit z (Z.of_nat i)) (seq 0 n).

Definition of_bits_lsb (bs : list bool) : Z :=
  fold_right (fun b acc => Z.b2z b + 2 * acc) 0 bs.

(** *** Frame check sequence *)

(** Modelled from the spec: the FCS routine of [ax25.cpp], which is not among
    the sources.  The register runs over the bits in the order they are sent,
    least significant bit of each byte first, with the polynomial 0x1021 in
    reflected form (0x8408), from 0xFFFF. *)
Definition fcs_step (reg : Z) (b : bool) : Z :=
  if xorb (Z.testbit reg 0) b
  then Z.lxor (Z.shiftr reg 1) 33800
  else Z.shiftr reg 1.

Definition fcs_register (bytes : list Z) : Z :=
  fold_left fcs_step (flat_map (bits_lsb 8) bytes) 65535.

(** Modelled from the spec: "final XOR 0xFFFF", "complement taken". *)
Definition fcs (bytes : list Z) : Z := Z.lxor (fcs_register bytes) 65535.

(** Modelled from the spec: "the low byte precedes the high byte". *)
Definition fcs_bytes (bytes : list Z) : list Z :=
  [fcs bytes mod 256; fcs bytes / 256].

(** *** The reference CRC named by the specification *)

(** The low [n] bits of [z] in reverse order. *)
Definition reflect (n : nat) (z : Z) : Z := of_bits_lsb (rev (bits_lsb n z)).

(** One message bit entering a [width]-bit register at the top. *)
Definition crc_step (width : nat) (poly : Z) (reg : Z) (b : bool) : Z :=
  let top := xorb (Z.testbit reg (Z.of_nat width - 1)) b in
  let reg' := Z.shiftl reg 1 mod 2 ^ Z.of_nat width in
  if top then Z.lxor reg' poly else reg'.

(** Modelled from the spec: the reference CRC as a parameter set (width,
    polynomial, initial value, reflected input, reflected output, final XOR);
    each byte enters most significant bit first unless the input is
    reflected. *)
Definition crc (width : nat) (poly init : Z) (refin refout : bool)
  (xorout : Z) (msg : list Z) : Z :=
  let feed reg byte :=
    fold_left (crc_step width poly)
              (rev (bits_lsb 8 (if refin then reflect 8 byte else byte)))
              reg in
  let reg := fold_left feed msg init in
  Z.lxor (if refout then reflect width reg else reg) xorout.

(** "ITU-T CRC-16 (polynomial 0x1021, init 0xFFFF, reflected input, reflected
    output, final XOR 0xFFFF)". *)
Definition crc16_itu : list Z -> Z := crc 16 4129 65535 true true 65535.

(** *** Addresses and frame bytes *)

Record address : Type := { addr_call : list ascii; addr_ssid : Z }.

Definition code (c : ascii) : Z := Z.of_nat (nat_of_ascii c).

Definition is_digit (c : ascii) : bool := (48 <=? code c) && (code c <=? 57).

Definition is_alnum (c : ascii) : bool :=
  is_digit c || ((65 <=? code c) && (code c <=? 90))
             || ((97 <=? code c) && (code c <=? 122)).

Definition is_space (c : ascii) : bool := code c =? 32.

(** The pieces of [s] between occurrences of [sep]. *)
Fixpoint split_on (sep : ascii) (s : list ascii) : list (list ascii) :=
  match s with
  | [] => [[]]
  | c :: rest =>
      if Ascii.eqb c sep then [] :: split_on sep rest
      else match split_on sep rest with
           | piece :: pieces => (c :: piece) :: pieces
           | [] => [[c]]
           end
  end.

Definition parse_decimal (ds : list ascii) : option Z :=
  match ds with
  | [] => None
  | _ =>
      if forallb is_digit ds
      then Some (fold_left (fun acc d => 10 * acc + (code d - 48)) ds 0)
      else None
  end.

(** Modelled from the spec: an address is [CALL[-SSID]], the callsign of at
    most six alphanumeric characters or spaces, the SSID within 0..15. *)
Definition parse_address (s : list ascii) : option address :=
  let valid_call c :=
    (Nat.leb (length c) 6) && forallb (fun x => is_alnum x || is_space x) c in
  match split_on "-" s with
  | [c] =>
      if valid_call c then Some {| addr_call := c; addr_ssid := 0 |} else None
  | [c; d] =>
      ssid <- parse_decimal d ;;
      if valid_call c && (ssid <=? 15)
      then Some {| addr_call := c; addr_ssid := ssid |}
      else None
  | _ => None
  end.

(** Modelled from the spec: six characters, space padded, each shifted left
    by one bit; then the SSID byte with bits 5 and 6 set, the SSID in bits 1
    to 4 and bit 0 set on the last address only. *)
Definition encode_address (a : address) (last : bool) : list Z :=
  map (fun c => 2 * code c) (firstn 6 (addr_call a ++ repeat " "%char 6))
  ++ [96 + 2 * addr_ssid a + Z.b2z last].

Fixpoint encode_digis (digis : list address) : list Z :=
  match digis with
  | [] => []
  | [a] => encode_address a true
  | a :: rest => encode_address a false ++ encode_digis rest
  end.

Fixpoint parse_all (entries : list (list ascii)) : option (list address) :=
  match entries with
  | [] => Some []
  | e :: rest =>
      a <- (match e with [] => None | _ => parse_address e end) ;;
      others <- parse_all rest ;;
      Some (a :: others)
  end.

(** Modelled from the spec: the digipeater path is a comma separated list of
    at most eight addresses; the empty string is the empty path. *)
Definition parse_path (path : list ascii) : option (list address) :=
  match path with
  | [] => Some []
  | _ =>
      digis <- parse_all (split_on "," path) ;;
      if Nat.leb (length digis) 8 then Some digis else None
  end.

Definition MAX_INFO : nat := 256.

(** Modelled from the spec: the bytes of the UI frame,
    [dest src digi* 0x03 0xF0 info FCS_lo FCS_hi], or the error that refuses
    the request. *)
Definition frame_bytes (callsign dest path info : String.string)
  : outcome (list Z) :=
  let src_chars := String.list_ascii_of_string callsign in
  match src_chars, parse_address src_chars,
        parse_address (String.list_ascii_of_string dest) with
  | [], _, _ => Throw InvalidCallsign
  | _, None, _ => Throw InvalidCallsign
  | _, _, None => Throw InvalidCallsign
  | _, Some src, Some dst =>
      if match addr_call src with [] => true | _ => false end
      then Throw InvalidCallsign
      else
        match parse_path (String.list_ascii_of_string path) with
        | None => Throw InvalidPath
        | Some digis =>
            let info_bytes := map code (String.list_ascii_of_string info) in
            if Nat.ltb MAX_INFO (length info_bytes) then Throw OversizedInfo
            else
              let body :=
                encode_address dst false
                ++ encode_address src (match digis with [] => true | _ => false end)
                ++ encode_digis digis
                ++ [3; 240] ++ info_bytes in
              Ret (body ++ fcs_bytes body)
        end
  end.

(** *** Bit serializer *)

Definition FLAG : Z := 126.

(** Modelled from the spec: "after every 5th consecutive 1, insert a 0 bit
    and reset the counter; any 0 bit resets the counter"; [ones] is the
    running count. *)
Fixpoint stuff (ones : nat) (bits : list bool) : list bool :=
  match bits with
  | [] => []
  | false :: rest => false :: stuff 0 rest
  | true :: rest =>
      if Nat.eqb ones 4 then true :: false :: stuff 0 rest
      else true :: stuff (S ones) rest
  end.

(** [k] is the number of 1 bits that may still come before a 0 bit is due:
    in a stuffed stream a 0 follows every five consecutive 1 bits. *)
Fixpoint stuffed_ok (k : nat) (bits : list bool) : bool :=
  match bits with
  | [] => negb (Nat.eqb k 0)
  | false :: rest => stuffed_ok 5 rest
  | true :: rest =>
      match k with
      | O => false
      | S k' => stuffed_ok k' rest
      end
  end.

(** Modelled from the spec: one opening flag, the frame bytes least
    significant bit first with bit stuffing, one closing flag; the flags are
    not stuffed. *)
Definition serialize (bytes : list Z) : list bool :=
  bits_lsb 8 FLAG ++ stuff 0 (flat_map (bits_lsb 8) bytes) ++ bits_lsb 8 FLAG.

(** Modelled from the spec: [ax25frame] of [ax25.cpp], frame builder followed
    by bit serializer. *)
Definition ax25frame (callsign dest path info : String.string) (debug : bool)
  : outcome (list bool) :=
  bytes <~ frame_bytes callsign dest path info ;;
  Ret (serialize bytes).

(** *** NRZI *)

Fixpoint nrzi_from (level : bool) (bits : list bool) : list bool :=
  match bits with
  | [] => []
  | b :: rest =>
      let level' := if b then level else negb level in
      level' :: nrzi_from level' rest
  end.

(** Modelled from the spec: [nrzi] of [ax25.cpp]; a 0 toggles the level, a 1
    holds it, the new level is emitted, the initial level is 1. *)
Definition nrzi (bits : list bool) : list bool := nrzi_from true bits.

(** *** AFSK *)

Definition SAMPLES_PER_BIT : nat := 40.

Section Afsk.

(** The sine of [n / 48000] of a turn, from the math library. *)
Variable sin_turn : Z -> F32.t.

Definition tone (b : bool) : Z := if b then 1200 else 2200.

(** [n] samples at frequency [f]; the phase is counted in 48000ths of a turn
    and kept within one turn. *)
Fixpoint afsk_samples (n : nat) (f : Z) (phase : Z) : list F32.t * Z :=
  match n with
  | O => ([], phase)
  | S n' =>
      let phase' := (phase + f) mod AUDIO_SAMPLE_RATE in
      let '(rest, final) := afsk_samples n' f phase' in
      (sin_turn phase' :: rest, final)
  end.

(** One bit: its samples are appended and the phase is carried on. *)
Definition afsk_bit (acc : list F32.t * Z) (b : bool) : list F32.t * Z :=
  let '(samples, phase) := afsk_samples SAMPLES_PER_BIT (tone b) (snd acc) in
  (fst acc ++ samples, phase).

(** Modelled from the spec: [afsk] of [dsp.cpp]; 40 samples for each bit, a
    phase accumulator that is never reset between bits, mark for 1 and space
    for 0. *)
Definition afsk (bits : list bool) : list F32.t :=
  fst (fold_left afsk_bit bits ([], 0)).

End Afsk.

(** *** FM modulator *)

Section Fmmod.

(** [(cos psi, sin psi)], from the math library. *)
Variable cis : F32.t -> complexf.

(** Modelled from the spec: [fmmod] of [dsp.cpp];
    [psi[n] = psi[n-1] + k * x[n]] and [exp(i psi[n])] is appended to the
    ring buffer; the last phase is returned. *)
Fixpoint fmmod (input : list F32.t) (output : list complexf)
  (k : F32.t) (last_phase : F32.t) : list complexf * F32.t :=
  match input with
  | [] => (output, last_phase)
  | x :: rest =>
      let psi := F32.add last_phase (F32.mul k x) in
      fmmod rest (output ++ [cis psi]) k psi
  end.

End Fmmod.

(** *** FIR interpolator *)

Definition L : nat := 50.

Definition czero : complexf := Cplx F32.zero F32.zero.

(** [acc + h * x] on both components. *)
Definition cmac (acc : complexf) (h : F32.t) (x : complexf) : complexf :=
  Cplx (F32.add (real acc) (F32.mul h (real x)))
       (F32.add (imag acc) (F32.mul h (imag x))).

(** The taps of sub-filter [j]: [h[j], h[j+L], h[j+2L], ...]. *)
Fixpoint phase_taps (fuel : nat) (taps : list F32.t) (j : nat) : list F32.t :=
  match fuel with
  | O => []
  | S fuel' =>
      match skipn j taps with
      | [] => []
      | h :: _ => h :: phase_taps fuel' (skipn L taps) j
      end
  end.

(** The number of taps of a sub-filter. *)
Definition taps_per_phase (taps : list F32.t) : nat :=
  Nat.div (length taps + L - 1) L.

(** One output sample of a sub-filter on a window, newest sample first. *)
Definition fir (h : list F32.t) (window : list complexf) : complexf :=
  fold_left (fun acc hx => cmac acc (fst hx) (snd hx)) (combine h window) czero.

(** The [L] outputs for one input position. *)
Definition polyphase (taps : list F32.t) (window : list complexf)
  : list complexf :=
  map (fun j => fir (phase_taps (length taps) taps j) window) (seq 0 L).

(** Modelled from the spec: [FIRInterpolator] of [dsp.cpp], with the history
    in a delay line of its own ("maintains internal history across calls"):
    every sample of the ring buffer is consumed and gives [L] outputs. *)
Record delay_line : Type := { dl_taps : list F32.t; dl_hist : list complexf }.

Definition delay_line_new (f : F32.t) (taps : list F32.t) : delay_line :=
  {| dl_taps := taps;
     dl_hist := repeat czero (taps_per_phase taps - 1) |}.

Fixpoint delay_line_run (taps : list F32.t) (hist : list complexf)
  (input : list complexf) : list complexf * list complexf :=
  match input with
  | [] => (hist, [])
  | x :: rest =>
      let window := x :: hist in
      let '(hist', out) :=
        delay_line_run taps (firstn (taps_per_phase taps - 1) window) rest in
      (hist', polyphase taps window ++ out)
  end.

Definition delay_line_interpolate (st : delay_line) (input : list complexf)
  : delay_line * list complexf * Z :=
  let '(hist, out) := delay_line_run (dl_taps st) (dl_hist st) input in
  ({| dl_taps := dl_taps st; dl_hist := hist |}, out,
   Z.of_nat (length input)).

End Spec.

(** The check message of the CRC catalogues, "123456789". *)
Definition check_message : list Z :=
  map Spec.code (String.list_ascii_of_string "123456789"%string).

(** [run_at bits i n]: the [n] bits of [bits] from position [i] on are all
    1. *)
Definition run_at (bits : list bool) (i n : nat) : Prop :=
  forall j, (j < n)%nat -> nth_error bits (i + j) = Some true.

(** ** Instances used to run the pipeline

    The math library is outside the repository: where a run needs values for
    [sinf] and [cosf], a triangle wave of the same period, range and symmetry
    stands for them; the taps are those of a two point average per
    sub-filter. *)

Definition F32_div (x y : F32.t) : F32.t := SFdiv F32.prec F32.emax x y.

Definition tri_turn (n : Z) : F32.t :=
  let n := n mod 48000 in
  let num :=
    if n <=? 12000 then n
    else if n <=? 36000 then 24000 - n
    else n - 48000 in
  F32_div (F32.of_Z num) (F32.of_Z 12000).

(** [psi] radians in 48000ths of a turn: [48000 / (2 pi)] is about 7639. *)
Definition tri_cis (psi : F32.t) : complexf :=
  let n := match F32.trunc (F32.mul psi (F32.of_Z 7639)) with
           | Some z => z
           | None => 0
           end in
  Cplx (tri_turn (n + 12000)) (tri_turn n).

Definition average_taps : list F32.t :=
  repeat (F32_div (F32.of_Z 1) (F32.of_Z 2)) 100.

#[local] Instance dsp_delay_line (bufsize : positive) : Dsp := {|
  BUFSIZE := bufsize;
  lowpass := fun _ _ _ _ => average_taps;
  fmmod := Spec.fmmod tri_cis;
  FIRInterpolator := Spec.delay_line;
  FIRInterpolator_new := Spec.delay_line_new;
  interpolate := Spec.delay_line_interpolate;
  afsk := Spec.afsk tri_turn
|}.

(** The audio of a single mark bit: 40 samples. *)
Definition one_bit_wave : list F32.t := Spec.afsk tri_turn [true].

#[local] Instance ax25_spec : Ax25 := {|
  ax25frame := Spec.ax25frame;
  nrzi := Spec.nrzi
|}.

(** The smoke frame of the specification: N0CALL to APRS, no path, "Hello",
    written as PCM to a file. *)
Definition smoke_config : Config :=
  {| debug := false; callsign := "N0CALL"%string; dest := "APRS"%string; path := ""%string;
     output := "pkt.pcm"%string; info := "Hello"%string; iq_sf := PCM_F32;
     frequency := F64.of_Z 144390000; sampleRate := F64.of_Z 2400000;
     amplifier := 1; txvga_gain := 40 |}.

(** The bits [Spec.ax25frame] gives for it. *)
Definition smoke_frame : list bool :=
  Eval vm_compute in
    match Spec.ax25frame "N0CALL"%string "APRS"%string ""%string "Hello"%string false with
    | Ret frame => frame
    | _ => []
    end.

(** The same request with no callsign configured, and the bits of the frame
    of the default callsign. *)
Definition anonymous_config : Config := with_callsign ""%string smoke_config.

Definition default_frame : list bool :=
  Eval vm_compute in
    match Spec.ax25frame "KD9WPR"%string "APRS"%string ""%string "Hello"%string false with
    | Ret frame => frame
    | _ => []
    end.

(** A path of eight digipeaters, 64 characters, and its first 63
    characters. *)
Definition long_path : String.string :=
  "WIDE1-1,WIDE2-2,WIDE3-3,WIDE4-4,WIDE5-5,WIDE6-6,WIDE7-7,WIDE8-15"%string.

Definition truncated_path : String.string :=
  "WIDE1-1,WIDE2-2,WIDE3-3,WIDE4-4,WIDE5-5,WIDE6-6,WIDE7-7,WIDE8-1"%string.

(** An environment in which [malloc] fails, with a given byte at
    [path[63]]. *)
Definition env_null (garbage : ascii) : c_env :=
  {| path_63 := garbage; malloc := fun _ => None |}.

(** ** [modulate] in its two formats, [gen_iq_s8] with memory *)

(** An iteration without the bytes it wrote: what [modulate] did, whatever
    the output format. *)
Definition unwritten (it : iteration) : iteration :=
  {| it_offset := it_offset it; it_chunk := it_chunk it;
     it_sensitivity := it_sensitivity it;
     it_phase_in := it_phase_in it; it_phase_out := it_phase_out it;
     it_buf_in := it_buf_in it; it_mod_buf := it_mod_buf it;
     it_processed := it_processed it;
     it_interp_buf := it_interp_buf it; it_written := [] |}.

(** Two states of [modulate] that differ in the bytes written only. *)
Definition same_control {dsp : Dsp} (a b : mstate) : Prop :=
  last_phase a = last_phase b /\ offset a = offset b /\
  mod_buf a = mod_buf b /\ interp a = interp b /\
  map unwritten (trace a) = map unwritten (trace b).

(** The samples the interpolator returned in the calls that consumed
    something, in loop order: what [modulate] hands to [fwrite]. *)
Definition interpolated (its : list iteration) : list complexf :=
  flat_map (fun it => if it_processed it =? 0 then [] else it_interp_buf it)
           its.

(** An environment in which [malloc] always succeeds and returns zeroed
    memory. *)
Definition env_zeroed (garbage : ascii) : c_env :=
  {| path_63 := garbage; malloc := fun _ => Some (fun _ => 0) |}.

(** ** [config.cpp] *)

(** [strtod] and the insertion of a [double] into a stream come from the C
    and C++ libraries. *)
Class CLib : Type := {
  strtod : list ascii -> F64.t;
  put_double : F64.t -> list ascii
}.

(** Conversion of a [double] to [int]: the truncated value when [int] can
    represent it, undefined otherwise. *)
Definition F64_to_int (x : F64.t) : option Z :=
  z <- F32.trunc x ;;
  if MachInt.in_range 32 z then Some z else None.

(** [std::isspace] and [::tolower] in the "C" locale, which the program
    never changes; characters above 127 are neither spaces nor upper case. *)
Definition isspace (ch : ascii) : bool :=
  let n := nat_of_ascii ch in
  Nat.eqb n 32 || (Nat.leb 9 n && Nat.leb n 13).

Definition tolower (ch : ascii) : ascii :=
  let n := nat_of_ascii ch in
  if Nat.leb 65 n && Nat.leb n 90 then ascii_of_nat (n + 32) else ch.

(** The two [erase] calls of [trim]: up to the first character that is not
    a space, then from behind the last one that is not a space. *)
Fixpoint ltrim (s : list ascii) : list ascii :=
  match s with
  | [] => []
  | ch :: rest => if isspace ch then ltrim rest else s
  end.

Definition rtrim (s : list ascii) : list ascii := rev (ltrim (rev s)).

Definition trim (s : list ascii) : list ascii := rtrim (ltrim s).

(** A string that [trim] has nothing to remove from. *)
Definition trimmed (s : list ascii) : bool :=
  match s with
  | [] => true
  | ch :: _ => negb (isspace ch) && negb (isspace (last s ch))
  end.

(** [s.find(ch)]: the first position of [ch], [None] for [npos]. *)
Fixpoint find (ch : ascii) (s : list ascii) : option nat :=
  match s with
  | [] => None
  | c :: rest =>
      if Ascii.eqb c ch then Some O else option_map S (find ch rest)
  end.

(** [s.substr(pos, len)]. *)
Definition substr (pos len : nat) (s : list ascii) : list ascii :=
  firstn len (skipn pos s).

Definition with_debug (b : bool) (config : Config) : Config :=
  {| debug := b; callsign := callsign config; dest := dest config;
     path := path config; output := output config; info := info config;
     iq_sf := iq_sf config; frequency := frequency config;
     sampleRate := sampleRate config; amplifier := amplifier config;
     txvga_gain := txvga_gain config |}.

Definition with_dest (s : String.string) (config : Config) : Config :=
  {| debug := debug config; callsign := callsign config; dest := s;
     path := path config; output := output config; info := info config;
     iq_sf := iq_sf config; frequency := frequency config;
     sampleRate := sampleRate config; amplifier := amplifier config;
     txvga_gain := txvga_gain config |}.

Definition with_path (s : String.string) (config : Config) : Config :=
  {| debug := debug config; callsign := callsign config; dest := dest config;
     path := s; output := output config; info := info config;
     iq_sf := iq_sf config; frequency := frequency config;
     sampleRate := sampleRate config; amplifier := amplifier config;
     txvga_gain := txvga_gain config |}.

Definition with_output (s : String.string) (config : Config) : Config :=
  {| debug := debug config; callsign := callsign config; dest := dest config;
     path := path config; output := s; info := info config;
     iq_sf := iq_sf config; frequency := frequency config;
     sampleRate := sampleRate config; amplifier := amplifier config;
     txvga_gain := txvga_gain config |}.

Definition with_info (s : String.string) (config : Config) : Config :=
  {| debug := debug config; callsign := callsign config; dest := dest config;
     path := path config; output := output config; info := s;
     iq_sf := iq_sf config; frequency := frequency config;
     sampleRate := sampleRate config; amplifier := amplifier config;
     txvga_gain := txvga_gain config |}.

Definition with_iq_sf (f : OutputFormat) (config : Config) : Config :=
  {| debug := debug config; callsign := callsign config; dest := dest config;
     path := path config; output := output config; info := info config;
     iq_sf := f; frequency := frequency config;
     sampleRate := sampleRate config; amplifier := amplifier config;
     txvga_gain := txvga_gain config |}.

Definition with_frequency (x : F64.t) (config : Config) : Config :=
  {| debug := debug config; callsign := callsign config; dest := dest config;
     path := path config; output := output config; info := info config;
     iq_sf := iq_sf config; frequency := x;
     sampleRate := sampleRate config; amplifier := amplifier config;
     txvga_gain := txvga_gain config |}.

Definition with_sampleRate (x : F64.t) (config : Config) : Config :=
  {| debug := debug config; callsign := callsign config; dest := dest config;
     path := path config; output := output config; info := info config;
     iq_sf := iq_sf config; frequency := frequency config;
     sampleRate := x; amplifier := amplifier config;
     txvga_gain := txvga_gain config |}.

Definition with_amplifier (z : Z) (config : Config) : Config :=
  {| debug := debug config; callsign := callsign config; dest := dest config;
     path := path config; output := output config; info := info config;
     iq_sf := iq_sf config; frequency := frequency config;
     sampleRate := sampleRate config; amplifier := z;
     txvga_gain := txvga_gain config |}.

Definition with_txvga_gain (z : Z) (config : Config) : Config :=
  {| debug := debug config; callsign := callsign config; dest := dest config;
     path := path config; output := output config; info := info config;
     iq_sf := iq_sf config; frequency := frequency config;
     sampleRate := sampleRate config; amplifier := amplifier config;
     txvga_gain := z |}.

(** The built-in configuration. *)
Definition set_defaults : Config :=
  {| debug := false;
     callsign := "KD9WPR"%string;
     dest := "APRS"%string;
     path := "WIDE1-1,WIDE2-1"%string;
     output := "pkt8.s8"%string;
     info := "Hello from default config!"%string;
     iq_sf := IQ_S8;
     frequency := F64.of_Z 144390000;
     sampleRate := F64.of_Z 2000000;
     amplifier := 1;
     txvga_gain := 40 |}.

(** A section or key name in lower case. *)
Definition lower (s : list ascii) : String.string :=
  String.string_of_list_ascii (map tolower s).

Section ConfigFile.

Context {clib : CLib}.

(** One [key = value] pair in a section.  The two [int] fields are assigned
    from a [double]: the conversion is undefined when the value does not fit. *)
Definition set_value (config : Config) (section key val : list ascii)
  : option Config :=
  let lowerSec := lower section in
  let lowerKey := lower key in
  let v := String.string_of_list_ascii val in
  if String.eqb lowerSec "main"%string then
    if String.eqb lowerKey "debug"%string then
      Some (with_debug (String.eqb v "true"%string || String.eqb v "1"%string)
                       config)
    else if String.eqb lowerKey "callsign"%string then
      Some (with_callsign v config)
    else if String.eqb lowerKey "dest"%string then
      Some (with_dest v config)
    else if String.eqb lowerKey "path"%string then
      Some (with_path v config)
    else if String.eqb lowerKey "output"%string then
      Some (with_output v config)
    else if String.eqb lowerKey "info"%string then
      Some (with_info v config)
    else if String.eqb lowerKey "sample_format"%string then
      if String.eqb v "s8"%string then Some (with_iq_sf IQ_S8 config)
      else if String.eqb v "f32"%string then Some (with_iq_sf IQ_F32 config)
      else if String.eqb v "pcm"%string then Some (with_iq_sf PCM_F32 config)
      else Some config
    else Some config
  else if String.eqb lowerSec "hackrf"%string then
    if String.eqb lowerKey "frequency"%string then
      Some (with_frequency (strtod (c_chars val)) config)
    else if String.eqb lowerKey "samplerate"%string
            || String.eqb lowerKey "sample_rate"%string then
      Some (with_sampleRate (strtod (c_chars val)) config)
    else if String.eqb lowerKey "amplifier"%string then
      z <- F64_to_int (strtod (c_chars val)) ;;
      Some (with_amplifier z config)
    else if String.eqb lowerKey "txvga_gain"%string then
      z <- F64_to_int (strtod (c_chars val)) ;;
      Some (with_txvga_gain z config)
    else Some config
  else Some config.

(** The two comment removals of [load_config]: from the first '#', then
    from the first ';' of what is left. *)
Definition strip_comments (line : list ascii) : list ascii :=
  let line :=
    match find "#"%char line with
    | Some commentPos => firstn commentPos line
    | None => line
    end in
  match find ";"%char line with
  | Some commentPos => firstn commentPos line
  | None => line
  end.

(** The body of the [while] loop of [load_config] on one line, on the
    configuration and the current section. *)
Definition load_line (st : Config * list ascii) (line : list ascii)
  : option (Config * list ascii) :=
  let '(config, currentSection) := st in
  let line := trim (strip_comments line) in
  match line with
  | [] => Some st
  | front :: _ =>
      if Ascii.eqb front "["%char && Ascii.eqb (last line front) "]"%char
      then Some (config, trim (substr 1 (length line - 2) line))
      else
        match find "="%char line with
        | None => Some st
        | Some eqPos =>
            let key := trim (substr 0 eqPos line) in
            let value := trim (skipn (eqPos + 1) line) in
            match key with
            | [] => Some st
            | _ :: _ =>
                config' <- set_value config currentSection key value ;;
                Some (config', currentSection)
            end
        end
  end.

Definition load_lines (lines : list (list ascii)) (st : Config * list ascii)
  : option (Config * list ascii) :=
  fold_left (fun acc line => st <- acc ;; load_line st line) lines (Some st).

End ConfigFile.

Definition newline : ascii := "010"%char.

(** The lines that successive calls of [std::getline] return: the text
    between newlines, and what follows the last newline if it is not empty. *)
Fixpoint getlines (text : list ascii) : list (list ascii) :=
  match text with
  | [] => []
  | c :: rest =>
      if Ascii.eqb c newline then [] :: getlines rest
      else match getlines rest with
           | [] => [[c]]
           | line :: lines => (c :: line) :: lines
           end
  end.

(** [load_config], on the contents of the file, [None] when it cannot be
    opened. *)
Definition load_config {clib : CLib} (file : option (list ascii))
  : option Config :=
  match file with
  | None => Some set_defaults
  | Some text =>
      st <- load_lines (getlines text)
              (set_defaults, String.list_ascii_of_string "main"%string) ;;
      Some (fst st)
  end.

(** What [print_config] sends to [std::cout]. *)
Definition print_config {clib : CLib} (config : Config) : list ascii :=
  let text (s : String.string) := String.list_ascii_of_string s in
  text "=== Loaded Configuration ==="%string ++ [newline] ++
  text "[main]"%string ++ [newline] ++
  text "  debug         = "%string
    ++ text (if debug config then "true" else "false")%string ++ [newline] ++
  text "  callsign      = "%string ++ text (callsign config) ++ [newline] ++
  text "  dest          = "%string ++ text (dest config) ++ [newline] ++
  text "  path          = "%string ++ text (path config) ++ [newline] ++
  text "  output        = "%string ++ text (output config) ++ [newline] ++
  text "  info          = "%string ++ text (info config) ++ [newline] ++
  text "  sample_format = "%string
    ++ text match iq_sf config with
            | IQ_S8 => "s8"
            | IQ_F32 => "f32"
            | PCM_F32 => "pcm"
            end%string ++ [newline] ++
  [newline] ++ text "[hackrf]"%string ++ [newline] ++
  text "  frequency  = "%string ++ put_double (frequency config) ++ [newline] ++
  text "  sampleRate = "%string ++ put_double (sampleRate config) ++ [newline] ++
  text "============================"%string ++ [newline] ++ [newline].

(** No comment character, no newline, no space at either end: a value that
    a line of the file can hold as it is. *)
Definition plain_char (c : ascii) : bool :=
  negb (Ascii.eqb c "#"%char) && negb (Ascii.eqb c ";"%char)
  && negb (Ascii.eqb c newline).

Definition clean (s : list ascii) : bool := trimmed s && forallb plain_char s.

(** A text with every newline preceded by a carriage return. *)
Definition crlf (text : list ascii) : list ascii :=
  flat_map (fun c => if Ascii.eqb c newline then ["013"%char; newline] else [c])
           text.

(** What is left of a line after the two comment removals: the characters
    before the first '#' or ';'. *)
Fixpoint before_comment (line : list ascii) : list ascii :=
  match line with
  | [] => []
  | c :: rest =>
      if Ascii.eqb c "#"%char || Ascii.eqb c ";"%char then []
      else c :: before_comment rest
  end.

Definition no_comment (c : ascii) : bool :=
  negb (Ascii.eqb c "#"%char) && negb (Ascii.eqb c ";"%char).

Definition is_comment (s : list ascii) : bool :=
  match s with
  | [] => true
  | c :: _ => Ascii.eqb c "#"%char || Ascii.eqb c ";"%char
  end.


(** An instance of the two library functions, exact on the whole numbers of
    at most six digits: [strtod] reads a run of decimal digits, and a
    [double] that is such a number is printed as its digits. *)
Fixpoint digits_value (acc : Z) (s : list ascii) : Z :=
  match s with
  | [] => acc
  | c :: rest =>
      let n := Z.of_nat (nat_of_ascii c) in
      if (48 <=? n) && (n <=? 57) then digits_value (10 * acc + (n - 48)) rest
      else acc
  end.

#[local] Instance clib_digits : CLib := {|
  strtod := fun s => F64.of_Z (digits_value 0 s);
  put_double := fun x =>
    match F32.trunc x with
    | Some z =>
        String.list_ascii_of_string
          (DecimalString.NilZero.string_of_int (Z.to_int z))
    | None => String.list_ascii_of_string "nan"%string
    end
|}.

(** A configuration as a user would set it for a test transmission. *)
Definition bench_config : Config :=
  {| debug := true;
     callsign := "N0CALL-7"%string;
     dest := "APRS"%string;
     path := ""%string;
     output := "out/test.s8"%string;
     info := "Test = 1, 2, 3"%string;
     iq_sf := IQ_F32;
     frequency := F64.of_Z 144800;
     sampleRate := F64.of_Z 48000;
     amplifier := 0;
     txvga_gain := 20 |}.

(** The string fields of a loaded configuration are the built-in ones or
    clean. *)
Definition clean_or_default (f : Config -> String.string) (config : Config)
  : Prop :=
  f config = f set_defaults \/
  clean (String.list_ascii_of_string (f config)) = true.

Definition all_clean_or_default (config : Config) : Prop :=
  clean_or_default callsign config /\ clean_or_default dest config /\
  clean_or_default path config /\ clean_or_default output config /\
  clean_or_default info config.


(** The lines of what [print_config] prints. *)
Definition printed_lines {clib : CLib} (config : Config)
  : list (list ascii) :=
  let text (s : String.string) := String.list_ascii_of_string s in
  [ text "=== Loaded Configuration ==="%string;
    text "[main]"%string;
    text "  debug         = "%string
      ++ text (if debug config then "true" else "false")%string;
    text "  callsign      = "%string ++ text (callsign config);
    text "  dest          = "%string ++ text (dest config);
    text "  path          = "%string ++ text (path config);
    text "  output        = "%string ++ text (output config);
    text "  info          = "%string ++ text (info config);
    text "  sample_format = "%string
      ++ text match iq_sf config with
              | IQ_S8 => "s8"
              | IQ_F32 => "f32"
              | PCM_F32 => "pcm"
              end%string;
    [];
    text "[hackrf]"%string;
    text "  frequency  = "%string ++ put_double (frequency config);
    text "  sampleRate = "%string ++ put_double (sampleRate config);
    text "============================"%string;
    [] ].

(** The configuration read back from what [print_config] printed. *)
Definition reloaded {clib : CLib} (config : Config) : Config :=
  {| debug := debug config;
     callsign := callsign config;
     dest := dest config;
     path := path config;
     output := output config;
     info := info config;
     iq_sf := iq_sf config;
     frequency := strtod (c_chars (put_double (frequency config)));
     sampleRate := strtod (c_chars (put_double (sampleRate config)));
     amplifier := 1;
     txvga_gain := 40 |}.

(** A line that [load_config] takes for a section header. *)
Definition header_line (line : list ascii) : bool :=
  match trim (strip_comments line) with
  | [] => false
  | front :: rest =>
      Ascii.eqb front "["%char
      && Ascii.eqb (last (front :: rest) front) "]"%char
  end.

(** A section whose pairs [set_value] looks at. *)
Definition known_section (section : list ascii) : bool :=
  String.eqb (lower section) "main"%string
  || String.eqb (lower section) "hackrf"%string.

(** The pairs of the section [aprs] of the configuration file that comes
    with the program. *)
Definition aprs_section : list (list ascii) :=
  map String.list_ascii_of_string
      [ "# APRS-specific parameters";
        "callsign = KD9WPR";
        "destination = APRS";
        "path = WIDE1-1,WIDE2-1";
        "" ]%string.

(** ** [transmit.cpp] *)

(** A stream open for reading: the bytes not read yet, the end-of-file
    indicator, and whether the device fails on the next byte it is asked
    for, after which nothing more can be read. *)
Record FILE : Type := {
  unread : list Z;
  eof : bool;
  broken_after : option nat
}.

(** [fread(ptr, 1, n, fp)]: the bytes stored and the stream afterwards.
    Fewer than [n] bytes come back at the end of the file, which sets the
    end-of-file indicator, or when the device fails, which does not. *)
Definition fread (n : nat) (fp : FILE) : list Z * FILE :=
  let avail := Nat.min n (length (unread fp)) in
  match broken_after fp with
  | Some k =>
      if Nat.ltb k avail then
        (firstn k (unread fp),
         {| unread := skipn k (unread fp); eof := eof fp;
            broken_after := Some O |})
      else
        (firstn n (unread fp),
         {| unread := skipn n (unread fp);
            eof := eof fp || Nat.ltb (length (unread fp)) n;
            broken_after := Some (k - avail)%nat |})
  | None =>
      (firstn n (unread fp),
       {| unread := skipn n (unread fp);
          eof := eof fp || Nat.ltb (length (unread fp)) n;
          broken_after := None |})
  end.

(** One call of the transmit callback on a transfer whose buffer holds
    [buffer]: the buffer afterwards, the value returned and the stream
    afterwards.  [None] stands for a transfer without context or without
    file. *)
Definition tx_callback (ctx : option FILE) (buffer : list Z)
  : list Z * Z * option FILE :=
  let buffer_length := length buffer in
  match ctx with
  | None => (repeat 0 buffer_length, 0, None)
  | Some fp =>
      let '(data, fp') := fread buffer_length fp in
      let nread := length data in
      if Nat.ltb nread buffer_length then
        if eof fp' then
          (data ++ repeat 0 (buffer_length - nread), -1, Some fp')
        else (data ++ skipn nread buffer, -1, Some fp')
      else (data ++ skipn nread buffer, 0, Some fp')
  end.

(** The driver calling back once for each of the buffers it owns, in turn:
    the buffers as filled, each with the value returned for it. *)
Fixpoint callbacks (ctx : option FILE) (buffers : list (list Z))
  : list (list Z * Z) :=
  match buffers with
  | [] => []
  | buffer :: rest =>
      let '(filled, code, ctx') := tx_callback ctx buffer in
      (filled, code) :: callbacks ctx' rest
  end.

(** A file just opened for reading on a device that does not fail. *)
Definition opened (data : list Z) : FILE :=
  {| unread := data; eof := false; broken_after := None |}.

(** *** [transmit_s8_iq_file] *)

(** What the HackRF library and the file system answer during one call:
    whether each step succeeds, and how many times the driver reports that
    it is still streaming. *)
Record hackrf : Type := {
  init_ok : bool;
  open_ok : bool;
  set_freq_ok : bool;
  set_sample_rate_ok : bool;
  set_amp_enable_ok : bool;
  set_txvga_gain_ok : bool;
  fopen_rb_ok : bool;
  start_tx_ok : bool;
  streaming_polls : nat;
  stop_tx_ok : bool
}.

(** The calls [transmit_s8_iq_file] makes, with the values it passes. *)
Inductive call : Type :=
| hackrf_init
| hackrf_open
| hackrf_set_freq (freq_hz : Z)
| hackrf_set_sample_rate (sample_rate_hz : F64.t)
| hackrf_set_amp_enable (value : Z)
| hackrf_set_txvga_gain (value : Z)
| fopen (filename : String.string)
| hackrf_start_tx
| hackrf_is_streaming
| usleep (usec : Z)
| hackrf_stop_tx
| fclose
| hackrf_close
| hackrf_exit.

(** Conversion of a [double] to [uint64_t]: the truncated value when the
    type can represent it, undefined otherwise. *)
Definition F64_to_uint64 (x : F64.t) : option Z :=
  z <- F32.trunc x ;;
  if (0 <=? z) && (z <? 2 ^ 64) then Some z else None.

(** The loop that waits for the end of the stream. *)
Definition wait_streaming (polls : nat) : list call :=
  concat (repeat [hackrf_is_streaming; usleep 50000] polls)
  ++ [hackrf_is_streaming].

(** The value returned and the calls made, in order. *)
Definition transmit_s8_iq_file (env : hackrf) (filename : String.string)
  (config : Config) : option (bool * list call) :=
  let log := [hackrf_init] in
  if negb (init_ok env) then Some (false, log) else
  let log := log ++ [hackrf_open] in
  if negb (open_ok env) then Some (false, log ++ [hackrf_exit]) else
  freq_hz <- F64_to_uint64 (frequency config) ;;
  let log := log ++ [hackrf_set_freq freq_hz] in
  if negb (set_freq_ok env)
  then Some (false, log ++ [hackrf_close; hackrf_exit]) else
  let log := log ++ [hackrf_set_sample_rate (sampleRate config)] in
  if negb (set_sample_rate_ok env)
  then Some (false, log ++ [hackrf_close; hackrf_exit]) else
  let log := log ++ [hackrf_set_amp_enable (amplifier config mod 2 ^ 8)] in
  if negb (set_amp_enable_ok env)
  then Some (false, log ++ [hackrf_close; hackrf_exit]) else
  let log := log ++ [hackrf_set_txvga_gain (txvga_gain config mod 2 ^ 32)] in
  if negb (set_txvga_gain_ok env)
  then Some (false, log ++ [hackrf_close; hackrf_exit]) else
  let log := log ++ [fopen filename] in
  if negb (fopen_rb_ok env)
  then Some (false, log ++ [hackrf_close; hackrf_exit]) else
  let log := log ++ [hackrf_start_tx] in
  if negb (start_tx_ok env)
  then Some (false, log ++ [fclose; hackrf_close; hackrf_exit]) else
  let log := log ++ wait_streaming (streaming_polls env) ++ [hackrf_stop_tx] in
  if negb (stop_tx_ok env)
  then Some (false, log ++ [fclose; hackrf_close; hackrf_exit])
  else Some (true, log ++ [fclose; hackrf_close; hackrf_exit]).

(** How many calls of a kind a log holds. *)
Definition calls (kind : call -> bool) (log : list call) : nat :=
  length (filter kind log).

Definition is_exit (c : call) : bool :=
  match c with hackrf_exit => true | _ => false end.
Definition is_close (c : call) : bool :=
  match c with hackrf_close => true | _ => false end.
Definition is_fclose (c : call) : bool :=
  match c with fclose => true | _ => false end.
Definition is_fopen (c : call) : bool :=
  match c with fopen _ => true | _ => false end.
Definition is_start_tx (c : call) : bool :=
  match c with hackrf_start_tx => true | _ => false end.
Definition is_stop_tx (c : call) : bool :=
  match c with hackrf_stop_tx => true | _ => false end.

Definition b2n (b : bool) : nat := if b then 1%nat else 0%nat.

(** Every step succeeds. *)
Definition all_ok (env : hackrf) : bool :=
  init_ok env && open_ok env && set_freq_ok env && set_sample_rate_ok env
  && set_amp_enable_ok env && set_txvga_gain_ok env && fopen_rb_ok env
  && start_tx_ok env && stop_tx_ok env.

(** The device is set up: every step before the file is opened succeeds. *)
Definition device_ready (env : hackrf) : bool :=
  init_ok env && open_ok env && set_freq_ok env && set_sample_rate_ok env
  && set_amp_enable_ok env && set_txvga_gain_ok env.

(** A run in which everything succeeds, the driver streaming for three
    polls. *)
Definition hackrf_fine : hackrf :=
  {| init_ok := true; open_ok := true; set_freq_ok := true;
     set_sample_rate_ok := true; set_amp_enable_ok := true;
     set_txvga_gain_ok := true; fopen_rb_ok := true; start_tx_ok := true;
     streaming_polls := 3; stop_tx_ok := true |}.

(** ** [interconnect.cpp]: [request_json] *)

(** The characters the two trimming loops of [request_json] remove. *)
Definition blank (c : ascii) : bool :=
  Ascii.eqb c " "%char || Ascii.eqb c "013"%char || Ascii.eqb c "010"%char.

Fixpoint erase_front (s : list ascii) : list ascii :=
  match s with
  | [] => []
  | c :: rest => if blank c then erase_front rest else s
  end.

Definition pop_back (s : list ascii) : list ascii :=
  rev (erase_front (rev s)).

Definition trimmed_line (s : list ascii) : list ascii :=
  pop_back (erase_front s).

(** The test that ends the loop: not empty, '{' in front, '}' at the back. *)
Definition looks_like_json (s : list ascii) : bool :=
  match s with
  | [] => false
  | front :: _ => Ascii.eqb front "{"%char && Ascii.eqb (last s front) "}"%char
  end.

(** The [while] loop of [request_json] with [remaining] attempts left;
    [bus i] is what call number [i] of [interconnect_bus] returns.  The
    result is the message and the number of calls made. *)
Fixpoint request_loop (remaining attempts : nat) (bus : nat -> list ascii)
  (jsonMsg : list ascii) : list ascii * nat :=
  match remaining with
  | O => (jsonMsg, attempts)
  | S remaining' =>
      let jsonMsg := trimmed_line (bus attempts) in
      if looks_like_json jsonMsg then (jsonMsg, S attempts)
      else request_loop remaining' (S attempts) bus jsonMsg
  end.

Definition maxAttempts : nat := 50.

(** The string returned, the number of lines read from the bus, and whether
    "ACK" was written; [write_ok] tells whether "SEND" could be written. *)
Definition request_json (write_ok : bool) (bus : nat -> list ascii)
  : list ascii * nat * bool :=
  if negb write_ok then ([], O, false)
  else
    let '(jsonMsg, reads) := request_loop maxAttempts 0 bus [] in
    (jsonMsg, reads, true).

(** ** The main program *)

(** What [getopt] hands to the loop of [override_config_from_args]: the
    option letter, '?' for anything it does not accept, and the argument of
    the option. *)
Definition option_event : Type := (ascii * String.string)%type.

(** A call that may end the process by [exit]. *)
Inductive exits (A : Type) : Type :=
| Returns (a : A)
| Exit (status : Z).
Arguments Returns {A} a.
Arguments Exit {A} status.

Fixpoint override_options (events : list option_event) (config : Config)
  : exits Config :=
  match events with
  | [] => Returns config
  | (opt, optarg) :: rest =>
      if Ascii.eqb opt "c"%char then
        override_options rest (with_callsign optarg config)
      else if Ascii.eqb opt "d"%char then
        override_options rest (with_dest optarg config)
      else if Ascii.eqb opt "p"%char then
        override_options rest (with_path optarg config)
      else if Ascii.eqb opt "o"%char then
        override_options rest (with_output optarg config)
      else if Ascii.eqb opt "f"%char then
        if String.eqb optarg "s8"%string then
          override_options rest (with_iq_sf IQ_S8 config)
        else if String.eqb optarg "f32"%string then
          override_options rest (with_iq_sf IQ_F32 config)
        else if String.eqb optarg "pcm"%string then
          override_options rest (with_iq_sf PCM_F32 config)
        else Exit 1
      else if Ascii.eqb opt "v"%char then
        override_options rest (with_debug true config)
      else Exit 1
  end.

(** [override_config_from_args]: the options [getopt] finds, then the first
    remaining argument, if there is one, as the message. *)
Definition override_config_from_args (events : list option_event)
  (operand : option String.string) (config : Config) : exits Config :=
  match override_options events config with
  | Returns config =>
      match operand with
      | Some message => Returns (with_info message config)
      | None => Returns config
      end
  | Exit status => Exit status
  end.

(** What the JSON library makes of a message in one cycle of [main]: the
    sensor record is filled, or the message has no "timestamp", or one of
    the library calls throws. *)
Inductive json_result : Type := Populated | NoTimestamp | Thrown.

Definition populated (r : json_result) : bool :=
  match r with Populated => true | _ => false end.

Section Main.

Context {dsp : Dsp} {ax25 : Ax25}.
Variable json : list ascii -> json_result.

(** The first half of a cycle: the configuration after the message from
    the bus has been looked at. *)
Definition after_poll (jsonMsg : list ascii) (config : Config) : Config :=
  match jsonMsg with
  | _ :: _ =>
      match json jsonMsg with
      | Populated => config
      | NoTimestamp => with_info ""%string config
      | Thrown => with_info ""%string config
      end
  | [] => with_info ""%string config
  end.

(** The cycles of the loop of [main], one for each message the bus
    delivers, with whether the output file can be created in that cycle:
    the configuration [run_aprs] is called with and what comes of the call.
    An exception of [run_aprs] is not caught: it ends the program. *)
Fixpoint main_loop (polls : list (list ascii * bool)) (config : Config)
  : list (Config * outcome (Z * list Z)) :=
  match polls with
  | [] => []
  | (jsonMsg, fopen_ok) :: rest =>
      let config := after_poll jsonMsg config in
      let result := run_aprs fopen_ok config in
      (config, result)
      :: match result with
         | Ret _ => main_loop rest config
         | _ => []
         end
  end.

End Main.

(** The first [n] polls all gave a populated sensor record. *)
Definition all_populated (json : list ascii -> json_result)
  (polls : list (list ascii * bool)) (n : nat) : bool :=
  forallb (fun poll => match fst poll with
                       | [] => false
                       | _ :: _ => populated (json (fst poll))
                       end)
          (firstn n polls).

(** A stand-in for the JSON library in examples: a message in braces is
    taken to hold a complete record, anything else to make the parser
    throw. *)
Definition json_braces (msg : list ascii) : json_result :=
  if looks_like_json msg then Populated else Thrown.

(** ** [interconnect.cpp]: [interconnect_bus] *)

(** The serial port as the program sees it: what each coming [read] would
    find, an empty list when nothing has arrived.  A [read] takes at most
    [count] bytes and leaves the rest for the next one. *)
Definition port : Type := list (list ascii).

Definition read (count : nat) (p : port) : list ascii * port :=
  match p with
  | [] => ([], [])
  | chunk :: rest =>
      match skipn count chunk with
      | [] => (chunk, rest)
      | c :: more => (firstn count chunk, (c :: more) :: rest)
      end
  end.

(** The loop of [interconnect_bus]; [buf] holds the [pos] bytes read so
    far.  Every pass that does not leave the loop adds a byte to [buf],
    which has room for 1023: [fuel] passes are enough when
    [fuel + length buf] is at least 1024. *)
Fixpoint bus_loop (fuel : nat) (p : port) (buf : list ascii)
  : option (list ascii * port) :=
  match fuel with
  | O => None
  | S fuel' =>
      let '(data, p') := read (1024 - length buf - 1) p in
      match data with
      | [] => Some ([], p')
      | _ :: _ =>
          let buf' := buf ++ data in
          match find newline (c_chars buf') with
          | Some lineLen => Some (firstn lineLen buf', p')
          | None => bus_loop fuel' p' buf'
          end
      end
  end.

(** The line returned and the port afterwards. *)
Definition interconnect_bus (p : port) : option (list ascii * port) :=
  bus_loop 1024 p [].

(** Neither a newline nor a zero byte. *)
Definition line_char (c : ascii) : bool :=
  negb (Ascii.eqb c newline) && negb (Ascii.eqb c NUL).

(** ** [interconnect.cpp]: [interconnect_handshake] *)

Fixpoint starts_with (needle s : list ascii) : bool :=
  match needle, s with
  | [], _ => true
  | _ :: _, [] => false
  | n :: needle', c :: s' => Ascii.eqb n c && starts_with needle' s'
  end.

(** [strstr(s, needle) != nullptr]. *)
Fixpoint strstr (s needle : list ascii) : bool :=
  starts_with needle s
  || match s with
     | [] => false
     | _ :: s' => strstr s' needle
     end.

(** What one [read] of the handshake loop makes of the bytes it got. *)
Definition acknowledged (data : list ascii) : bool :=
  match data with
  | [] => false
  | _ :: _ => strstr (c_chars data) (String.list_ascii_of_string "ACKHELLO"%string)
  end.

(** The loop that waits for the acknowledgement, with [remaining] attempts
    left: whether it was seen, and the port afterwards. *)
Fixpoint handshake_loop (remaining : nat) (p : port) : bool * port :=
  match remaining with
  | O => (false, p)
  | S remaining' =>
      let '(data, p') := read 127 p in
      if acknowledged data then (true, p')
      else handshake_loop remaining' p'
  end.

(** What the system answers to the calls before the loop. *)
Record serial : Type := {
  open_tty_ok : bool;
  configure_ok : bool;
  write_hello_ok : bool
}.

(** The result of the handshake: the descriptor returned, here the port it
    stands for, or [None] for -1; and whether the descriptor was opened and
    whether it was closed again. *)
Record handshake : Type := {
  fd : option port;
  was_opened : bool;
  was_closed : bool
}.

Definition interconnect_handshake (env : serial) (p : port) : handshake :=
  if negb (open_tty_ok env)
  then {| fd := None; was_opened := false; was_closed := false |}
  else if negb (configure_ok env)
  then {| fd := None; was_opened := true; was_closed := true |}
  else if negb (write_hello_ok env)
  then {| fd := None; was_opened := true; was_closed := true |}
  else
    let '(handshakeDone, p') := handshake_loop 50 p in
    if negb handshakeDone
    then {| fd := None; was_opened := true; was_closed := true |}
    else {| fd := Some p'; was_opened := true; was_closed := false |}.

(** What the first [n] reads of at most 127 bytes find in a port. *)
Fixpoint arrivals (n : nat) (p : port) : list (list ascii) :=
  match n with
  | O => []
  | S n' => let '(data, p') := read 127 p in data :: arrivals n' p'
  end.

(* ================================================================== *)
(** * Properties *)

(** ** Machine integers *)

Lemma in_range_spec w z :
  MachInt.in_range w z = true <-> - 2 ^ (w - 1) <= z < 2 ^ (w - 1).
Proof.
  unfold MachInt.in_range. rewrite andb_true_iff, Z.leb_le, Z.ltb_lt. tauto.
Qed.

Lemma wrap_id w z :
  0 < w -> - 2 ^ (w - 1) <= z < 2 ^ (w - 1) -> MachInt.wrap w z = z.
Proof.
  intros Hw Hz. unfold MachInt.wrap.
  assert (E : 2 ^ w = 2 * 2 ^ (w - 1)).
  { replace w with (Z.succ (w - 1)) at 1 by lia.
    rewrite Z.pow_succ_r by lia. reflexivity. }
  rewrite Z.mod_small by lia. lia.
Qed.

Lemma to_int_id z : 0 <= z <= MachInt.INT_MAX -> MachInt.to_int z = z.
Proof.
  intros Hz. unfold MachInt.to_int. apply wrap_id; [lia|].
  unfold MachInt.INT_MAX in Hz. simpl. lia.
Qed.

(** ** Indexed writes *)

Lemma upd_length {A : Type} (i : nat) (x : A) l : length (upd i x l) = length l.
Proof.
  revert i; induction l as [|y l IH]; intros [|i]; simpl; congruence.
Qed.

Lemma upd_app_r {A : Type} (l1 l2 : list A) i x :
  upd (length l1 + i) x (l1 ++ l2) = l1 ++ upd i x l2.
Proof.
  induction l1 as [|y l1 IH]; simpl; [reflexivity | now rewrite IH].
Qed.

(** ** binary32: rounding of a product and truncation *)

Lemma digits2_pos_size p : digits2_pos p = Pos.size p.
Proof. induction p; simpl; congruence. Qed.

Lemma Zdigits2_bounds p :
  2 ^ (Zdigits2 (Zpos p) - 1) <= Zpos p < 2 ^ Zdigits2 (Zpos p).
Proof.
  unfold Zdigits2. rewrite digits2_pos_size.
  pose proof (Pos.size_gt p) as Hgt. pose proof (Pos.size_le p) as Hle.
  apply Pos2Z.pos_lt_pos in Hgt. apply Pos2Z.pos_le_pos in Hle.
  rewrite Pos2Z.inj_pow in Hgt, Hle.
  change (Z.pos p~0) with (2 * Z.pos p) in Hle.
  split; [|exact Hgt].
  assert (0 < Z.pos (Pos.size p)) by lia.
  replace (Z.pos (Pos.size p)) with (Z.succ (Z.pos (Pos.size p) - 1)) in Hle by lia.
  rewrite Z.pow_succ_r in Hle by lia. lia.
Qed.

Lemma shr_1_m mrs : 0 <= shr_m mrs -> shr_m (shr_1 mrs) = shr_m mrs / 2.
Proof.
  destruct mrs as [m r s]. simpl. intros Hm.
  destruct m as [|p|p]; [reflexivity | | lia].
  destruct p as [p|p|]; simpl.
  - rewrite Pos2Z.inj_xI. apply Z.div_unique with (r := 1); lia.
  - rewrite Pos2Z.inj_xO. apply Z.div_unique with (r := 0); lia.
  - reflexivity.
Qed.

Lemma iter_shr_1_m p : forall mrs,
  0 <= shr_m mrs ->
  shr_m (iter_pos shr_1 p mrs) = shr_m mrs / 2 ^ Zpos p.
Proof.
  assert (Hnn : forall mrs, 0 <= shr_m mrs -> 0 <= shr_m (shr_1 mrs)).
  { intros mrs H. rewrite shr_1_m by exact H. apply Z.div_pos; lia. }
  induction p as [p IH|p IH|]; intros mrs Hm; simpl iter_pos.
  - rewrite IH, IH, shr_1_m; auto.
    + assert (0 < 2 ^ Z.pos p) by (apply Z.pow_pos_nonneg; lia).
      rewrite !Z.div_div by lia. f_equal.
      change (Z.pos p~1) with (2 * Z.pos p + 1).
      replace (2 * Z.pos p + 1) with (1 + Z.pos p + Z.pos p) by lia.
      rewrite !Z.pow_add_r by lia. ring.
    + rewrite IH by auto. apply Z.div_pos; [auto | apply Z.pow_pos_nonneg; lia].
  - rewrite IH, IH; auto.
    + assert (0 < 2 ^ Z.pos p) by (apply Z.pow_pos_nonneg; lia).
      rewrite Z.div_div by lia. f_equal.
      change (Z.pos p~0) with (2 * Z.pos p).
      replace (2 * Z.pos p) with (Z.pos p + Z.pos p) by lia. rewrite Z.pow_add_r by lia. ring.
    + rewrite IH by auto. apply Z.div_pos; [auto | apply Z.pow_pos_nonneg; lia].
  - rewrite shr_1_m by exact Hm. reflexivity.
Qed.

Lemma shr_record_of_loc_m m l : shr_m (shr_record_of_loc m l) = m.
Proof. destruct l as [|[]]; reflexivity. Qed.

Lemma round_nearest_even_bounds m l :
  m <= round_nearest_even m l <= m + 1.
Proof. destruct l as [|[]]; simpl; try destruct (Z.even m); lia. Qed.

(** Shifting a mantissa to its binary32 exponent keeps a bound of the form
    [K * 2^(-e)] on the value. *)
Lemma shr_fexp_bound K m e l :
  0 <= m -> e <= -17 -> m < 128 * 2 ^ (- e) ->
  let '(mrs, e') := shr_fexp F32.prec F32.emax m e l in
  0 <= shr_m mrs /\ e' <= -17 /\
  (m <= K * 2 ^ (- e) -> shr_m mrs <= K * 2 ^ (- e')) /\
  (m < K * 2 ^ (- e) -> shr_m mrs < K * 2 ^ (- e')).
Proof.
  intros Hm He Hlt. unfold shr_fexp, shr.
  set (d := Zdigits2 m).
  assert (Hd : d + e <= 7).
  { destruct m as [|p|p]; [subst d; simpl; lia | | lia].
    pose proof (Zdigits2_bounds p) as [Hlo _]. fold d in Hlo.
    assert (Hp : 2 ^ (d - 1) < 2 ^ (7 - e)).
    { eapply Z.le_lt_trans; [exact Hlo|].
      replace (7 - e) with (7 + - e) by lia.
      rewrite Z.pow_add_r by lia. exact Hlt. }
    apply Z.pow_lt_mono_r_iff in Hp; lia. }
  assert (Hf : fexp F32.prec F32.emax (d + e) <= -17).
  { unfold fexp, emin, F32.prec, F32.emax. lia. }
  destruct (fexp F32.prec F32.emax (d + e) - e) as [|n|n] eqn:En;
    try (rewrite shr_record_of_loc_m; repeat split; auto; lia).
  rewrite iter_shr_1_m by (rewrite shr_record_of_loc_m; exact Hm).
  rewrite shr_record_of_loc_m.
  set (e' := e + Z.pos n). assert (He' : e' <= -17) by lia.
  assert (Hpow : 2 ^ (- e) = 2 ^ Z.pos n * 2 ^ (- e')).
  { rewrite <- Z.pow_add_r by lia. f_equal. lia. }
  assert (Hn : 0 < 2 ^ Z.pos n) by (apply Z.pow_pos_nonneg; lia).
  repeat split.
  - apply Z.div_pos; lia.
  - exact He'.
  - intros H. apply Z.div_le_upper_bound; [exact Hn|]. rewrite Hpow in H. lia.
  - intros H. apply Z.div_lt_upper_bound; [exact Hn|]. rewrite Hpow in H. lia.
Qed.

(** A product of magnitude at most 127 rounds to a float that truncates into
    [-127, 127]. *)
Lemma binary_round_aux_bound s M E :
  E <= -17 -> Z.pos M <= 127 * 2 ^ (- E) ->
  exists z, F32.trunc (binary_round_aux F32.prec F32.emax s (Z.pos M) E loc_Exact) = Some z
            /\ -127 <= z <= 127.
Proof.
  intros HE HM. unfold binary_round_aux.
  assert (Hpow : forall e, e <= -17 -> 1 < 2 ^ (- e)).
  { intros e He. apply Z.pow_gt_1; lia. }
  pose proof (shr_fexp_bound 127 (Z.pos M) E loc_Exact) as H1.
  destruct (shr_fexp F32.prec F32.emax (Z.pos M) E loc_Exact) as [mrs1 e1].
  destruct H1 as (Hm1 & He1 & Hle1 & _); [lia | exact HE | specialize (Hpow E HE); lia |].
  specialize (Hle1 HM).
  set (m1r := round_nearest_even (shr_m mrs1) (loc_of_shr_record mrs1)).
  pose proof (round_nearest_even_bounds (shr_m mrs1) (loc_of_shr_record mrs1)) as Hr.
  fold m1r in Hr.
  assert (Hlt : m1r < 128 * 2 ^ (- e1)) by (specialize (Hpow e1 He1); lia).
  pose proof (shr_fexp_bound 128 m1r e1 loc_Exact) as H2.
  destruct (shr_fexp F32.prec F32.emax m1r e1 loc_Exact) as [mrs2 e2].
  destruct H2 as (Hm2 & He2 & _ & Hlt2); [lia | exact He1 | exact Hlt |].
  specialize (Hlt2 Hlt).
  destruct (shr_m mrs2) as [|m2|m2] eqn:Em2.
  - exists 0. simpl. split; [reflexivity | lia].
  - replace (e2 <=? F32.emax - F32.prec) with true
      by (symmetry; apply Z.leb_le; unfold F32.emax, F32.prec; lia).
    assert (Hq : 0 <= Z.shiftl (Z.pos m2) e2 <= 127).
    { rewrite Z.shiftl_div_pow2 by lia.
      assert (0 < 2 ^ (- e2)) by (apply Z.pow_pos_nonneg; lia).
      split; [apply Z.div_pos; lia|].
      apply Z.lt_succ_r. apply Z.div_lt_upper_bound; lia. }
    exists (cond_Zopp s (Z.shiftl (Z.pos m2) e2)).
    split; [reflexivity|]. destruct s; simpl; lia.
  - lia.
Qed.

Lemma compare_cont_le m q :
  match Pos.compare_cont Eq m q with Gt => false | _ => true end = true ->
  Z.pos m <= Z.pos q.
Proof.
  rewrite Pos.compare_cont_spec. unfold Pos.switch_Eq.
  destruct (Pos.compare_spec m q) as [Hm|Hm|Hm]; intros H.
  - subst m; apply Z.le_refl.
  - lia.
  - discriminate.
Qed.

Lemma SFleb_one_inv m e :
  SFleb (S754_finite false m e) F32.one = true ->
  e < -23 \/ (e = -23 /\ Z.pos m <= 8388608).
Proof.
  unfold SFleb, SFcompare, F32.one.
  destruct (Z.compare_spec e (-23)) as [He|He|He]; intros H.
  - right. split; [exact He|]. apply compare_cont_le.
    destruct (Pos.compare_cont Eq m 8388608);
      [reflexivity | reflexivity | discriminate].
  - left. exact He.
  - discriminate.
Qed.

Lemma canonical_digits m e :
  canonical_mantissa F32.prec F32.emax m e = true ->
  Z.pos (digits2_pos m) <= 24.
Proof.
  unfold canonical_mantissa, fexp, emin, F32.prec, F32.emax.
  intros H. apply Z.eqb_eq in H. lia.
Qed.

Lemma unit_amplitude_inv x :
  unit_amplitude x = true ->
  (exists s, x = S754_zero s) \/
  (exists s m e, x = S754_finite s m e /\ e <= -23 /\ Z.pos m <= 2 ^ (- e)).
Proof.
  unfold unit_amplitude, F32.valid, F32.leb, F32.abs.
  intros H. apply andb_true_iff in H as [Hv Hle].
  destruct x as [s|s| |s m e]; simpl in Hv, Hle; try discriminate.
  - left. now exists s.
  - right. exists s, m, e. split; [reflexivity|].
    apply andb_true_iff in Hv as [Hc _]. apply canonical_digits in Hc.
    apply SFleb_one_inv in Hle.
    pose proof (Zdigits2_bounds m) as [_ Hhi]. unfold Zdigits2 in Hhi.
    destruct Hle as [He | [He Hm]].
    + split; [lia|].
      assert (Hp : 2 ^ Z.pos (digits2_pos m) <= 2 ^ (- e))
        by (apply Z.pow_le_mono_r; lia).
      apply Z.lt_le_incl. eapply Z.lt_le_trans; [exact Hhi | exact Hp].
    + subst e. split; [lia | exact Hm].
Qed.

Lemma unit_amplitude_scale x :
  unit_amplitude x = true ->
  exists z, scale_s8 x = Some z /\ -127 <= z <= 127.
Proof.
  intros H. destruct (unit_amplitude_inv x H) as [[s ->] | (s & m & e & -> & He & Hm)].
  - exists 0. split; [reflexivity | lia].
  - unfold scale_s8, F32.to_int8, F32.mul, SCHAR_MAX_f, SFmul.
    destruct (binary_round_aux_bound (xorb s false) (m * 16646144) (e + -17))
      as (z & Hz & Hr).
    + lia.
    + rewrite Pos2Z.inj_mul.
      replace (- (e + -17)) with (- e + 17) by lia.
      rewrite Z.pow_add_r by lia. change (2 ^ 17) with 131072. nia.
    + exists z. rewrite Hz. simpl.
      replace (MachInt.in_range 8 z) with true; [split; [reflexivity | exact Hr]|].
      symmetry. apply in_range_spec. simpl. lia.
Qed.

(** ** The sample sink *)

Lemma scale_s8_Some x a :
  scale_s8 x = Some a ->
  -128 <= a <= 127 /\ quantize_spec x = Some a.
Proof.
  unfold scale_s8, quantize_spec, F32.to_int8.
  destruct (F32.trunc (F32.mul x SCHAR_MAX_f)) as [z|]; simpl; [|discriminate].
  destruct (MachInt.in_range 8 z) eqn:Hr; [|discriminate].
  intros [= <-]. apply in_range_spec in Hr. simpl in Hr.
  split; [lia|]. f_equal.
  unfold clamp, MachInt.SCHAR_MIN, MachInt.SCHAR_MAX. lia.
Qed.

Lemma s8_representable_inv c :
  s8_representable c = true ->
  exists a b, scale_s8 (real c) = Some a /\ scale_s8 (imag c) = Some b.
Proof.
  unfold s8_representable.
  destruct (scale_s8 (real c)) as [a|]; [|discriminate].
  destruct (scale_s8 (imag c)) as [b|]; [|discriminate].
  intros _. now exists a, b.
Qed.

(** The two indices of sample [i] are [int] values as long as [i] is below
    [2^30]; from there on [i * 2] overflows. *)
Lemma int_value_index i :
  Z.of_nat i < 2 ^ 30 ->
  MachInt.int_value (Z.of_nat i * 2) = Some (Z.of_nat i * 2) /\
  MachInt.int_value (Z.of_nat i * 2 + 1) = Some (Z.of_nat i * 2 + 1).
Proof.
  intros Hi. unfold MachInt.int_value.
  assert (H1 : MachInt.in_range 32 (Z.of_nat i * 2) = true)
    by (apply in_range_spec; change (2 ^ (32 - 1)) with (2 * 2 ^ 30); lia).
  assert (H2 : MachInt.in_range 32 (Z.of_nat i * 2 + 1) = true)
    by (apply in_range_spec; change (2 ^ (32 - 1)) with (2 * 2 ^ 30); lia).
  now rewrite H1, H2.
Qed.

Lemma int_value_inv z v : MachInt.int_value z = Some v -> v = z /\ z < 2 ^ 31.
Proof.
  unfold MachInt.int_value.
  destruct (MachInt.in_range 32 z) eqn:E; [|discriminate].
  intros [= <-]. apply in_range_spec in E.
  change (2 ^ (32 - 1)) with (2 ^ 31) in E. split; [reflexivity | lia].
Qed.

(** The indexed loop fills the zero vector from the left with the interleaved
    pairs. *)
Lemma f32_to_s8_loop_spec input : forall i pre,
  forallb s8_representable input = true ->
  length pre = (i * 2)%nat ->
  Z.of_nat (i + length input) <= 2 ^ 30 ->
  exists out,
    iq_s8_spec input = Some out /\
    f32_to_s8_loop input i (pre ++ repeat 0 (length input * 2)) = Some (pre ++ out) /\
    length out = (length input * 2)%nat /\
    Forall (fun z => -128 <= z <= 127) out.
Proof.
  induction input as [|c rest IH]; intros i pre Hrep Hlen Hmax.
  - exists []. simpl. repeat split; auto.
  - simpl in Hrep. apply andb_true_iff in Hrep as [Hc Hrest].
    destruct (s8_representable_inv c Hc) as (a & b & Ha & Hb).
    destruct (scale_s8_Some _ _ Ha) as [Hra Hqa].
    destruct (scale_s8_Some _ _ Hb) as [Hrb Hqb].
    cbn [length] in Hmax.
    destruct (int_value_index i ltac:(lia)) as [Heven Hodd].
    destruct (IH (S i) (pre ++ [a; b]) Hrest) as (out & Hspec & Hloop & Hlo & Hall).
    { rewrite length_app, Hlen. simpl. lia. }
    { lia. }
    exists (a :: b :: out). simpl iq_s8_spec. cbn [f32_to_s8_loop].
    rewrite Hqa, Hqb, Hspec, Heven, Ha. cbn [bind].
    rewrite Hodd, Hb. cbn [bind].
    repeat split.
    + change (length (c :: rest) * 2)%nat with (S (S (length rest * 2))).
      simpl repeat.
      replace (Z.to_nat (Z.of_nat i * 2)) with (length pre + 0)%nat by lia.
      rewrite upd_app_r. simpl upd.
      replace (Z.to_nat (Z.of_nat i * 2 + 1)) with (length pre + 1)%nat by lia.
      rewrite upd_app_r. simpl upd.
      rewrite <- !app_assoc in Hloop. exact Hloop.
    + simpl. lia.
    + constructor; [exact Hra|]. constructor; [exact Hrb | exact Hall].
Qed.

(** A call that has a value converted every sample, and its indices were
    [int] values. *)
Lemma f32_to_s8_loop_defined input : forall i result out,
  f32_to_s8_loop input i result = Some out ->
  forallb s8_representable input = true /\
  (input <> [] -> Z.of_nat (i + length input) <= 2 ^ 30).
Proof.
  induction input as [|c rest IH]; intros i result out H.
  - split; [reflexivity | intros Hne; now elim Hne].
  - cbn [f32_to_s8_loop] in H.
    destruct (MachInt.int_value (Z.of_nat i * 2)) as [even|] eqn:Heven;
      [|discriminate H].
    cbn [bind] in H.
    destruct (scale_s8 (real c)) as [a|] eqn:Ha; [|discriminate H].
    cbn [bind] in H.
    destruct (MachInt.int_value (even + 1)) as [odd|] eqn:Hodd;
      [|discriminate H].
    cbn [bind] in H.
    destruct (scale_s8 (imag c)) as [b|] eqn:Hb; [|discriminate H].
    cbn [bind] in H.
    destruct (int_value_inv _ _ Heven) as [-> _].
    destruct (int_value_inv _ _ Hodd) as [_ Hlt].
    destruct (IH _ _ _ H) as [Hrep Hmax].
    split.
    + cbn [forallb]. unfold s8_representable at 1. now rewrite Ha, Hb.
    + intros _. cbn [length]. destruct rest as [|c' rest'].
      * cbn [length]. change (2 ^ 31) with (2 * 2 ^ 30) in Hlt. lia.
      * assert (Hne : c' :: rest' <> []) by discriminate.
        specialize (Hmax Hne). lia.
Qed.

(** Beyond [2^30] samples the index [i * 2] overflows. *)
Lemma f32_to_s8_overflow input :
  2 ^ 30 < Z.of_nat (length input) <= MachInt.INT_MAX ->
  f32_to_s8 input = None.
Proof.
  intros Hlen. destruct (f32_to_s8 input) as [out|] eqn:E; [|reflexivity].
  exfalso. unfold f32_to_s8 in E.
  rewrite to_int_id, Nat2Z.id, firstn_all in E by lia.
  apply f32_to_s8_loop_defined in E as [_ Hmax].
  assert (Hne : input <> []) by (intros ->; cbn [length] in Hlen; lia).
  specialize (Hmax Hne). lia.
Qed.

Lemma iq_s8_spec_zeros n :
  iq_s8_spec (repeat (Cplx F32.zero F32.zero) n) = Some (repeat 0 (n * 2)).
Proof.
  assert (Hq : quantize_spec F32.zero = Some 0) by (vm_compute; reflexivity).
  induction n as [|n IH]; [reflexivity|].
  cbn [repeat iq_s8_spec real imag Nat.mul Nat.add].
  rewrite Hq, IH. reflexivity.
Qed.

(** C1 (as amended). The sample sink [f32_to_s8] multiplies each component by
    127 in binary32 and discards the fractional part; it has no clamp. For an
    input of at most [2^30] samples (the index [i * 2] is an [int]) whose
    scaled components all truncate into [-128, 127] it returns exactly the
    interleaved I, Q bytes the specification describes (the clamp being the
    identity there), and every sample whose components are finite with
    magnitude at most one is such a sample, so unit-amplitude input never
    wraps. *)
Theorem f32_to_s8_in_range (input : list complexf) :
  Z.of_nat (length input) <= 2 ^ 30 ->
  (forallb s8_representable input = true ->
   exists out,
     f32_to_s8 input = Some out /\ iq_s8_spec input = Some out /\
     length out = (length input * 2)%nat /\
     Forall (fun z => -128 <= z <= 127) out) /\
  (forall c, unit_amplitude (real c) = true -> unit_amplitude (imag c) = true ->
             s8_representable c = true).
Proof.
  intros Hsize. split.
  - intros Hrep. unfold f32_to_s8.
    rewrite to_int_id by (unfold MachInt.INT_MAX; lia).
    rewrite Nat2Z.id, firstn_all.
    destruct (f32_to_s8_loop_spec input 0 [] Hrep eq_refl Hsize)
      as (out & Hspec & Hloop & Hlen & Hall).
    exists out. simpl in Hloop. auto.
  - intros c Hre Him. unfold s8_representable.
    destruct (unit_amplitude_scale _ Hre) as (a & -> & _).
    destruct (unit_amplitude_scale _ Him) as (b & -> & _).
    reflexivity.
Qed.

(** The theorem at a two-sample input of unit amplitude. *)
Lemma f32_to_s8_in_range_witness :
  exists out,
    f32_to_s8 [Cplx F32.one (SFopp F32.one); Cplx F32.zero F32.one] = Some out /\
    iq_s8_spec [Cplx F32.one (SFopp F32.one); Cplx F32.zero F32.one] = Some out /\
    length out = 4%nat /\ Forall (fun z => -128 <= z <= 127) out.
Proof.
  apply (f32_to_s8_in_range
           [Cplx F32.one (SFopp F32.one); Cplx F32.zero F32.one]).
  - vm_compute. discriminate.
  - reflexivity.
Defined.

(** C1 as stated fails: a component of value 2.0 scales to 254.0, which the
    specification clamps to 127 while the conversion to [int8_t] in the code
    has no value; and of [2^30 + 1] samples, all zero, the last one is not
    converted: its index [i * 2] is not an [int], where the specification
    has the zero bytes of every sample. *)
Lemma f32_to_s8_no_clamp :
  f32_to_s8 [Cplx (F32.of_Z 2) F32.zero] = None /\
  iq_s8_spec [Cplx (F32.of_Z 2) F32.zero] = Some [127; 0] /\
  f32_to_s8 (repeat (Cplx F32.zero F32.zero) (Z.to_nat (2 ^ 30 + 1))) = None /\
  iq_s8_spec (repeat (Cplx F32.zero F32.zero) (Z.to_nat (2 ^ 30 + 1)))
  = Some (repeat 0 (Z.to_nat (2 ^ 30 + 1) * 2)).
Proof.
  split; [reflexivity|]. split; [reflexivity|]. split.
  - apply f32_to_s8_overflow. rewrite repeat_length.
    rewrite Z2Nat.id by lia. unfold MachInt.INT_MAX. lia.
  - apply iq_s8_spec_zeros.
Qed.

(** ** The loop of [modulate] *)

Lemma to_int_le z : 0 <= z -> MachInt.to_int z <= z.
Proof.
  intros Hz. unfold MachInt.to_int, MachInt.wrap.
  change (2 ^ (32 - 1)) with 2147483648. change (2 ^ 32) with 4294967296.
  pose proof (Z.mod_le (z + 2147483648) 4294967296). lia.
Qed.

Section ModulateFacts.

Context {dsp : Dsp}.
Variable waveform : list F32.t.
Variable iq_sf : OutputFormat.

Let size : Z := MachInt.to_int (Z.of_nat (length waveform)).

(** Fuel covering the samples left is enough: more fuel changes nothing. *)
Lemma modulate_loop_fuel fuel : forall k st,
  size - offset st <= Z.of_nat fuel ->
  modulate_loop (fuel + k) waveform iq_sf st
  = modulate_loop fuel waveform iq_sf st.
Proof.
  induction fuel as [|fuel IH]; intros k st Hfuel.
  - destruct k as [|k]; [reflexivity|]. simpl.
    fold size. replace (offset st <? size) with false; [reflexivity|].
    symmetry. apply Z.ltb_ge. lia.
  - simpl. fold size.
    destruct (offset st <? size) eqn:Hlt; [|reflexivity].
    apply Z.ltb_lt in Hlt.
    destruct (fmmod _ _ _ _) as [buf phase].
    destruct (interpolate _ _) as [[interp' interp_buf] processed].
    destruct (processed =? 0); [reflexivity|].
    destruct (sink iq_sf interp_buf) as [bytes|]; [|reflexivity].
    simpl. apply IH. simpl. lia.
Qed.

(** A run of the loop is a sequence of iterations. *)
Lemma modulate_loop_run fuel : forall st st',
  size - offset st <= Z.of_nat fuel ->
  modulate_loop fuel waveform iq_sf st = Some st' ->
  exists its, run_from waveform iq_sf st its st'.
Proof.
  induction fuel as [|fuel IH]; intros st st' Hfuel Hrun.
  - simpl in Hrun. injection Hrun as <-. exists []. simpl. fold size.
    split; [lia | reflexivity].
  - simpl in Hrun. fold size in Hrun.
    destruct (offset st <? size) eqn:Hlt.
    + apply Z.ltb_lt in Hlt.
      set (chunk := firstn _ _) in Hrun.
      destruct (fmmod _ _ _ _) as [buf phase] eqn:Hfm.
      destruct (interpolate _ _) as [[interp' interp_buf] processed] eqn:Hip.
      pose (it bytes :=
              {| it_offset := offset st; it_chunk := chunk;
                 it_sensitivity := sensitivity;
                 it_phase_in := last_phase st; it_phase_out := phase;
                 it_buf_in := mod_buf st; it_mod_buf := buf;
                 it_processed := processed;
                 it_interp_buf := interp_buf; it_written := bytes |}).
      destruct (processed =? 0) eqn:Hp.
      * injection Hrun as <-.
        exists [it []]. simpl. fold size.
        repeat (split; [reflexivity || exact Hlt || exact Hfm|]).
        exists interp'. rewrite Hp. split; [exact Hip|]. repeat split.
      * destruct (sink iq_sf interp_buf) as [bytes|] eqn:Hs; [|discriminate].
        simpl in Hrun. apply IH in Hrun; [|simpl; lia].
        destruct Hrun as [its Hits].
        exists (it bytes :: its). simpl. fold size.
        repeat (split; [reflexivity || exact Hlt || exact Hfm|]).
        exists interp'. rewrite Hp. split; [exact Hip|].
        split; [exact Hs | exact Hits].
    + injection Hrun as <-. apply Z.ltb_ge in Hlt. exists []. simpl. fold size.
      split; [lia | reflexivity].
Qed.

(** The iterations of a run are what the run adds to the trace, and their
    writes, in order, are what it adds to the stream. *)
Lemma run_from_trace its : forall st st',
  run_from waveform iq_sf st its st' ->
  trace st' = trace st ++ its /\
  fout st' = fout st ++ concat (map it_written its).
Proof.
  induction its as [|it rest IH]; intros st st' Hrun; simpl in Hrun.
  - destruct Hrun as [_ ->]. simpl. now rewrite !app_nil_r.
  - destruct Hrun as (_ & _ & _ & _ & _ & _ & _ & interp' & _ & Hrest).
    destruct (it_processed it =? 0).
    + destruct Hrest as (Hw & -> & ->). simpl. rewrite Hw. simpl.
      now rewrite app_nil_r.
    + destruct Hrest as (_ & Hrest). apply IH in Hrest as [Ht Hf].
      simpl in Ht, Hf. rewrite Ht, Hf. simpl.
      now rewrite <- !app_assoc.
Qed.

Lemma modulate_run_from st :
  modulate_run waveform iq_sf = Some st ->
  run_from waveform iq_sf modulate_init (trace st) st /\
  fout st = concat (map it_written (trace st)).
Proof.
  intros Hrun. unfold modulate_run in Hrun.
  apply modulate_loop_run in Hrun.
  - destruct Hrun as [its Hits].
    destruct (run_from_trace _ _ _ Hits) as [Ht Hf]. simpl in Ht, Hf.
    rewrite Ht, Hf. split; [exact Hits | reflexivity].
  - simpl. pose proof (to_int_le (Z.of_nat (length waveform))). fold size in H.
    lia.
Qed.

(** Each iteration takes the phase the one before returned, and every call
    of [fmmod] is given the same sensitivity. *)
Lemma run_from_phase_chain its : forall st st',
  run_from waveform iq_sf st its st' ->
  phase_chain (last_phase st) its /\
  Forall (fun it => it_sensitivity it = sensitivity) its /\
  last_phase st' = fold_left (fun _ it => it_phase_out it) its (last_phase st).
Proof.
  induction its as [|it rest IH]; intros st st' Hrun; simpl in Hrun.
  - destruct Hrun as [_ ->]. simpl. auto.
  - destruct Hrun as (_ & _ & _ & Hs & Hp & _ & _ & interp' & _ & Hrest).
    destruct (it_processed it =? 0).
    + destruct Hrest as (_ & -> & ->). simpl. auto.
    + destruct Hrest as (_ & Hrest). apply IH in Hrest as (Hc & Hall & Hl).
      simpl in Hc, Hl. simpl. auto.
Qed.

Lemma firstn_firstn_skipn {A : Type} (l : list A) a b :
  firstn a l ++ firstn b (skipn a l) = firstn (a + b) l.
Proof.
  revert l; induction a as [|a IH]; intros l; simpl.
  - reflexivity.
  - destruct l as [|x l]; simpl; [now rewrite firstn_nil | now rewrite IH].
Qed.

(** The chunks of a run, in order, are consecutive pieces of the waveform. *)
Lemma run_from_chunks its : forall st st',
  0 <= offset st ->
  run_from waveform iq_sf st its st' ->
  exists n, concat (map it_chunk its)
            = firstn n (skipn (Z.to_nat (offset st)) waveform).
Proof.
  induction its as [|it rest IH]; intros st st' Hoff Hrun; simpl in Hrun.
  - exists 0%nat. reflexivity.
  - fold size in Hrun.
    destruct Hrun as (Hlt & _ & Hch & _ & _ & _ & _ & interp' & _ & Hrest).
    simpl. rewrite Hch.
    set (k := Z.min (Z.pos BUFSIZE) (size - offset st)) in *.
    destruct (it_processed it =? 0).
    + destruct Hrest as (_ & -> & _). exists (Z.to_nat k). simpl.
      now rewrite app_nil_r.
    + destruct Hrest as (_ & Hrest). apply IH in Hrest as [n Hn]; [|simpl; lia].
      simpl in Hn. rewrite Hn.
      replace (Z.to_nat (offset st + k)) with (Z.to_nat k + Z.to_nat (offset st))%nat
        by lia.
      rewrite <- skipn_skipn. exists (Z.to_nat k + n)%nat.
      apply firstn_firstn_skipn.
Qed.

(** When [fmmod] stores one sample for each input sample and the
    interpolator consumes the whole ring buffer every time, the loop is never
    left early: the chunks are the whole rest of the waveform, every sample
    of it is consumed, and the ring buffer is empty at the end. *)
Lemma run_from_cover its :
  Z.of_nat (length waveform) <= MachInt.INT_MAX ->
  forall st st',
  0 <= offset st <= size ->
  mod_buf st = [] ->
  run_from waveform iq_sf st its st' ->
  forallb it_full its = true ->
  concat (map it_chunk its) = skipn (Z.to_nat (offset st)) waveform /\
  consumed its = size - offset st /\
  mod_buf st' = [] /\
  offset st' = size.
Proof.
  intros Hfit.
  assert (Hsize : size = Z.of_nat (length waveform)).
  { unfold size. apply to_int_id. lia. }
  induction its as [|it rest IH]; intros st st' Hoff Hbuf Hrun Hfull;
    cbn [run_from] in Hrun; fold size in Hrun.
  - destruct Hrun as [Hge ->]. cbn [map concat consumed fold_right].
    split; [|split; [lia | split; [exact Hbuf | lia]]].
    symmetry. apply skipn_all2. lia.
  - cbn [forallb] in Hfull. apply andb_true_iff in Hfull as [Hit Hfull].
    unfold it_full in Hit. apply andb_true_iff in Hit as [Hit _].
    apply andb_true_iff in Hit as [Hfm Hwhole].
    apply Nat.eqb_eq in Hfm. apply Z.eqb_eq in Hwhole.
    destruct Hrun as (Hlt & _ & Hch & _ & _ & Hin & _ & interp' & _ & Hrest).
    set (k := Z.min (Z.pos BUFSIZE) (size - offset st)) in *.
    assert (Hk : length (it_chunk it) = Z.to_nat k).
    { rewrite Hch, length_firstn, length_skipn. lia. }
    rewrite Hin, Hbuf, Hk in Hfm. cbn [length Nat.add] in Hfm.
    assert (Hproc : it_processed it = k) by lia.
    replace (it_processed it =? 0) with false in Hrest
      by (symmetry; apply Z.eqb_neq; lia).
    destruct Hrest as (_ & Hrest).
    apply IH in Hrest; [| cbn [next_state offset]; lia | | exact Hfull].
    + cbn [next_state offset] in Hrest.
      destruct Hrest as (Hchunks & Hcons & Hempty & Hend).
      change (consumed (it :: rest)) with (it_processed it + consumed rest).
      cbn [map concat]. rewrite Hchunks, Hch.
      split; [|split; [lia | split; [exact Hempty | exact Hend]]].
      replace (Z.to_nat (offset st + k))
        with (Z.to_nat k + Z.to_nat (offset st))%nat by lia.
      rewrite <- skipn_skipn. apply firstn_skipn.
    + cbn [next_state mod_buf]. apply skipn_all2. lia.
Qed.

Lemma run_from_chunk_size its : forall st st',
  run_from waveform iq_sf st its st' ->
  Forall (fun it => (length (it_chunk it) <= Pos.to_nat BUFSIZE)%nat) its.
Proof.
  induction its as [|it rest IH]; intros st st' Hrun; simpl in Hrun.
  - constructor.
  - destruct Hrun as (_ & _ & Hch & _ & _ & _ & _ & interp' & _ & Hrest).
    constructor.
    + rewrite Hch, length_firstn. lia.
    + destruct (it_processed it =? 0).
      * destruct Hrest as (_ & -> & _). constructor.
      * destruct Hrest as (_ & Hrest). eapply IH. exact Hrest.
Qed.

(** What an iteration writes is nothing, when the loop is left, or else the
    encoding of what the interpolator returned. *)
Lemma run_from_written its : forall st st',
  run_from waveform iq_sf st its st' ->
  Forall (fun it =>
            (it_processed it = 0 /\ it_written it = []) \/
            (it_processed it <> 0 /\
             sink iq_sf (it_interp_buf it) = Some (it_written it))) its.
Proof.
  induction its as [|it rest IH]; intros st st' Hrun; simpl in Hrun.
  - constructor.
  - destruct Hrun as (_ & _ & _ & _ & _ & _ & _ & interp' & _ & Hrest).
    destruct (it_processed it =? 0) eqn:Hp.
    + apply Z.eqb_eq in Hp. destruct Hrest as (Hw & -> & _).
      constructor; [left; auto | constructor].
    + apply Z.eqb_neq in Hp. destruct Hrest as (Hs & Hrest).
      constructor; [right; auto | eapply IH; exact Hrest].
Qed.

End ModulateFacts.

(** C2 (as amended). In every mode [modulate] writes exactly the
    concatenation, in loop order, of what its iterations write; an iteration
    feeds the next chunk of at most [BUFSIZE] samples, consecutive in the
    waveform, to [fmmod] and the ring buffer to the interpolator, and writes
    the encoding of the interpolator's output, or nothing when the
    interpolator consumed nothing, which ends the loop.  When [fmmod] stores
    one sample for each input sample and the interpolator consumes the whole
    ring buffer every time, the chunks are the whole waveform, every sample
    is consumed and the ring buffer is empty at the end.  Nothing is written
    after the loop: there is no flush of the interpolator. *)
Theorem modulate_stream {dsp : Dsp} (waveform : list F32.t)
  (iq_sf : OutputFormat) (st : mstate) :
  modulate_run waveform iq_sf = Some st ->
  modulate waveform iq_sf = Some (concat (map it_written (trace st))) /\
  run_from waveform iq_sf modulate_init (trace st) st /\
  (exists n, concat (map it_chunk (trace st)) = firstn n waveform) /\
  Forall (fun it => (length (it_chunk it) <= Pos.to_nat BUFSIZE)%nat)
         (trace st) /\
  Forall (fun it =>
            (it_processed it = 0 /\ it_written it = []) \/
            (it_processed it <> 0 /\
             sink iq_sf (it_interp_buf it) = Some (it_written it)))
         (trace st) /\
  (Z.of_nat (length waveform) <= MachInt.INT_MAX ->
   forallb it_full (trace st) = true ->
   concat (map it_chunk (trace st)) = waveform /\
   consumed (trace st) = Z.of_nat (length waveform) /\
   mod_buf st = []).
Proof.
  intros Hrun. destruct (modulate_run_from _ _ _ Hrun) as [Hfrom Hout].
  split; [unfold modulate; rewrite Hrun; simpl; now rewrite Hout|].
  split; [exact Hfrom|].
  split; [|split; [|split]].
  - destruct (run_from_chunks waveform iq_sf (trace st) modulate_init st
                (Z.le_refl 0) Hfrom) as [n Hn].
    exists n. exact Hn.
  - eapply run_from_chunk_size. exact Hfrom.
  - eapply run_from_written. exact Hfrom.
  - intros Hfit Hfull.
    assert (Hsize : MachInt.to_int (Z.of_nat (length waveform))
                    = Z.of_nat (length waveform)) by (apply to_int_id; lia).
    destruct (run_from_cover waveform iq_sf (trace st) Hfit modulate_init st)
      as (Hchunks & Hcons & Hempty & _); try assumption.
    + cbn [modulate_init offset]. lia.
    + reflexivity.
    + cbn [modulate_init offset] in Hchunks, Hcons.
      split; [exact Hchunks|]. split; [lia | exact Hempty].
Qed.

(** The run on the audio of one bit, cut in chunks of 16 samples, with the
    interpolator that keeps its own delay line. *)
Lemma delay_line_run_facts :
  option_map (fun st => (forallb it_exact (trace st),
                         forallb it_full (trace st), length (fout st)))
             (@modulate_run (dsp_delay_line 16) one_bit_wave IQ_S8)
  = Some (true, true, 4000%nat).
Proof. vm_compute. reflexivity. Qed.

(** The theorem on that run: the three chunks are the 40 samples. *)
Lemma modulate_stream_witness :
  exists st,
    @modulate_run (dsp_delay_line 16) one_bit_wave IQ_S8 = Some st /\
    @modulate (dsp_delay_line 16) one_bit_wave IQ_S8
    = Some (concat (map it_written (trace st))) /\
    concat (map it_chunk (trace st)) = one_bit_wave /\
    consumed (trace st) = 40.
Proof.
  pose proof delay_line_run_facts as F.
  destruct (@modulate_run (dsp_delay_line 16) one_bit_wave IQ_S8) as [st|] eqn:E.
  - exists st. split; [reflexivity|].
    assert (Hfull : forallb it_full (trace st) = true).
    { cbn [option_map] in F. congruence. }
    destruct (@modulate_stream (dsp_delay_line 16) one_bit_wave IQ_S8 st E)
      as (Hout & _ & _ & _ & _ & Hcover).
    destruct (Hcover ltac:(vm_compute; discriminate) Hfull)
      as (Hchunks & Hcons & _).
    split; [exact Hout|]. split; [exact Hchunks | exact Hcons].
  - discriminate F.
Defined.

(** C2 as stated fails: [modulate] has no flush.  On the audio of one bit,
    with the interpolator that keeps its own delay line, the three iterations
    consume the 40 samples and their 4000 bytes are all that is written; the
    delay line [modulate] leaves behind still holds the last sample, and the
    bytes one more sample, a zero, would bring out of it, 63 0 63 0 and so
    on, are written nowhere. *)
Lemma modulate_no_flush :
  option_map
    (fun st : @mstate (dsp_delay_line 16) =>
       (length (fout st), length (concat (map it_written (trace st))),
        consumed (trace st), length (trace st),
        Spec.dl_hist (interp st : Spec.delay_line),
        option_map (firstn 4)
          (sink IQ_S8
             (snd (fst (@interpolate (dsp_delay_line 16) (interp st)
                                     [Spec.czero]))))))
    (@modulate_run (dsp_delay_line 16) one_bit_wave IQ_S8)
  = Some (4000%nat, 4000%nat, 40, 3%nat, [Cplx F32.one F32.zero],
          Some [63; 0; 63; 0]).
Proof. vm_compute. reflexivity. Qed.

(** ** Byte counts in [IQ_S8] mode *)

Lemma f32_to_s8_loop_length input : forall i result out,
  f32_to_s8_loop input i result = Some out -> length out = length result.
Proof.
  induction input as [|c rest IH]; intros i result out H; simpl in H.
  - now injection H as <-.
  - cbn [f32_to_s8_loop] in H.
    destruct (MachInt.int_value (Z.of_nat i * 2)) as [even|]; [|discriminate].
    cbn [bind] in H.
    destruct (scale_s8 (real c)) as [a|]; [|discriminate].
    cbn [bind] in H.
    destruct (MachInt.int_value (even + 1)) as [odd|]; [|discriminate].
    cbn [bind] in H.
    destruct (scale_s8 (imag c)) as [b|]; [|discriminate].
    cbn [bind] in H. apply IH in H. now rewrite H, !upd_length.
Qed.

Lemma f32_to_s8_length input out :
  f32_to_s8 input = Some out -> length out = (length input * 2)%nat.
Proof.
  unfold f32_to_s8. intros H. apply f32_to_s8_loop_length in H.
  now rewrite H, repeat_length.
Qed.

Lemma sink_s8_length interp_buf bytes :
  sink IQ_S8 interp_buf = Some bytes ->
  length bytes = (length interp_buf * 2)%nat.
Proof.
  unfold sink. destruct (f32_to_s8 interp_buf) as [out|] eqn:E; [|discriminate].
  simpl. intros [= <-]. rewrite length_map. now apply f32_to_s8_length.
Qed.

Section ByteCount.

Context {dsp : Dsp}.
Variable waveform : list F32.t.

Let size : Z := MachInt.to_int (Z.of_nat (length waveform)).




End ByteCount.




Lemma afsk_samples_length sin_turn n : forall f phase,
  length (fst (Spec.afsk_samples sin_turn n f phase)) = n.
Proof.
  induction n as [|n IH]; intros f phase; simpl; [reflexivity|].
  specialize (IH f ((phase + f) mod AUDIO_SAMPLE_RATE)).
  destruct (Spec.afsk_samples sin_turn n f _) as [rest final].
  simpl in *. now rewrite IH.
Qed.

(** 40 samples for each bit. *)
Lemma afsk_length sin_turn bits :
  length (Spec.afsk sin_turn bits) = (Spec.SAMPLES_PER_BIT * length bits)%nat.
Proof.
  unfold Spec.afsk.
  assert (H : forall acc,
             length (fst (fold_left (Spec.afsk_bit sin_turn) bits acc))
             = (length (fst acc) + Spec.SAMPLES_PER_BIT * length bits)%nat).
  { induction bits as [|b rest IH]; intros acc.
    - simpl. lia.
    - cbn [fold_left]. rewrite IH. unfold Spec.afsk_bit.
      pose proof (afsk_samples_length sin_turn Spec.SAMPLES_PER_BIT
                    (Spec.tone b) (snd acc)) as Hl.
      destruct (Spec.afsk_samples sin_turn Spec.SAMPLES_PER_BIT _ _)
        as [samples phase].
      cbn [fst snd] in *. rewrite length_app, Hl. cbn [length]. lia. }
  rewrite H. reflexivity.
Qed.

Lemma nrzi_from_length bits : forall level,
  length (Spec.nrzi_from level bits) = length bits.
Proof.
  induction bits as [|b bits IH]; intros level; simpl; [reflexivity|].
  now rewrite IH.
Qed.

Lemma nrzi_length bits : length (Spec.nrzi bits) = length bits.
Proof. apply nrzi_from_length. Qed.



(** *** The longest frame of the frame builder *)

Lemma bits_lsb_length n z : length (Spec.bits_lsb n z) = n.
Proof. unfold Spec.bits_lsb. now rewrite length_map, length_seq. Qed.











(** ** The phase accumulator *)

(** Two calls of the FM modulator of the specification, the second starting
    from the phase the first returned, do what one call does on the two
    chunks joined. *)
Lemma fmmod_app cis (a b : list F32.t) : forall output k phase,
  Spec.fmmod cis (a ++ b) output k phase
  = Spec.fmmod cis b (fst (Spec.fmmod cis a output k phase)) k
               (snd (Spec.fmmod cis a output k phase)).
Proof.
  induction a as [|x a IH]; intros output k phase; simpl.
  - reflexivity.
  - apply IH.
Qed.

Lemma run_from_fmmod_calls {dsp : Dsp} waveform iq_sf its : forall st st',
  run_from waveform iq_sf st its st' ->
  Forall (fun it =>
            fmmod (it_chunk it) (it_buf_in it) (it_sensitivity it)
                  (it_phase_in it)
            = (it_mod_buf it, it_phase_out it)) its.
Proof.
  induction its as [|it rest IH]; intros st st' Hrun; simpl in Hrun.
  - constructor.
  - destruct Hrun as (_ & _ & _ & Hs & Hp & Hb & Hfm & interp' & _ & Hrest).
    constructor.
    + rewrite Hs, Hp, Hb. exact Hfm.
    + destruct (it_processed it =? 0).
      * destruct Hrest as (_ & -> & _). constructor.
      * destruct Hrest as (_ & Hrest). eapply IH. exact Hrest.
Qed.

(** The sensitivity is the binary32 number 10980662 * 2^-24, which is
    2 * pi * 5000 / 48000 for pi between 3.1415925 and 3.1415927. *)
Lemma sensitivity_value :
  sensitivity = S754_finite false 10980662 (-24) /\
  31415925 * 2 * 5000 * 2 ^ 24 < 10980662 * 48000 * 10 ^ 7
  < 31415927 * 2 * 5000 * 2 ^ 24.
Proof. split; [vm_compute; reflexivity | vm_compute; split; reflexivity]. Qed.

(** C4. Within one run of [modulate] the phase accumulator starts at 0, the
    phase returned by [fmmod] for a chunk is the phase passed to it for the
    next chunk, and every call is given the sensitivity
    [2 * M_PI * 5000 / 48000]; the FM modulator of the specification
    advances the phase by the sensitivity times the sample, so that chunked
    calls are one call on the joined chunks. *)
Theorem modulate_phase_carried {dsp : Dsp} (waveform : list F32.t)
  (iq_sf : OutputFormat) (st : mstate) :
  modulate_run waveform iq_sf = Some st ->
  phase_chain F32.zero (trace st) /\
  last_phase st
  = fold_left (fun _ it => it_phase_out it) (trace st) F32.zero /\
  Forall (fun it => it_sensitivity it = sensitivity) (trace st) /\
  Forall (fun it =>
            fmmod (it_chunk it) (it_buf_in it) (it_sensitivity it)
                  (it_phase_in it)
            = (it_mod_buf it, it_phase_out it)) (trace st) /\
  (sensitivity = S754_finite false 10980662 (-24) /\
   31415925 * 2 * 5000 * 2 ^ 24 < 10980662 * 48000 * 10 ^ 7
   < 31415927 * 2 * 5000 * 2 ^ 24) /\
  (forall cis x rest output k phase,
      Spec.fmmod cis (x :: rest) output k phase
      = Spec.fmmod cis rest (output ++ [cis (F32.add phase (F32.mul k x))]) k
                   (F32.add phase (F32.mul k x))) /\
  (forall cis a b output k phase,
      Spec.fmmod cis (a ++ b) output k phase
      = Spec.fmmod cis b (fst (Spec.fmmod cis a output k phase)) k
                   (snd (Spec.fmmod cis a output k phase))).
Proof.
  intros Hrun. destruct (modulate_run_from _ _ _ Hrun) as [Hfrom _].
  destruct (run_from_phase_chain _ _ _ _ _ Hfrom) as (Hchain & Hsens & Hlast).
  split; [exact Hchain|]. split; [exact Hlast|]. split; [exact Hsens|].
  split; [eapply run_from_fmmod_calls; exact Hfrom|].
  split; [exact sensitivity_value|].
  split; [reflexivity|]. intros. apply fmmod_app.
Qed.

Lemma delay_line_run_chunks :
  option_map (fun st => length (trace st))
             (@modulate_run (dsp_delay_line 16) one_bit_wave IQ_S8)
  = Some 3%nat.
Proof. vm_compute. reflexivity. Qed.

(** The theorem on the audio of one bit, cut in three chunks. *)
Lemma modulate_phase_carried_witness :
  exists st,
    @modulate_run (dsp_delay_line 16) one_bit_wave IQ_S8 = Some st /\
    phase_chain F32.zero (trace st) /\
    length (trace st) = 3%nat.
Proof.
  pose proof delay_line_run_chunks as F.
  destruct (@modulate_run (dsp_delay_line 16) one_bit_wave IQ_S8) as [st|] eqn:E.
  - exists st. split; [reflexivity|].
    split.
    + exact (proj1 (@modulate_phase_carried (dsp_delay_line 16) one_bit_wave
                      IQ_S8 st E)).
    + simpl in F. now injection F as ->.
  - discriminate F.
Defined.

(** ** [run_aprs] *)

Lemma f32_bytes_length x : length (f32_bytes x) = 4%nat.
Proof. reflexivity. Qed.

Lemma pcm_bytes_length wave :
  length (flat_map f32_bytes wave) = (length wave * 4)%nat.
Proof.
  induction wave as [|x wave IH]; [reflexivity|].
  cbn [flat_map]. rewrite length_app, f32_bytes_length, IH. cbn [length]. lia.
Qed.

(** In PCM mode [run_aprs] writes the audio samples as they are. *)
Lemma run_aprs_pcm_written {dsp : Dsp} {ax25 : Ax25} fopen_ok config frame :
  iq_sf config = PCM_F32 ->
  empty (output config) = true \/ fopen_ok = true ->
  ax25frame (string_c_str (callsignUsed config)) (string_c_str (dest config))
            (string_c_str (path config)) (string_c_str (infoUsed config))
            false = Ret frame ->
  run_aprs fopen_ok config = Ret (0, flat_map f32_bytes (afsk (nrzi frame))).
Proof.
  intros Hfmt Hopen Hframe. unfold run_aprs. rewrite Hframe, Hfmt.
  cbn [obind].
  replace (negb (empty (output config)) && negb fopen_ok) with false;
    [reflexivity|].
  destruct Hopen as [-> | ->]; [reflexivity | now rewrite andb_false_r].
Qed.

(** C6. When the format is [PCM_F32] and the output can be opened,
    [run_aprs] returns 0 and the bytes written are the float32 samples of
    the AFSK stage, whatever [fmmod] and the interpolator are; with the NRZI
    and AFSK stages of the specification they are [num_bits * 40 * 4] bytes
    for a frame of [num_bits] bits. *)
Theorem run_aprs_pcm {dsp : Dsp} {ax25 : Ax25} (fopen_ok : bool)
  (config : Config) (frame : list bool) :
  iq_sf config = PCM_F32 ->
  empty (output config) = true \/ fopen_ok = true ->
  ax25frame (string_c_str (callsignUsed config)) (string_c_str (dest config))
            (string_c_str (path config)) (string_c_str (infoUsed config))
            false = Ret frame ->
  run_aprs fopen_ok config = Ret (0, flat_map f32_bytes (afsk (nrzi frame))) /\
  (forall dsp' : Dsp,
      @afsk dsp' = @afsk dsp ->
      @run_aprs dsp' ax25 fopen_ok config = @run_aprs dsp ax25 fopen_ok config) /\
  (forall sin_turn,
      @afsk dsp = Spec.afsk sin_turn -> @nrzi ax25 = Spec.nrzi ->
      length (flat_map f32_bytes (afsk (nrzi frame)))
      = (length frame * 40 * 4)%nat).
Proof.
  intros Hfmt Hopen Hframe.
  split; [now apply run_aprs_pcm_written|]. split.
  - intros dsp' Hafsk.
    rewrite (@run_aprs_pcm_written dsp' ax25 fopen_ok config frame Hfmt Hopen Hframe).
    rewrite (@run_aprs_pcm_written dsp ax25 fopen_ok config frame Hfmt Hopen Hframe).
    now rewrite Hafsk.
  - intros sin_turn Hafsk Hnrzi.
    rewrite pcm_bytes_length, Hafsk, Hnrzi, afsk_length, nrzi_length.
    unfold Spec.SAMPLES_PER_BIT. lia.
Qed.

Lemma smoke_frame_built :
  Spec.ax25frame "N0CALL"%string "APRS"%string ""%string "Hello"%string false
  = Ret smoke_frame.
Proof. vm_compute. reflexivity. Qed.

(** The theorem on the smoke frame: 200 bits. *)
Lemma run_aprs_pcm_witness :
  @run_aprs (dsp_delay_line 4096) ax25_spec true smoke_config
  = Ret (0, flat_map f32_bytes
              (@afsk (dsp_delay_line 4096) (@nrzi ax25_spec smoke_frame))) /\
  length smoke_frame = 200%nat.
Proof.
  split; [|reflexivity].
  exact (proj1 (@run_aprs_pcm (dsp_delay_line 4096) ax25_spec true smoke_config
                  smoke_frame eq_refl (or_intror eq_refl)
                  smoke_frame_built)).
Defined.

(** ** An empty callsign *)

Lemma frame_bytes_empty_callsign dest path info :
  Spec.frame_bytes ""%string dest path info = Throw InvalidCallsign.
Proof. reflexivity. Qed.

(** The callsign that reaches the frame builder is empty exactly when the
    configured one starts with a zero byte. *)
Lemma callsign_c_str_empty config :
  string_c_str (callsignUsed config) = ""%string <->
  exists rest, callsign config = String.String NUL rest.
Proof.
  unfold callsignUsed, empty, string_c_str.
  destruct (callsign config) as [|c rest].
  - cbn. split; [discriminate | intros [rest H]; discriminate H].
  - change (String.eqb (String.String c rest) ""%string) with false.
    cbn [negb String.list_ascii_of_string c_chars].
    destruct (Ascii.eqb c NUL) eqn:E.
    + apply Ascii.eqb_eq in E. subst c. split; [eauto | reflexivity].
    + cbn [String.string_of_list_ascii]. split; [discriminate|].
      intros [rest' H]. injection H as -> _.
      now rewrite Ascii.eqb_refl in E.
Qed.

(** C5 (as amended). The frame builder of the specification refuses an
    empty source callsign with [InvalidCallsign]; with a frame builder that
    does so, [gen_iq_s8], which hands its callsign over as it is, builds no
    frame and returns nothing for an empty callsign.  [run_aprs] hands over
    the C string of the callsign in use.  When the configured callsign is
    empty this is the built-in default [KD9WPR], and [run_aprs] behaves in
    everything as for that callsign: the request is served.  Otherwise it is
    the configured callsign up to its first zero byte: the frame builder
    gets an empty callsign from [run_aprs] exactly when the configured
    callsign starts with a zero byte, and [run_aprs] then ends with the
    validation error of the frame builder. *)
Theorem run_aprs_empty_callsign {dsp : Dsp} {ax25 : Ax25} (fopen_ok : bool)
  (config : Config) :
  (forall dest path info debug,
      Spec.ax25frame ""%string dest path info debug = Throw InvalidCallsign) /\
  ((forall dest path info,
       ax25frame ""%string dest path info false = Throw InvalidCallsign) ->
   forall env user_path info,
     gen_iq_s8 env ""%string user_path info = Throw InvalidCallsign \/
     gen_iq_s8 env ""%string user_path info = Undefined) /\
  (callsign config = ""%string ->
   string_c_str (callsignUsed config) = "KD9WPR"%string /\
   run_aprs fopen_ok config
   = run_aprs fopen_ok (with_callsign "KD9WPR"%string config)) /\
  (string_c_str (callsignUsed config) = ""%string <->
   exists rest, callsign config = String.String NUL rest) /\
  ((forall dest path info,
       ax25frame ""%string dest path info false = Throw InvalidCallsign) ->
   (exists rest, callsign config = String.String NUL rest) ->
   run_aprs fopen_ok config = Throw InvalidCallsign).
Proof.
  split; [|split; [|split; [|split]]].
  - intros. unfold Spec.ax25frame. now rewrite frame_bytes_empty_callsign.
  - intros Hreject env user_path info. unfold gen_iq_s8.
    destruct (c_str _) as [p|]; [left | right; reflexivity].
    cbn [of_option obind]. now rewrite Hreject.
  - intros Hc.
    assert (Hused : callsignUsed config = "KD9WPR"%string)
      by (unfold callsignUsed; now rewrite Hc).
    split; [now rewrite Hused|].
    unfold run_aprs. rewrite Hused. reflexivity.
  - apply callsign_c_str_empty.
  - intros Hreject Hnul. apply callsign_c_str_empty in Hnul.
    unfold run_aprs. rewrite Hnul. now rewrite Hreject.
Qed.

(** The theorem on the smoke request with no callsign configured. *)
Lemma run_aprs_empty_callsign_witness :
  string_c_str (callsignUsed anonymous_config) = "KD9WPR"%string /\
  @run_aprs (dsp_delay_line 4096) ax25_spec true anonymous_config
  = @run_aprs (dsp_delay_line 4096) ax25_spec true
              (with_callsign "KD9WPR"%string anonymous_config).
Proof.
  exact (proj1 (proj2 (proj2
           (@run_aprs_empty_callsign (dsp_delay_line 4096) ax25_spec true
              anonymous_config))) eq_refl).
Defined.

Lemma default_frame_built :
  Spec.ax25frame "KD9WPR"%string "APRS"%string ""%string "Hello"%string false
  = Ret default_frame.
Proof. vm_compute. reflexivity. Qed.

(** C5 as stated fails: the request with an empty callsign is not refused;
    [run_aprs] returns 0 and writes the audio of the 200 bits of the frame
    of [KD9WPR]. *)
Lemma run_aprs_anonymous_accepted :
  @run_aprs (dsp_delay_line 4096) ax25_spec true anonymous_config
  = Ret (0, flat_map f32_bytes
              (@afsk (dsp_delay_line 4096) (@nrzi ax25_spec default_frame))) /\
  length (flat_map f32_bytes
            (@afsk (dsp_delay_line 4096) (@nrzi ax25_spec default_frame)))
  = (200 * 40 * 4)%nat.
Proof.
  split.
  - exact (@run_aprs_pcm_written (dsp_delay_line 4096) ax25_spec true
             anonymous_config default_frame eq_refl (or_intror eq_refl)
             default_frame_built).
  - rewrite pcm_bytes_length.
    change (@afsk (dsp_delay_line 4096)) with (Spec.afsk tri_turn).
    change (@nrzi ax25_spec) with Spec.nrzi.
    rewrite afsk_length, nrzi_length. reflexivity.
Qed.

(** ** [gen_iq_s8]: allocation *)

Lemma fmemopen_write_length block size data :
  length (fmemopen_write block size data) = size.
Proof.
  assert (Hu : length (map block (seq 0 size)) = size)
    by now rewrite length_map, length_seq.
  unfold fmemopen_write. destruct data as [|d data]; [exact Hu|].
  destruct (_ && _); [exact Hu|].
  assert (Hs : length (firstn size (d :: data)
                       ++ map block (seq (length (d :: data))
                                         (size - length (d :: data))))
               = size)
    by (rewrite length_app, length_firstn, length_map, length_seq; lia).
  destruct (negb _); [now rewrite upd_length | exact Hs].
Qed.

Lemma to_size_t_nonneg z : 0 <= to_size_t z.
Proof. unfold to_size_t. apply Z.mod_pos_bound. reflexivity. Qed.

Lemma to_size_t_int z : 0 <= MachInt.to_int z -> to_size_t (MachInt.to_int z) = MachInt.to_int z.
Proof.
  intros Hz. unfold to_size_t. apply Z.mod_small. split; [exact Hz|].
  unfold MachInt.to_int, MachInt.wrap.
  change (2 ^ (32 - 1)) with 2147483648. change (2 ^ 32) with 4294967296.
  pose proof (Z.mod_pos_bound (z + 2147483648) 4294967296 eq_refl).
  change (2 ^ 64) with 18446744073709551616. lia.
Qed.

(** C10. Once the path is read and the frame built, [gen_iq_s8] stores in
    [*total] the byte count N * 50 * 2 as an [int32_t]; if the allocation
    fails it returns the null pointer, [*total] being set; if the allocation
    succeeds and [modulate] comes back, it returns the block, which has as
    many bytes as were asked for: [*total] of them whenever [*total] is not
    negative. *)
Theorem gen_iq_s8_alloc {dsp : Dsp} {ax25 : Ax25} (env : c_env)
  (callsign user_path info : String.string) (path : list ascii)
  (frame : list bool) :
  c_str (strncpy (String.list_ascii_of_string user_path) 63 ++ [path_63 env])
  = Some path ->
  ax25frame callsign "APRS"%string (String.string_of_list_ascii path) info
            false = Ret frame ->
  (malloc env
     (to_size_t (MachInt.to_int (Z.of_nat (length (afsk (nrzi frame))) * 50 * 2)))
   = None ->
   gen_iq_s8 env callsign user_path info
   = Ret (MachInt.to_int (Z.of_nat (length (afsk (nrzi frame))) * 50 * 2),
          None)) /\
  (forall block written,
      malloc env
        (to_size_t (MachInt.to_int (Z.of_nat (length (afsk (nrzi frame))) * 50 * 2)))
      = Some block ->
      modulate (afsk (nrzi frame)) IQ_S8 = Some written ->
      exists buf,
        gen_iq_s8 env callsign user_path info
        = Ret (MachInt.to_int (Z.of_nat (length (afsk (nrzi frame))) * 50 * 2),
               Some buf) /\
        Z.of_nat (length buf)
        = to_size_t (MachInt.to_int
                       (Z.of_nat (length (afsk (nrzi frame))) * 50 * 2)) /\
        (0 <= MachInt.to_int (Z.of_nat (length (afsk (nrzi frame))) * 50 * 2) ->
         Z.of_nat (length buf)
         = MachInt.to_int (Z.of_nat (length (afsk (nrzi frame))) * 50 * 2))).
Proof.
  intros Hpath Hframe.
  set (total := MachInt.to_int (Z.of_nat (length (afsk (nrzi frame))) * 50 * 2)).
  split.
  - intros Hnull. unfold gen_iq_s8. rewrite Hpath. cbn [of_option obind].
    rewrite Hframe. cbn [obind]. fold total. now rewrite Hnull.
  - intros block written Hblock Hmod.
    exists (fmemopen_write block (Z.to_nat (to_size_t total)) written).
    split; [|split].
    + unfold gen_iq_s8. rewrite Hpath. cbn [of_option obind].
      rewrite Hframe. cbn [obind]. fold total. rewrite Hblock, Hmod.
      reflexivity.
    + rewrite fmemopen_write_length.
      apply Z2Nat.id, to_size_t_nonneg.
    + intros Hnn. rewrite fmemopen_write_length.
      rewrite Z2Nat.id by apply to_size_t_nonneg.
      now apply to_size_t_int.
Qed.

(** The theorem on the smoke frame when [malloc] fails. *)
Lemma gen_iq_s8_alloc_witness :
  @gen_iq_s8 (dsp_delay_line 4096) ax25_spec (env_null NUL)
             "N0CALL"%string ""%string "Hello"%string
  = Ret (MachInt.to_int
           (Z.of_nat (length (@afsk (dsp_delay_line 4096)
                                    (@nrzi ax25_spec smoke_frame))) * 50 * 2),
         None).
Proof.
  exact (proj1 (@gen_iq_s8_alloc (dsp_delay_line 4096) ax25_spec (env_null NUL)
                  "N0CALL"%string ""%string "Hello"%string [] smoke_frame
                  eq_refl smoke_frame_built)
               eq_refl).
Defined.

(** The value of [*total] there: 200 bits, 8000 samples, 800000 bytes. *)
Lemma smoke_total :
  MachInt.to_int
    (Z.of_nat (length (@afsk (dsp_delay_line 4096) (@nrzi ax25_spec smoke_frame)))
     * 50 * 2) = 800000.
Proof.
  change (@afsk (dsp_delay_line 4096)) with (Spec.afsk tri_turn).
  change (@nrzi ax25_spec) with Spec.nrzi.
  rewrite afsk_length, nrzi_length. reflexivity.
Qed.

(** ** [gen_iq_s8]: the path buffer *)

Lemma c_str_app_nul chars rest :
  forallb (fun c => negb (Ascii.eqb c NUL)) chars = true ->
  c_str (chars ++ NUL :: rest) = Some chars.
Proof.
  induction chars as [|c chars IH]; intros H; simpl.
  - reflexivity.
  - simpl in H. apply andb_true_iff in H as [Hc H].
    apply negb_true_iff in Hc. rewrite Hc, (IH H). reflexivity.
Qed.

(** A path shorter than the buffer is read back as it was given, whatever
    the byte at [path[63]]. *)
Lemma short_path_read chars garbage :
  (length chars < 63)%nat ->
  forallb (fun c => negb (Ascii.eqb c NUL)) chars = true ->
  c_str (strncpy chars 63 ++ [garbage]) = Some chars.
Proof.
  intros Hlen Hnz. unfold strncpy.
  rewrite firstn_app, firstn_all2 by lia.
  replace (63 - length chars)%nat with (S (62 - length chars)) by lia.
  cbn [repeat firstn]. rewrite <- app_assoc. cbn [app].
  now apply c_str_app_nul.
Qed.

(** With the 64 characters of [long_path], [strncpy] fills the 63 bytes it
    may write and stores no terminator.  If the byte at [path[63]] is not
    zero the read of the path runs off the array; if it is zero the frame is
    built for the first 63 characters, a path whose last digipeater is
    WIDE8-1 and not WIDE8-15: what [gen_iq_s8] does depends on a byte that
    is not among its arguments. *)
Theorem gen_iq_s8_long_path :
  (forall (dsp : Dsp) (ax25 : Ax25) m callsign info,
      gen_iq_s8 {| path_63 := "5"%char; malloc := m |} callsign long_path info
      = Undefined) /\
  (forall (dsp : Dsp) (ax25 : Ax25) m callsign info,
      gen_iq_s8 {| path_63 := NUL; malloc := m |} callsign long_path info
      = gen_iq_s8 {| path_63 := NUL; malloc := m |} callsign truncated_path
                  info) /\
  Spec.frame_bytes "N0CALL"%string "APRS"%string truncated_path "Hello"%string
  <> Spec.frame_bytes "N0CALL"%string "APRS"%string long_path "Hello"%string /\
  (forall chars garbage,
      (length chars < 63)%nat ->
      forallb (fun c => negb (Ascii.eqb c NUL)) chars = true ->
      c_str (strncpy chars 63 ++ [garbage]) = Some chars).
Proof.
  assert (H5 : c_str (strncpy (String.list_ascii_of_string long_path) 63
                      ++ ["5"%char]) = None)
    by (vm_compute; reflexivity).
  assert (H0 : c_str (strncpy (String.list_ascii_of_string long_path) 63
                      ++ [NUL])
               = c_str (strncpy (String.list_ascii_of_string truncated_path) 63
                        ++ [NUL]))
    by (vm_compute; reflexivity).
  split; [|split; [|split]].
  - intros. unfold gen_iq_s8. cbn [path_63]. rewrite H5. reflexivity.
  - intros. unfold gen_iq_s8. cbn [path_63]. rewrite H0. reflexivity.
  - intros H. vm_compute in H. discriminate H.
  - exact short_path_read.
Qed.

(** ** Bit stuffing *)

Lemma stuff_stuffed bits : forall ones,
  (ones <= 4)%nat ->
  Spec.stuffed_ok (5 - ones) (Spec.stuff ones bits) = true.
Proof.
  induction bits as [|b rest IH]; intros ones Hones.
  - cbn [Spec.stuff Spec.stuffed_ok].
    destruct (5 - ones)%nat eqn:E; [lia | reflexivity].
  - destruct b; cbn [Spec.stuff].
    + destruct (Nat.eqb ones 4) eqn:E4.
      * apply Nat.eqb_eq in E4. subst ones.
        change (Spec.stuffed_ok 5 (Spec.stuff 0 rest) = true).
        apply (IH 0%nat). lia.
      * apply Nat.eqb_neq in E4. cbn [Spec.stuffed_ok].
        replace (5 - ones)%nat with (S (5 - S ones)) by lia.
        apply IH. lia.
    + cbn [Spec.stuffed_ok]. apply (IH 0%nat). lia.
Qed.

Lemma run_at_tail (x : bool) bits i n :
  run_at (x :: bits) (S i) n -> run_at bits i n.
Proof. intros H j Hj. exact (H j Hj). Qed.

(** In a stream that passes the check, a 0 follows every five 1s. *)
Lemma stuffed_ok_run bits : forall k i,
  (k <= 5)%nat ->
  Spec.stuffed_ok k bits = true ->
  run_at bits i 5 ->
  nth_error bits (i + 5) = Some false.
Proof.
  induction bits as [|x rest IH]; intros k i Hk Hok Hrun.
  - specialize (Hrun 0%nat ltac:(lia)). destruct i; discriminate Hrun.
  - destruct i as [|i].
    + pose proof (Hrun 0%nat ltac:(lia)) as H0.
      pose proof (Hrun 1%nat ltac:(lia)) as H1.
      pose proof (Hrun 2%nat ltac:(lia)) as H2.
      pose proof (Hrun 3%nat ltac:(lia)) as H3.
      pose proof (Hrun 4%nat ltac:(lia)) as H4.
      simpl in H0, H1, H2, H3, H4.
      destruct rest as [|x1 [|x2 [|x3 [|x4 rest]]]]; try discriminate.
      injection H0 as ->. injection H1 as ->. injection H2 as ->.
      injection H3 as ->. injection H4 as ->.
      do 6 (destruct k as [|k]; [simpl in Hok; try discriminate|]); [|lia].
      destruct rest as [|[] rest]; simpl in Hok; try discriminate.
      reflexivity.
    + apply run_at_tail in Hrun. simpl.
      destruct x; simpl in Hok.
      * destruct k as [|k]; [discriminate|].
        apply (IH k i); [lia | exact Hok | exact Hrun].
      * apply (IH 5%nat i); [lia | exact Hok | exact Hrun].
Qed.

Lemma flag_bits : Spec.bits_lsb 8 Spec.FLAG
                  = [false; true; true; true; true; true; true; false].
Proof. reflexivity. Qed.

(** C8. In the stuffed data a 0 follows every five consecutive 1 bits,
    byte boundaries playing no role, so the data holds no six consecutive
    1 bits; in the whole output of the serializer six consecutive 1 bits
    are found at two places only, bits 1 to 6 of the opening flag and bits 1
    to 6 of the closing flag, and nowhere seven. *)
Theorem serialize_runs (bytes : list Z) :
  let data := Spec.stuff 0 (flat_map (Spec.bits_lsb 8) bytes) in
  Spec.serialize bytes
  = [false; true; true; true; true; true; true; false] ++ data
    ++ [false; true; true; true; true; true; true; false] /\
  (forall i, run_at data i 5 -> nth_error data (i + 5) = Some false) /\
  (forall i, ~ run_at data i 6) /\
  (forall i, run_at (Spec.serialize bytes) i 6 ->
             i = 1%nat \/ i = (8 + length data + 1)%nat) /\
  (forall i, ~ run_at (Spec.serialize bytes) i 7).
Proof.
  intros data.
  assert (Hser : Spec.serialize bytes
                 = [false; true; true; true; true; true; true; false] ++ data
                   ++ [false; true; true; true; true; true; true; false])
    by reflexivity.
  assert (HA : forall i, run_at data i 5 -> nth_error data (i + 5) = Some false).
  { intros i. apply (stuffed_ok_run data 5 i); [lia|].
    apply (stuff_stuffed _ 0%nat). lia. }
  assert (HB : forall i, ~ run_at data i 6).
  { intros i Hrun.
    assert (H5 : run_at data i 5) by (intros j Hj; apply Hrun; lia).
    apply HA in H5. rewrite (Hrun 5%nat ltac:(lia)) in H5. discriminate H5. }
  assert (HC : forall i, run_at (Spec.serialize bytes) i 6 ->
                         i = 1%nat \/ i = (8 + length data + 1)%nat).
  { intros i Hrun. rewrite Hser in Hrun.
    set (F := [false; true; true; true; true; true; true; false]) in *.
    set (n := length data) in *.
    assert (Hat : forall p, (p < 8)%nat ->
                  nth_error (F ++ data ++ F) p = nth_error F p).
    { intros p Hp. apply nth_error_app1. simpl. lia. }
    assert (Hdata : forall p, (p < n)%nat ->
                    nth_error (F ++ data ++ F) (8 + p) = nth_error data p).
    { intros p Hp. rewrite nth_error_app2 by (simpl; lia).
      replace (8 + p - length F)%nat with p by (simpl; lia).
      apply nth_error_app1. exact Hp. }
    assert (Hend : forall p,
                   nth_error (F ++ data ++ F) (8 + n + p) = nth_error F p).
    { intros p. rewrite nth_error_app2 by (simpl; lia).
      rewrite nth_error_app2 by (simpl; fold n; lia).
      f_equal. simpl. fold n. lia. }
    destruct (Nat.eq_dec i 1) as [|Hi1]; [left; assumption|].
    destruct (Nat.eq_dec i (8 + n + 1)) as [|Hi2]; [right; assumption|].
    exfalso.
    destruct (Nat.lt_ge_cases i 8) as [Hlow|Hhigh].
    - (* the window meets bit 0 or bit 7 of the opening flag *)
      destruct (Nat.eq_dec i 0) as [->|Hi0].
      + specialize (Hrun 0%nat ltac:(lia)). rewrite Hat in Hrun by lia.
        discriminate Hrun.
      + specialize (Hrun (7 - i)%nat ltac:(lia)).
        replace (i + (7 - i))%nat with 7%nat in Hrun by lia.
        rewrite Hat in Hrun by lia. discriminate Hrun.
    - destruct (Nat.lt_ge_cases (i + 5) (8 + n)) as [Hin|Hout].
      + (* the window lies in the data *)
        apply (HB (i - 8)%nat). intros j Hj.
        specialize (Hrun j Hj).
        replace (i + j)%nat with (8 + (i - 8 + j))%nat in Hrun by lia.
        rewrite Hdata in Hrun by lia. exact Hrun.
      + destruct (Nat.le_gt_cases i (8 + n)) as [Hle|Hgt].
        * (* the window meets bit 0 of the closing flag *)
          specialize (Hrun (8 + n - i)%nat ltac:(lia)).
          replace (i + (8 + n - i))%nat with (8 + n + 0)%nat in Hrun by lia.
          rewrite Hend in Hrun. discriminate Hrun.
        * (* the window meets bit 7 of the closing flag or the end *)
          destruct (Nat.le_gt_cases i (8 + n + 7)) as [Hle7|Hgt7].
          -- specialize (Hrun (8 + n + 7 - i)%nat ltac:(lia)).
             replace (i + (8 + n + 7 - i))%nat with (8 + n + 7)%nat in Hrun
               by lia.
             rewrite Hend in Hrun. discriminate Hrun.
          -- specialize (Hrun 0%nat ltac:(lia)).
             replace (i + 0)%nat with (8 + n + (i - 8 - n))%nat in Hrun by lia.
             rewrite Hend in Hrun.
             assert (Hnone : nth_error F (i - 8 - n) = None)
               by (apply nth_error_None; simpl; lia).
             rewrite Hnone in Hrun. discriminate Hrun. }
  split; [exact Hser|]. split; [exact HA|]. split; [exact HB|].
  split; [exact HC|].
  intros i Hrun.
  assert (H1 : run_at (Spec.serialize bytes) i 6)
    by (intros j Hj; apply Hrun; lia).
  assert (H2 : run_at (Spec.serialize bytes) (S i) 6).
  { intros j Hj. replace (S i + j)%nat with (i + S j)%nat by lia.
    apply Hrun. lia. }
  apply HC in H1. apply HC in H2. lia.
Qed.

(** ** The frame check sequence *)

Lemma testbit_of_bits bs : forall i,
  0 <= i -> Z.testbit (Spec.of_bits_lsb bs) i = nth (Z.to_nat i) bs false.
Proof.
  induction bs as [|b bs IH]; intros i Hi.
  - cbn [Spec.of_bits_lsb fold_right]. rewrite Z.testbit_0_l.
    now destruct (Z.to_nat i).
  - cbn [Spec.of_bits_lsb fold_right]. fold (Spec.of_bits_lsb bs).
    replace (Z.b2z b + 2 * Spec.of_bits_lsb bs)
      with (2 * Spec.of_bits_lsb bs + Z.b2z b) by lia.
    destruct (Z.eq_dec i 0) as [->|Hnz].
    + now rewrite Z.testbit_0_r.
    + replace i with (Z.succ (i - 1)) at 1 by lia.
      rewrite Z.testbit_succ_r by lia. rewrite IH by lia.
      replace (Z.to_nat i) with (S (Z.to_nat (i - 1))) by lia.
      reflexivity.
Qed.

Lemma nth_bits_lsb n z j :
  (j < n)%nat -> nth j (Spec.bits_lsb n z) false = Z.testbit z (Z.of_nat j).
Proof.
  intros Hj. unfold Spec.bits_lsb.
  rewrite (nth_indep _ false (Z.testbit z (Z.of_nat 0)))
    by (rewrite length_map, length_seq; exact Hj).
  rewrite (map_nth (fun i => Z.testbit z (Z.of_nat i)) (seq 0 n) 0%nat j).
  now rewrite seq_nth by exact Hj.
Qed.

(** Bit [i] of the reflection is bit [n - 1 - i]. *)
Lemma testbit_reflect n z i :
  0 <= i ->
  Z.testbit (Spec.reflect n z) i
  = if i <? Z.of_nat n then Z.testbit z (Z.of_nat n - 1 - i) else false.
Proof.
  intros Hi. unfold Spec.reflect. rewrite testbit_of_bits by exact Hi.
  destruct (i <? Z.of_nat n) eqn:Hlt.
  - apply Z.ltb_lt in Hlt.
    rewrite rev_nth by (rewrite bits_lsb_length; lia).
    rewrite bits_lsb_length, nth_bits_lsb by lia. f_equal. lia.
  - apply Z.ltb_ge in Hlt. apply nth_overflow.
    rewrite length_rev, bits_lsb_length. lia.
Qed.

Lemma bits_lsb_reflect n z :
  Spec.bits_lsb n (Spec.reflect n z) = rev (Spec.bits_lsb n z).
Proof.
  apply nth_ext with (d := false) (d' := false).
  - now rewrite length_rev, !bits_lsb_length.
  - intros j Hj. rewrite bits_lsb_length in Hj.
    rewrite nth_bits_lsb by exact Hj.
    rewrite testbit_reflect by lia.
    replace (Z.of_nat j <? Z.of_nat n) with true by (symmetry; apply Z.ltb_lt; lia).
    rewrite rev_nth by (rewrite bits_lsb_length; exact Hj).
    rewrite bits_lsb_length, nth_bits_lsb by lia. f_equal. lia.
Qed.

Lemma reflect_poly : Spec.reflect 16 4129 = 33800.
Proof. reflexivity. Qed.

(** One step of the reference register, reflected, is one step of the FCS
    register on the reflected register. *)
Lemma step_reflect reg b :
  Spec.reflect 16 (Spec.crc_step 16 4129 reg b)
  = Spec.fcs_step (Spec.reflect 16 reg) b.
Proof.
  unfold Spec.crc_step, Spec.fcs_step.
  change (Z.of_nat 16 - 1) with 15.
  rewrite (testbit_reflect 16 reg 0) by lia.
  change (0 <? Z.of_nat 16) with true. cbv iota.
  change (Z.of_nat 16 - 1 - 0) with 15.
  assert (Hshift : forall i, 0 <= i ->
            Z.testbit (Spec.reflect 16 (Z.shiftl reg 1 mod 2 ^ Z.of_nat 16)) i
            = Z.testbit (Z.shiftr (Spec.reflect 16 reg) 1) i).
  { intros i Hi. rewrite Z.shiftr_spec by exact Hi.
    rewrite !testbit_reflect by lia. change (Z.of_nat 16) with 16.
    destruct (i <? 16) eqn:Hlt.
    - apply Z.ltb_lt in Hlt.
      rewrite Z.mod_pow2_bits_low by lia. rewrite Z.shiftl_spec by lia.
      destruct (i + 1 <? 16) eqn:Hlt'.
      + f_equal. lia.
      + apply Z.ltb_ge in Hlt'. apply Z.testbit_neg_r. lia.
    - apply Z.ltb_ge in Hlt.
      replace (i + 1 <? 16) with false by (symmetry; apply Z.ltb_ge; lia).
      reflexivity. }
  destruct (xorb (Z.testbit reg 15) b).
  - apply Z.bits_inj'. intros i Hi.
    rewrite Z.lxor_spec, <- Hshift, <- reflect_poly by exact Hi.
    rewrite !testbit_reflect by exact Hi.
    destruct (i <? Z.of_nat 16); [apply Z.lxor_spec | reflexivity].
  - apply Z.bits_inj'. exact Hshift.
Qed.

Lemma fold_step_reflect bits : forall r,
  fold_left Spec.fcs_step bits (Spec.reflect 16 r)
  = Spec.reflect 16 (fold_left (Spec.crc_step 16 4129) bits r).
Proof.
  induction bits as [|b bits IH]; intros r; [reflexivity|].
  cbn [fold_left]. rewrite <- step_reflect. apply IH.
Qed.

Lemma fold_left_flat_map {A B C : Type} (f : A -> B -> A) (g : C -> list B) l :
  forall a,
  fold_left f (flat_map g l) a = fold_left (fun a x => fold_left f (g x) a) l a.
Proof.
  induction l as [|x l IH]; intros a; [reflexivity|].
  cbn [flat_map fold_left]. now rewrite fold_left_app, IH.
Qed.

Lemma fold_left_congr {A B : Type} (f g : A -> B -> A) l :
  (forall a x, f a x = g a x) ->
  forall a, fold_left f l a = fold_left g l a.
Proof.
  intros H. induction l as [|x l IH]; intros a; [reflexivity|].
  cbn [fold_left]. now rewrite H, IH.
Qed.

Lemma fcs_crc16 bytes : Spec.fcs bytes = Spec.crc16_itu bytes.
Proof.
  unfold Spec.fcs, Spec.fcs_register, Spec.crc16_itu, Spec.crc.
  f_equal. change 65535 with (Spec.reflect 16 65535) at 1.
  rewrite fold_step_reflect. f_equal.
  rewrite fold_left_flat_map.
  apply fold_left_congr. intros reg byte.
  now rewrite bits_lsb_reflect, rev_involutive.
Qed.

Lemma frame_bytes_fcs callsign dest path info bytes :
  Spec.frame_bytes callsign dest path info = Ret bytes ->
  exists body, bytes = body ++ Spec.fcs_bytes body.
Proof.
  unfold Spec.frame_bytes. intros H.
  repeat match type of H with
         | context [match ?x with _ => _ end] =>
             destruct x eqn:?; try discriminate H
         end.
  all: injection H as <-; eexists; reflexivity.
Qed.

(** C7 (as amended). The FCS of the frame builder is the reference ITU-T
    CRC-16 (polynomial 0x1021, initial value 0xFFFF, input and output
    reflected, final XOR 0xFFFF) of the bytes before it.  For "123456789"
    it is 0x906E, which is the value after the final XOR (the register
    holds 0x6F91 before it); the frame carries this value, low byte (0x6E)
    first, then high byte (0x90). *)
Theorem fcs_crc16_itu :
  (forall bytes, Spec.fcs bytes = Spec.crc16_itu bytes) /\
  Spec.fcs check_message = 0x906E /\
  Spec.fcs_register check_message = 0x6F91 /\
  Spec.fcs_bytes check_message = [0x6E; 0x90] /\
  (forall callsign dest path info bytes,
      Spec.frame_bytes callsign dest path info = Ret bytes ->
      exists body,
        bytes = body ++ [Spec.fcs body mod 256; Spec.fcs body / 256]).
Proof.
  split; [exact fcs_crc16|].
  split; [vm_compute; reflexivity|].
  split; [vm_compute; reflexivity|].
  split; [vm_compute; reflexivity|].
  exact frame_bytes_fcs.
Qed.

(** C7 as stated fails: before the complement the register does not hold
    0x906E for "123456789". *)
Lemma fcs_check_before_complement :
  Spec.fcs_register check_message <> 0x906E.
Proof. vm_compute. discriminate. Qed.

(** ** The sample sink: when it has a value *)

Lemma scale_s8_not_finite x :
  x = S754_nan \/ (exists s, x = S754_infinity s) -> scale_s8 x = None.
Proof. intros [-> | [s ->]]; reflexivity. Qed.

(** X1. For an input whose size is an [int], [f32_to_s8] has a value exactly
    when the input has at most [2^30] samples (beyond that the index [i * 2]
    overflows [int]) and every sample is one whose two scaled components
    truncate into the range of [int8_t]; a NaN or an infinity anywhere in the
    input leaves it without one. *)
Theorem f32_to_s8_defined (input : list complexf) :
  Z.of_nat (length input) <= MachInt.INT_MAX ->
  (f32_to_s8 input <> None <->
   Z.of_nat (length input) <= 2 ^ 30 /\
   forallb s8_representable input = true) /\
  (forall c, In c input ->
     real c = S754_nan \/ imag c = S754_nan \/
     (exists s, real c = S754_infinity s) \/
     (exists s, imag c = S754_infinity s) ->
     f32_to_s8 input = None).
Proof.
  intros Hsize.
  assert (Hrun : f32_to_s8 input
                 = f32_to_s8_loop input 0 (repeat 0 (length input * 2))).
  { unfold f32_to_s8. rewrite to_int_id by lia. now rewrite Nat2Z.id, firstn_all. }
  assert (Hiff : f32_to_s8 input <> None <->
                 Z.of_nat (length input) <= 2 ^ 30 /\
                 forallb s8_representable input = true).
  { split.
    - intros Hdef. rewrite Hrun in Hdef.
      destruct (f32_to_s8_loop input 0 (repeat 0 (length input * 2)))
        as [out|] eqn:E; [|now elim Hdef].
      destruct (f32_to_s8_loop_defined _ _ _ _ E) as [Hrep Hmax].
      split; [|exact Hrep].
      destruct input as [|c rest]; [simpl; lia|].
      assert (Hne : c :: rest <> []) by discriminate.
      specialize (Hmax Hne). exact Hmax.
    - intros [Hmax Hrep] Hnone.
      destruct (f32_to_s8_loop_spec input 0 [] Hrep eq_refl Hmax)
        as (out & _ & Hloop & _).
      cbn [app] in Hloop. rewrite Hrun, Hloop in Hnone. discriminate Hnone. }
  split; [exact Hiff|].
  intros c Hin Hbad.
  destruct (f32_to_s8 input) eqn:E; [|reflexivity]. exfalso.
  assert (Hrep : forallb s8_representable input = true)
    by (apply Hiff; discriminate).
  rewrite forallb_forall in Hrep. specialize (Hrep c Hin).
  unfold s8_representable in Hrep.
  destruct Hbad as [H | [H | [H | H]]].
  - rewrite (scale_s8_not_finite (real c)) in Hrep by (left; exact H).
    discriminate Hrep.
  - rewrite (scale_s8_not_finite (imag c)) in Hrep by (left; exact H).
    destruct (scale_s8 (real c)); discriminate Hrep.
  - rewrite (scale_s8_not_finite (real c)) in Hrep by (right; exact H).
    discriminate Hrep.
  - rewrite (scale_s8_not_finite (imag c)) in Hrep by (right; exact H).
    destruct (scale_s8 (real c)); discriminate Hrep.
Qed.

Lemma f32_to_s8_defined_witness :
  f32_to_s8 [Cplx F32.one F32.zero; Cplx S754_nan F32.zero] = None.
Proof.
  apply (proj2 (f32_to_s8_defined [Cplx F32.one F32.zero; Cplx S754_nan F32.zero]
                  ltac:(vm_compute; discriminate))
               (Cplx S754_nan F32.zero)).
  - right. left. reflexivity.
  - left. reflexivity.
Defined.

(** ** How [modulate] walks the waveform *)

Section Walk.

Context {dsp : Dsp}.
Variable waveform : list F32.t.
Variable iq_sf : OutputFormat.
Hypothesis Hfit : Z.of_nat (length waveform) <= MachInt.INT_MAX.

Let N : Z := Z.of_nat (length waveform).
Let B : Z := Z.pos BUFSIZE.

Lemma size_fits : MachInt.to_int (Z.of_nat (length waveform)) = N.
Proof. apply to_int_id. unfold N. lia. Qed.

(** Iteration [j] starts at sample [j * BUFSIZE] and takes [BUFSIZE] samples,
    or what is left of the waveform. *)
Lemma run_from_offsets its : forall st st',
  0 <= offset st ->
  run_from waveform iq_sf st its st' ->
  forall j it, nth_error its j = Some it ->
    it_offset it = offset st + Z.of_nat j * B /\
    Z.of_nat (length (it_chunk it)) = Z.min B (N - it_offset it).
Proof.
  assert (HB : 0 < B) by (unfold B; lia).
  induction its as [|it0 rest IH]; intros st st' Hoff Hrun j it Hj.
  - destruct j; discriminate Hj.
  - cbn [run_from] in Hrun. rewrite size_fits in Hrun. fold B in Hrun.
    destruct Hrun as (Hlt & Ho & Hch & _ & _ & _ & _ & interp' & _ & Hrest).
    destruct j as [|j].
    + injection Hj as <-. split; [lia|].
      rewrite Ho, Hch, length_firstn, length_skipn. unfold N in *. lia.
    + cbn [nth_error] in Hj.
      destruct (it_processed it0 =? 0).
      * destruct Hrest as (_ & -> & _). destruct j; discriminate Hj.
      * destruct Hrest as (_ & Hrest).
        assert (Hnext : offset st + Z.min B (N - offset st) < N).
        { destruct rest as [|it1 rest']; [destruct j; discriminate Hj|].
          cbn [run_from] in Hrest. rewrite size_fits in Hrest.
          destruct Hrest as (Hlt' & _). cbn [next_state offset] in Hlt'.
          exact Hlt'. }
        assert (H0 : 0 <= offset (next_state (Z.min B (N - offset st)) st it0
                                             interp'))
          by (cbn [next_state offset]; lia).
        destruct (IH _ _ H0 Hrest j it Hj) as [Hio Hlen].
        cbn [next_state offset] in Hio. split; [lia | exact Hlen].
Qed.

(** At most one iteration for each [BUFSIZE] samples, rounded up. *)
Lemma run_from_count its : forall st st',
  0 <= offset st <= N ->
  run_from waveform iq_sf st its st' ->
  Z.of_nat (length its) <= (N - offset st + B - 1) / B.
Proof.
  assert (HB : 0 < B) by (unfold B; lia).
  induction its as [|it0 rest IH]; intros st st' Hoff Hrun.
  - cbn [length]. apply Z.div_pos; lia.
  - cbn [run_from] in Hrun. rewrite size_fits in Hrun. fold B in Hrun.
    destruct Hrun as (Hlt & _ & _ & _ & _ & _ & _ & interp' & _ & Hrest).
    assert (Hone : 1 <= (N - offset st + B - 1) / B).
    { apply Z.div_le_lower_bound; lia. }
    destruct (it_processed it0 =? 0).
    + destruct Hrest as (_ & -> & _). cbn [length]. lia.
    + destruct Hrest as (_ & Hrest).
      destruct (Z.le_gt_cases B (N - offset st)) as [Hfull|Hlast].
      * apply IH in Hrest; [|cbn [next_state offset]; lia].
        cbn [next_state offset] in Hrest.
        rewrite Z.min_l in Hrest by lia.
        replace (N - offset st + B - 1) with (N - (offset st + B) + B - 1 + 1 * B)
          by lia.
        rewrite Z.div_add by lia. cbn [length]. lia.
      * destruct rest as [|it1 rest'].
        -- cbn [length]. lia.
        -- cbn [run_from] in Hrest. rewrite size_fits in Hrest.
           destruct Hrest as (Hlt' & _). cbn [next_state offset] in Hlt'. lia.
Qed.

(** When no call of the interpolator returns 0 the loop ends with the
    waveform exhausted, every sample having been handed to [fmmod]. *)
Lemma run_from_complete its : forall st st',
  0 <= offset st <= N ->
  run_from waveform iq_sf st its st' ->
  Forall (fun it => it_processed it <> 0) its ->
  offset st' = N /\
  concat (map it_chunk its) = skipn (Z.to_nat (offset st)) waveform.
Proof.
  induction its as [|it0 rest IH]; intros st st' Hoff Hrun Hnz.
  - cbn [run_from] in Hrun. rewrite size_fits in Hrun.
    destruct Hrun as [Hge ->]. split; [lia|].
    cbn [map concat]. symmetry. apply skipn_all2. unfold N in *. lia.
  - cbn [run_from] in Hrun. rewrite size_fits in Hrun. fold B in Hrun.
    destruct Hrun as (Hlt & _ & Hch & _ & _ & _ & _ & interp' & _ & Hrest).
    apply Forall_cons_iff in Hnz as [Hnz0 Hnz].
    replace (it_processed it0 =? 0) with false in Hrest
      by (symmetry; now apply Z.eqb_neq).
    destruct Hrest as (_ & Hrest).
    apply IH in Hrest; [|cbn [next_state offset]; lia | exact Hnz].
    cbn [next_state offset] in Hrest. destruct Hrest as [Hend Hcat].
    split; [exact Hend|].
    cbn [map concat]. rewrite Hcat, Hch.
    replace (Z.to_nat (offset st + Z.min B (N - offset st)))
      with (Z.to_nat (Z.min B (N - offset st)) + Z.to_nat (offset st))%nat
      by lia.
    rewrite <- skipn_skipn. apply firstn_skipn.
Qed.

(** A call of the interpolator that returns 0 is the last thing the loop
    does: the offset stays where it was, the ring buffer keeps what [fmmod]
    stored, and what was written before is all that is written. *)
Lemma run_from_break its : forall st st',
  run_from waveform iq_sf st its st' ->
  forall it, In it its -> it_processed it = 0 ->
  exists pre,
    its = pre ++ [it] /\
    Forall (fun it' => it_processed it' <> 0) pre /\
    offset st' = it_offset it /\
    mod_buf st' = it_mod_buf it /\
    last_phase st' = it_phase_out it /\
    fout st' = fout st ++ concat (map it_written pre).
Proof.
  induction its as [|it0 rest IH]; intros st st' Hrun it Hin Hz.
  - destruct Hin.
  - cbn [run_from] in Hrun.
    destruct Hrun as (_ & Ho & _ & _ & _ & _ & _ & interp' & _ & Hrest).
    destruct (it_processed it0 =? 0) eqn:Hp.
    + destruct Hrest as (_ & -> & ->).
      destruct Hin as [<- | []].
      exists []. cbn [app map concat break_state offset mod_buf last_phase fout].
      rewrite app_nil_r. repeat split; auto.
    + apply Z.eqb_neq in Hp. destruct Hrest as (_ & Hrest).
      destruct Hin as [<- | Hin]; [contradiction|].
      destruct (IH _ _ Hrest it Hin Hz) as (pre & -> & Hpre & Hoff & Hbuf & Hph & Hout).
      exists (it0 :: pre). cbn [next_state fout] in Hout.
      cbn [app map concat]. rewrite Hout, <- app_assoc.
      repeat split; auto.
Qed.

End Walk.

(** X2. For a waveform of at most [INT_MAX] samples: iteration [j] of
    [modulate] starts at sample [j * BUFSIZE] and hands [fmmod] the next
    [BUFSIZE] samples, or the rest of the waveform if it is shorter; there
    are at most ceil(N / BUFSIZE) iterations.  If no call of the
    interpolator returns 0, the loop ends with every sample of the waveform
    handed to [fmmod]; a call that returns 0 is the last one, and the
    samples after its chunk are never read. *)
Theorem modulate_walk {dsp : Dsp} (waveform : list F32.t)
  (iq_sf : OutputFormat) (st : mstate) :
  Z.of_nat (length waveform) <= MachInt.INT_MAX ->
  modulate_run waveform iq_sf = Some st ->
  (forall j it, nth_error (trace st) j = Some it ->
     it_offset it = Z.of_nat j * Z.pos BUFSIZE /\
     Z.of_nat (length (it_chunk it))
     = Z.min (Z.pos BUFSIZE) (Z.of_nat (length waveform) - it_offset it)) /\
  Z.of_nat (length (trace st))
  <= (Z.of_nat (length waveform) + Z.pos BUFSIZE - 1) / Z.pos BUFSIZE /\
  (Forall (fun it => it_processed it <> 0) (trace st) ->
   offset st = Z.of_nat (length waveform) /\
   concat (map it_chunk (trace st)) = waveform) /\
  (forall it, In it (trace st) -> it_processed it = 0 ->
     exists pre,
       trace st = pre ++ [it] /\
       Forall (fun it' => it_processed it' <> 0) pre /\
       offset st = it_offset it /\
       mod_buf st = it_mod_buf it /\
       fout st = concat (map it_written pre)).
Proof.
  intros Hfit Hrun.
  destruct (modulate_run_from _ _ _ Hrun) as [Hfrom _].
  split; [|split; [|split]].
  - intros j it Hj.
    destruct (run_from_offsets waveform iq_sf Hfit (trace st) modulate_init st
                (Z.le_refl 0) Hfrom j it Hj) as [Ho Hl].
    cbn [modulate_init offset] in Ho. split; [lia | exact Hl].
  - pose proof (run_from_count waveform iq_sf Hfit (trace st) modulate_init st
                  ltac:(cbn [modulate_init offset]; lia) Hfrom) as H.
    cbn [modulate_init offset] in H.
    replace (Z.of_nat (length waveform) - 0 + Z.pos BUFSIZE - 1)
      with (Z.of_nat (length waveform) + Z.pos BUFSIZE - 1) in H by lia.
    exact H.
  - intros Hnz.
    destruct (run_from_complete waveform iq_sf Hfit (trace st) modulate_init st
                ltac:(cbn [modulate_init offset]; lia) Hfrom Hnz) as [He Hc].
    split; [exact He | exact Hc].
  - intros it Hin Hz.
    destruct (run_from_break waveform iq_sf (trace st) modulate_init st
                Hfrom it Hin Hz) as (pre & Ht & Hpre & Ho & Hb & _ & Hout).
    exists pre. repeat split; auto.
Qed.

Lemma modulate_walk_witness :
  exists st,
    @modulate_run (dsp_delay_line 16) one_bit_wave IQ_S8 = Some st /\
    Z.of_nat (length (trace st))
    <= (Z.of_nat (length one_bit_wave) + 16 - 1) / 16.
Proof.
  pose proof delay_line_run_facts as F.
  destruct (@modulate_run (dsp_delay_line 16) one_bit_wave IQ_S8) as [st|] eqn:E.
  - exists st. split; [reflexivity|].
    exact (proj1 (proj2 (@modulate_walk (dsp_delay_line 16) one_bit_wave IQ_S8 st
                           ltac:(vm_compute; discriminate) E))).
  - discriminate F.
Defined.

(** ** The output format does not steer the loop *)

Lemma complexf_bytes_length c : length (complexf_bytes c) = 8%nat.
Proof. reflexivity. Qed.

Lemma iq_f32_bytes_length buf :
  length (flat_map complexf_bytes buf) = (length buf * 8)%nat.
Proof.
  induction buf as [|c buf IH]; [reflexivity|].
  cbn [flat_map]. rewrite length_app, complexf_bytes_length, IH.
  cbn [length]. lia.
Qed.

Section Formats.

Context {dsp : Dsp}.
Variable waveform : list F32.t.

(** In [IQ_F32] mode no step of the loop can be undefined, and the bytes
    written are those of the interpolated samples. *)
Lemma modulate_loop_f32 fuel : forall st,
  fout st = flat_map complexf_bytes (interpolated (trace st)) ->
  exists st',
    modulate_loop fuel waveform IQ_F32 st = Some st' /\
    fout st' = flat_map complexf_bytes (interpolated (trace st')).
Proof.
  induction fuel as [|fuel IH]; intros st Hout.
  - exists st. split; [reflexivity | exact Hout].
  - cbn [modulate_loop].
    destruct (offset st <? _); [|exists st; split; [reflexivity | exact Hout]].
    destruct (fmmod _ _ _ _) as [buf phase].
    destruct (interpolate _ _) as [[interp' interp_buf] processed].
    destruct (processed =? 0) eqn:Hp.
    + eexists. split; [reflexivity|]. cbn [fout trace].
      unfold interpolated in *. rewrite flat_map_app. cbn [flat_map it_processed].
      rewrite Hp, !app_nil_r. exact Hout.
    + cbn [sink bind]. apply IH. cbn [fout trace].
      unfold interpolated in *. rewrite flat_map_app.
      cbn [flat_map it_processed it_interp_buf].
      rewrite Hp, app_nil_r, flat_map_app, Hout. reflexivity.
Qed.

(** A defined [IQ_S8] run and the [IQ_F32] run from a state with the same
    control part go through the same iterations, and [IQ_F32] writes four
    times as many bytes. *)
Lemma modulate_loop_formats fuel : forall a b a',
  same_control a b ->
  modulate_loop fuel waveform IQ_S8 a = Some a' ->
  exists b',
    modulate_loop fuel waveform IQ_F32 b = Some b' /\
    same_control a' b' /\
    (length (fout b) = (4 * length (fout a))%nat ->
     length (fout b') = (4 * length (fout a'))%nat).
Proof.
  induction fuel as [|fuel IH]; intros a b a' Hab Hrun.
  - cbn [modulate_loop] in *. injection Hrun as <-. exists b. auto.
  - destruct Hab as (Hph & Hoff & Hbuf & Hint & Htr).
    cbn [modulate_loop] in *. rewrite <- Hph, <- Hoff, <- Hbuf, <- Hint.
    destruct (offset a <? _).
    2:{ injection Hrun as <-. exists b. repeat split; auto. }
    destruct (fmmod _ _ _ _) as [buf phase].
    destruct (interpolate _ _) as [[interp' interp_buf] processed].
    destruct (processed =? 0).
    + injection Hrun as <-. eexists. split; [reflexivity|].
      split; [|cbn [fout]; auto].
      repeat split; cbn [last_phase offset mod_buf interp trace]; auto.
      rewrite !map_app, Htr. reflexivity.
    + destruct (sink IQ_S8 interp_buf) as [bytes|] eqn:Hs; [|discriminate Hrun].
      cbn [bind] in Hrun. cbn [sink bind].
      eapply IH in Hrun as (b' & Hb' & Hsame & Hlen).
      * exists b'. split; [exact Hb'|]. split; [exact Hsame|].
        intros H. apply Hlen. cbn [fout]. rewrite !length_app, H.
        rewrite iq_f32_bytes_length, (sink_s8_length _ _ Hs). lia.
      * repeat split; cbn [last_phase offset mod_buf interp trace]; auto.
        rewrite !map_app, Htr. reflexivity.
Qed.

End Formats.

(** X3. In [IQ_F32] mode [modulate] is defined on every waveform, whatever
    the samples are (no conversion of it can be out of range), and the bytes
    written are the little-endian binary32 encodings of the samples the
    interpolator returned in the calls that consumed something: 8 bytes for
    each. *)
Theorem modulate_f32_defined {dsp : Dsp} (waveform : list F32.t) :
  exists st,
    modulate_run waveform IQ_F32 = Some st /\
    modulate waveform IQ_F32
    = Some (flat_map complexf_bytes (interpolated (trace st))) /\
    length (fout st) = (8 * length (interpolated (trace st)))%nat.
Proof.
  destruct (modulate_loop_f32 waveform (length waveform) modulate_init
              eq_refl) as (st & Hrun & Hout).
  change (modulate_run waveform IQ_F32 = Some st) in Hrun.
  exists st. split; [exact Hrun|].
  unfold modulate. rewrite Hrun.
  cbn [bind]. rewrite Hout. split; [reflexivity|].
  rewrite iq_f32_bytes_length. lia.
Qed.

(** X4. Whenever the [IQ_S8] run of a waveform is defined, the [IQ_F32] run
    goes through the same iterations (same chunks, phases, ring buffers and
    interpolator results), ends at the same offset with the same ring buffer
    and phase, and writes exactly four times as many bytes. *)
Theorem modulate_formats_agree {dsp : Dsp} (waveform : list F32.t)
  (s8 : mstate) :
  modulate_run waveform IQ_S8 = Some s8 ->
  exists f32,
    modulate_run waveform IQ_F32 = Some f32 /\
    map unwritten (trace f32) = map unwritten (trace s8) /\
    offset f32 = offset s8 /\
    mod_buf f32 = mod_buf s8 /\
    last_phase f32 = last_phase s8 /\
    length (fout f32) = (4 * length (fout s8))%nat.
Proof.
  intros Hrun.
  destruct (modulate_loop_formats waveform (length waveform)
              modulate_init modulate_init s8
              (conj eq_refl (conj eq_refl (conj eq_refl (conj eq_refl eq_refl))))
              Hrun) as (f32 & Hf & (Hph & Hoff & Hbuf & _ & Htr) & Hlen).
  exists f32. repeat split; auto.
Qed.

Lemma modulate_formats_agree_witness :
  exists s8 f32,
    @modulate_run (dsp_delay_line 16) one_bit_wave IQ_S8 = Some s8 /\
    @modulate_run (dsp_delay_line 16) one_bit_wave IQ_F32 = Some f32 /\
    length (fout f32) = (4 * length (fout s8))%nat.
Proof.
  pose proof delay_line_run_facts as F.
  destruct (@modulate_run (dsp_delay_line 16) one_bit_wave IQ_S8) as [s8|] eqn:E.
  - destruct (@modulate_formats_agree (dsp_delay_line 16) one_bit_wave s8 E)
      as (f32 & Hf & _ & _ & _ & _ & Hlen).
    exists s8, f32. auto.
  - discriminate F.
Defined.

(** ** [gen_iq_s8] and [run_aprs] *)

Lemma nth_upd_other {A : Type} (l : list A) : forall i j x d,
  i <> j -> nth i (upd j x l) d = nth i l d.
Proof.
  induction l as [|y l IH]; intros i j x d Hij; [now destruct j|].
  destruct j as [|j], i as [|i]; cbn [upd nth]; try reflexivity.
  - now elim Hij.
  - apply IH. lia.
Qed.

Lemma nth_upd_same {A : Type} (l : list A) : forall j x d,
  (j < length l)%nat -> nth j (upd j x l) d = x.
Proof.
  induction l as [|y l IH]; intros j x d Hj; cbn [length] in Hj; [lia|].
  destruct j as [|j]; cbn [upd nth]; [reflexivity|]. apply IH. lia.
Qed.

Lemma last_nth_pred {A : Type} (l : list A) d :
  last l d = nth (length l - 1) l d.
Proof.
  induction l as [|x l IH]; [reflexivity|].
  destruct l as [|y l]; [reflexivity|].
  change (last (x :: y :: l) d) with (last (y :: l) d). rewrite IH.
  cbn [length]. replace (S (S (length l)) - 1)%nat with (S (length l)) by lia.
  cbn [nth]. now replace (S (length l) - 1)%nat with (length l) by lia.
Qed.

(** The block holds the data up to its last byte but one. *)
Lemma fmemopen_write_prefix block size data i :
  (i < Nat.min (length data) (size - 1))%nat ->
  nth i (fmemopen_write block size data) 0 = nth i data 0.
Proof.
  intros Hi. unfold fmemopen_write.
  destruct data as [|d data]; [cbn [length] in Hi; lia|].
  set (l := d :: data) in *.
  destruct (Nat.ltb size (length l)
            && Nat.leb size (if negb (last l 1 =? 0) then 1 else 0)) eqn:E.
  { apply andb_true_iff in E as [_ E]. apply Nat.leb_le in E.
    destruct (negb (last l 1 =? 0)); lia. }
  assert (Hs : nth i (firstn size l
                      ++ map block (seq (length l) (size - length l))) 0
               = nth i l 0).
  { rewrite app_nth1 by (rewrite length_firstn; lia).
    rewrite nth_firstn.
    destruct (Nat.ltb_spec i size) as [_|Hge]; [reflexivity | lia]. }
  destruct (negb (last l 1 =? 0)); [|exact Hs].
  rewrite nth_upd_other by lia. exact Hs.
Qed.

(** When the data fills the block its last byte is zero. *)
Lemma fmemopen_write_full block data :
  data <> [] -> last (fmemopen_write block (length data) data) 1 = 0.
Proof.
  intros Hne. rewrite last_nth_pred, fmemopen_write_length.
  unfold fmemopen_write.
  destruct data as [|d data]; [now elim Hne|].
  set (l := d :: data) in *.
  rewrite Nat.ltb_irrefl. cbn [andb].
  rewrite Nat.sub_diag. cbn [seq map]. rewrite app_nil_r, firstn_all.
  destruct (last l 1 =? 0) eqn:E; cbn [negb].
  - apply Z.eqb_eq in E. now rewrite <- last_nth_pred.
  - assert (Hl : (0 < length l)%nat) by (subst l; cbn [length]; lia).
    replace (Nat.min (length l) (length l - 1)) with (length l - 1)%nat by lia.
    apply nth_upd_same. lia.
Qed.

Lemma c_chars_no_nul s :
  forallb (fun c => negb (Ascii.eqb c NUL)) (c_chars s) = true.
Proof.
  induction s as [|c s IH]; [reflexivity|].
  cbn [c_chars]. destruct (Ascii.eqb c NUL) eqn:E; [reflexivity|].
  cbn [forallb]. now rewrite E, IH.
Qed.

(** X5. The library entry point and the command line program agree.  For a
    configuration whose destination is APRS and whose format is [IQ_S8], with
    a callsign and an information field that are not empty and a path of
    fewer than 63 characters, [gen_iq_s8] called with the C strings of its
    callsign, path and information field fails exactly as [run_aprs] fails
    (same validation error, or undefined behaviour in both).  Where
    [run_aprs] returns 0, the block [gen_iq_s8] returns holds the bytes
    [run_aprs] wrote at every index before the last byte of the block, and
    when these bytes fill the block exactly its last byte is the zero byte
    the memory stream stores there. *)
Theorem gen_iq_s8_as_run_aprs {dsp : Dsp} {ax25 : Ax25} (env : c_env)
  (config : Config) (fopen_ok : bool) :
  string_c_str (dest config) = "APRS"%string ->
  iq_sf config = IQ_S8 ->
  empty (callsign config) = false ->
  empty (info config) = false ->
  empty (output config) || fopen_ok = true ->
  (length (c_chars (String.list_ascii_of_string (path config))) < 63)%nat ->
  (forall size, malloc env size <> None) ->
  match run_aprs fopen_ok config with
  | Ret (code, written) =>
      code = 0 /\
      exists total buf,
        gen_iq_s8 env (string_c_str (callsign config))
                  (string_c_str (path config)) (string_c_str (info config))
        = Ret (total, Some buf) /\
        (forall i, (i < Nat.min (length written) (length buf - 1))%nat ->
                   nth i buf 0 = nth i written 0) /\
        (written <> [] -> length written = length buf -> last buf 1 = 0)
  | Throw e =>
      gen_iq_s8 env (string_c_str (callsign config))
                (string_c_str (path config)) (string_c_str (info config))
      = Throw e
  | Undefined =>
      gen_iq_s8 env (string_c_str (callsign config))
                (string_c_str (path config)) (string_c_str (info config))
      = Undefined
  end.
Proof.
  intros Hdest Hfmt Hcall Hinfo Hout Hlen Hmalloc.
  assert (Hpath :
            c_str (strncpy (String.list_ascii_of_string
                              (string_c_str (path config))) 63
                   ++ [path_63 env])
            = Some (c_chars (String.list_ascii_of_string (path config)))).
  { unfold string_c_str. rewrite String.list_ascii_of_string_of_list_ascii.
    exact (short_path_read _ (path_63 env) Hlen (c_chars_no_nul _)). }
  unfold run_aprs, gen_iq_s8, callsignUsed, infoUsed.
  rewrite Hcall, Hinfo, Hdest, Hfmt, Hpath. cbn [negb of_option obind].
  fold (string_c_str (path config)).
  destruct (ax25frame _ _ _ _ _) as [frame| |]; cbn [obind]; [|reflexivity..].
  replace (negb (empty (output config)) && negb fopen_ok) with false
    by (destruct (empty (output config)), fopen_ok; cbn in *; congruence).
  destruct (malloc env _) as [block|] eqn:Hm; [|now apply Hmalloc in Hm].
  destruct (modulate _ IQ_S8) as [written|]; cbn [of_option obind];
    [|reflexivity].
  split; [reflexivity|].
  eexists _, _. split; [reflexivity|]. split.
  - intros i Hi. rewrite fmemopen_write_length in Hi.
    now apply fmemopen_write_prefix.
  - intros Hne Hfull. rewrite fmemopen_write_length in Hfull.
    rewrite <- Hfull. now apply fmemopen_write_full.
Qed.

Lemma gen_iq_s8_as_run_aprs_witness :
  match @run_aprs (dsp_delay_line 16) ax25_spec true (with_iq_sf IQ_S8 smoke_config)
  with
  | Ret (code, written) =>
      code = 0 /\
      exists total buf,
        @gen_iq_s8 (dsp_delay_line 16) ax25_spec (env_zeroed "x"%char)
          (string_c_str (callsign (with_iq_sf IQ_S8 smoke_config)))
          (string_c_str (path (with_iq_sf IQ_S8 smoke_config)))
          (string_c_str (info (with_iq_sf IQ_S8 smoke_config)))
        = Ret (total, Some buf) /\
        (forall i, (i < Nat.min (length written) (length buf - 1))%nat ->
                   nth i buf 0 = nth i written 0) /\
        (written <> [] -> length written = length buf -> last buf 1 = 0)
  | Throw e =>
      @gen_iq_s8 (dsp_delay_line 16) ax25_spec (env_zeroed "x"%char)
        (string_c_str (callsign (with_iq_sf IQ_S8 smoke_config)))
        (string_c_str (path (with_iq_sf IQ_S8 smoke_config)))
        (string_c_str (info (with_iq_sf IQ_S8 smoke_config))) = Throw e
  | Undefined =>
      @gen_iq_s8 (dsp_delay_line 16) ax25_spec (env_zeroed "x"%char)
        (string_c_str (callsign (with_iq_sf IQ_S8 smoke_config)))
        (string_c_str (path (with_iq_sf IQ_S8 smoke_config)))
        (string_c_str (info (with_iq_sf IQ_S8 smoke_config))) = Undefined
  end.
Proof.
  exact (@gen_iq_s8_as_run_aprs (dsp_delay_line 16) ax25_spec (env_zeroed "x"%char)
           (with_iq_sf IQ_S8 smoke_config) true
           eq_refl eq_refl eq_refl eq_refl eq_refl
           ltac:(cbn; lia)
           ltac:(intros size H; discriminate H)).
Defined.

(** ** [trim] *)

Lemma ltrim_spaces ws s :
  forallb isspace ws = true -> ltrim (ws ++ s) = ltrim s.
Proof.
  induction ws as [|c ws IH]; intros H; [reflexivity|].
  cbn [forallb] in H. apply andb_true_iff in H as [Hc H].
  cbn [app ltrim]. rewrite Hc. exact (IH H).
Qed.

Lemma ltrim_split s :
  exists ws, s = ws ++ ltrim s /\ forallb isspace ws = true.
Proof.
  induction s as [|c s (ws & Hs & Hws)].
  - exists []. split; reflexivity.
  - cbn [ltrim]. destruct (isspace c) eqn:Hc.
    + exists (c :: ws). cbn [app forallb]. rewrite Hc, Hws, <- Hs. auto.
    + exists []. auto.
Qed.

Lemma ltrim_head s c rest : ltrim s = c :: rest -> isspace c = false.
Proof.
  induction s as [|d s IH]; [discriminate|].
  cbn [ltrim]. destruct (isspace d) eqn:Hd; [exact IH|].
  intros [= <- _]. exact Hd.
Qed.

Lemma forallb_rev {A} (f : A -> bool) l :
  forallb f (rev l) = forallb f l.
Proof.
  induction l as [|x l IH]; [reflexivity|].
  cbn [rev forallb]. rewrite forallb_app, IH. cbn [forallb].
  rewrite andb_true_r. apply andb_comm.
Qed.

Lemma rtrim_spaces s ws :
  forallb isspace ws = true -> rtrim (s ++ ws) = rtrim s.
Proof.
  intros H. unfold rtrim. rewrite rev_app_distr, ltrim_spaces; [reflexivity|].
  now rewrite forallb_rev.
Qed.

Lemma rtrim_split s :
  exists ws, s = rtrim s ++ ws /\ forallb isspace ws = true.
Proof.
  unfold rtrim. destruct (ltrim_split (rev s)) as (ws & Hs & Hws).
  exists (rev ws). split; [|now rewrite forallb_rev].
  rewrite <- rev_app_distr, <- Hs. symmetry. apply rev_involutive.
Qed.

Lemma rtrim_last s c : isspace c = false -> rtrim (s ++ [c]) = s ++ [c].
Proof.
  intros Hc. unfold rtrim. rewrite rev_app_distr. cbn [rev app ltrim].
  rewrite Hc. cbn [rev]. now rewrite rev_involutive.
Qed.

Lemma rtrim_end s t c : rtrim s = t ++ [c] -> isspace c = false.
Proof.
  unfold rtrim. intros H.
  apply (f_equal (@rev ascii)) in H.
  rewrite rev_involutive, rev_app_distr in H. cbn [rev app] in H.
  exact (ltrim_head _ _ _ H).
Qed.

(** The head of a string survives [rtrim] when it is not a space. *)
Lemma rtrim_cons c s :
  isspace c = false -> exists t, rtrim (c :: s) = c :: t.
Proof.
  intros Hc. induction s as [|d s IH] using rev_ind.
  - exists []. apply (rtrim_last [] c Hc).
  - destruct (isspace d) eqn:Hd.
    + change (c :: s ++ [d]) with ((c :: s) ++ [d]).
      rewrite rtrim_spaces; [exact IH|]. cbn [forallb]. now rewrite Hd.
    + exists (s ++ [d]). apply (rtrim_last (c :: s) d Hd).
Qed.

Lemma trimmed_cases s :
  trimmed s = true <->
  s = [] \/ exists c t d, s = c :: t /\ s = removelast s ++ [d] /\
                          isspace c = false /\ isspace d = false.
Proof.
  split.
  - destruct s as [|c t]; [now left|]. intros H. right.
    cbn [trimmed] in H. apply andb_true_iff in H as [Hc Hd].
    apply negb_true_iff in Hc, Hd.
    exists c, t, (last (c :: t) c). repeat split; auto.
    apply app_removelast_last. discriminate.
  - intros [-> | (c & t & d & -> & Hl & Hc & Hd)]; [reflexivity|].
    cbn [trimmed]. rewrite Hc. rewrite Hl, last_last, Hd. reflexivity.
Qed.

Lemma trim_trimmed s : trimmed (trim s) = true.
Proof.
  unfold trim. destruct (ltrim s) as [|c t] eqn:El; [reflexivity|].
  pose proof (ltrim_head _ _ _ El) as Hc.
  destruct (rtrim_cons c t Hc) as [u Hu]. rewrite Hu.
  apply trimmed_cases. right.
  assert (Hne : c :: u <> []) by discriminate.
  pose proof (app_removelast_last c Hne) as Hl.
  exists c, u, (last (c :: u) c). repeat split; auto.
  rewrite <- Hu in Hl at 1. exact (rtrim_end _ _ _ Hl).
Qed.

Lemma trim_id s : trimmed s = true -> trim s = s.
Proof.
  intros H. apply trimmed_cases in H.
  destruct H as [-> | (c & t & d & -> & Hl & Hc & Hd)]; [reflexivity|].
  unfold trim. cbn [ltrim]. rewrite Hc. rewrite Hl. now apply rtrim_last.
Qed.

Lemma ltrim_all_spaces ws : forallb isspace ws = true -> ltrim ws = [].
Proof.
  intros H. rewrite <- (app_nil_r ws). now rewrite ltrim_spaces.
Qed.

Lemma trim_spaces_l ws s :
  forallb isspace ws = true -> trim (ws ++ s) = trim s.
Proof. intros H. unfold trim. now rewrite ltrim_spaces. Qed.

Lemma trim_spaces_r s ws :
  forallb isspace ws = true -> trim (s ++ ws) = trim s.
Proof.
  intros H. unfold trim.
  destruct (ltrim_split s) as (w1 & Hs & Hw1).
  destruct (ltrim s) as [|c t] eqn:El.
  - rewrite app_nil_r in Hs. subst w1.
    rewrite ltrim_all_spaces; [reflexivity|].
    rewrite forallb_app, Hw1, H. reflexivity.
  - rewrite Hs at 1. rewrite <- app_assoc, ltrim_spaces by exact Hw1.
    pose proof (ltrim_head _ _ _ El) as Hc.
    cbn [app ltrim]. rewrite Hc.
    change (c :: t ++ ws) with ((c :: t) ++ ws). now apply rtrim_spaces.
Qed.

Lemma trim_split s :
  exists ws1 ws2,
    s = ws1 ++ trim s ++ ws2 /\
    forallb isspace ws1 = true /\ forallb isspace ws2 = true.
Proof.
  destruct (ltrim_split s) as (ws1 & Hs & H1).
  destruct (rtrim_split (ltrim s)) as (ws2 & Hr & H2).
  exists ws1, ws2. unfold trim. rewrite <- Hr. auto.
Qed.

Lemma trim_between ws1 t ws2 :
  forallb isspace ws1 = true -> forallb isspace ws2 = true ->
  trimmed t = true ->
  trim (ws1 ++ t ++ ws2) = t.
Proof.
  intros H1 H2 Ht.
  rewrite trim_spaces_l, trim_spaces_r by assumption. now apply trim_id.
Qed.

(** X6. [trim] removes the spaces at both ends and nothing else: it returns
    the one string [t] with no space at either end such that the argument is
    [t] between two runs of spaces; applied again it changes nothing. *)
Theorem trim_spec (s : list ascii) :
  (exists ws1 ws2,
     s = ws1 ++ trim s ++ ws2 /\
     forallb isspace ws1 = true /\ forallb isspace ws2 = true) /\
  trimmed (trim s) = true /\
  (forall ws1 t ws2,
     s = ws1 ++ t ++ ws2 ->
     forallb isspace ws1 = true -> forallb isspace ws2 = true ->
     trimmed t = true -> trim s = t) /\
  trim (trim s) = trim s.
Proof.
  split; [apply trim_split|]. split; [apply trim_trimmed|]. split.
  - intros ws1 t ws2 -> H1 H2 Ht. now apply trim_between.
  - apply trim_id, trim_trimmed.
Qed.

(** ** Lines of a configuration file *)

Lemma find_app ch pre rest :
  forallb (fun c => negb (Ascii.eqb c ch)) pre = true ->
  find ch (pre ++ ch :: rest) = Some (length pre).
Proof.
  induction pre as [|c pre IH]; intros H.
  - cbn [app find]. now rewrite Ascii.eqb_refl.
  - cbn [forallb] in H. apply andb_true_iff in H as [Hc H].
    apply negb_true_iff in Hc. cbn [app find]. rewrite Hc, (IH H).
    reflexivity.
Qed.

Lemma find_none ch s :
  forallb (fun c => negb (Ascii.eqb c ch)) s = true -> find ch s = None.
Proof.
  induction s as [|c s IH]; intros H; [reflexivity|].
  cbn [forallb] in H. apply andb_true_iff in H as [Hc H].
  apply negb_true_iff in Hc. cbn [find]. now rewrite Hc, (IH H).
Qed.

Lemma find_Some ch s pos :
  find ch s = Some pos ->
  exists rest, s = firstn pos s ++ ch :: rest /\ skipn (pos + 1) s = rest /\
               length (firstn pos s) = pos.
Proof.
  revert pos. induction s as [|c s IH]; intros pos H; [discriminate|].
  cbn [find] in H. destruct (Ascii.eqb c ch) eqn:Hc.
  - injection H as <-. apply Ascii.eqb_eq in Hc. subst c.
    exists s. repeat split.
  - destruct (find ch s) as [p|]; [|discriminate]. injection H as <-.
    destruct (IH p eq_refl) as (rest & Hs & Hk & Hl).
    exists rest. cbn [firstn skipn app length Nat.add].
    rewrite <- Hs, Hk, Hl. repeat split.
Qed.

Lemma strip_comments_before line : strip_comments line = before_comment line.
Proof.
  unfold strip_comments.
  induction line as [|c line IH]; [reflexivity|].
  cbn [find before_comment].
  destruct (Ascii.eqb c "#"%char) eqn:Hh; [reflexivity|].
  destruct (Ascii.eqb c ";"%char) eqn:Hs; cbn [orb].
  - destruct (find "#"%char line); cbn [option_map firstn find];
      rewrite Hs; reflexivity.
  - rewrite <- IH.
    destruct (find "#"%char line) as [p|]; cbn [option_map firstn find];
      rewrite Hs.
    + destruct (find ";"%char (firstn p line)); reflexivity.
    + destruct (find ";"%char line); reflexivity.
Qed.

Lemma before_comment_app pre comment :
  forallb no_comment pre = true -> is_comment comment = true ->
  before_comment (pre ++ comment) = pre.
Proof.
  intros Hpre Hc. induction pre as [|c pre IH].
  - destruct comment as [|c rest]; [reflexivity|].
    cbn [app before_comment]. cbn [is_comment] in Hc. now rewrite Hc.
  - cbn [forallb] in Hpre. apply andb_true_iff in Hpre as [Hn Hpre].
    cbn [app before_comment]. unfold no_comment in Hn.
    rewrite <- negb_orb in Hn. apply negb_true_iff in Hn. rewrite Hn.
    now rewrite (IH Hpre).
Qed.

Lemma before_comment_plain line :
  forallb no_comment (before_comment line) = true.
Proof.
  induction line as [|c line IH]; [reflexivity|].
  cbn [before_comment].
  destruct (Ascii.eqb c "#"%char || Ascii.eqb c ";"%char) eqn:E;
    [reflexivity|].
  cbn [forallb]. rewrite IH. unfold no_comment.
  rewrite <- negb_orb, E. reflexivity.
Qed.

Lemma before_comment_incl line c :
  In c (before_comment line) -> In c line.
Proof.
  induction line as [|d line IH]; [auto|].
  cbn [before_comment]. destruct (_ || _); [intros []|].
  intros [<- | H]; [now left | right; auto].
Qed.

Lemma space_not ch c :
  isspace ch = false -> isspace c = true -> Ascii.eqb c ch = false.
Proof.
  intros Hch Hc. destruct (Ascii.eqb c ch) eqn:E; [|reflexivity].
  apply Ascii.eqb_eq in E. congruence.
Qed.

Lemma spaces_not ch ws :
  isspace ch = false -> forallb isspace ws = true ->
  forallb (fun c => negb (Ascii.eqb c ch)) ws = true.
Proof.
  intros Hch H. apply forallb_forall. intros c Hc.
  rewrite forallb_forall in H. now rewrite (space_not ch c Hch (H c Hc)).
Qed.

Lemma spaces_no_comment ws :
  forallb isspace ws = true -> forallb no_comment ws = true.
Proof.
  intros H. apply forallb_forall. intros c Hc.
  rewrite forallb_forall in H. unfold no_comment.
  rewrite (space_not "#"%char c eq_refl (H c Hc)).
  now rewrite (space_not ";"%char c eq_refl (H c Hc)).
Qed.

Lemma trimmed_app_cons key rest c :
  key <> [] -> trimmed key = true -> isspace c = false ->
  trimmed (key ++ rest ++ [c]) = true.
Proof.
  intros Hne Hk Hc. destruct key as [|k key]; [contradiction|].
  cbn [trimmed] in Hk. apply andb_true_iff in Hk as [Hk _].
  cbn [app trimmed]. rewrite Hk.
  change (k :: key ++ rest ++ [c]) with ((k :: key) ++ rest ++ [c]).
  rewrite app_assoc, last_last, Hc. reflexivity.
Qed.

Section ConfigLines.

Context {clib : CLib}.

(** A line [key = value], with spaces anywhere around the key and the value
    and a comment behind, assigns [value] to [key] in the current section. *)
Lemma load_line_pair config section ws1 key ws2 ws3 value ws4 comment :
  forallb isspace ws1 = true -> forallb isspace ws2 = true ->
  forallb isspace ws3 = true -> forallb isspace ws4 = true ->
  key <> [] -> trimmed key = true ->
  forallb (fun c => no_comment c && negb (Ascii.eqb c "="%char)) key = true ->
  hd NUL key <> "["%char ->
  trimmed value = true -> forallb no_comment value = true ->
  is_comment comment = true ->
  load_line (config, section)
    (ws1 ++ key ++ ws2 ++ ["="%char] ++ ws3 ++ value ++ ws4 ++ comment)
  = (config' <- set_value config section key value ;;
     Some (config', section)).
Proof.
  intros H1 H2 H3 H4 Hne Hk Hkc Hhd Hv Hvc Hcom.
  assert (Hkn : forallb no_comment key = true).
  { apply forallb_forall. intros c Hc. rewrite forallb_forall in Hkc.
    now destruct (andb_prop _ _ (Hkc c Hc)). }
  assert (Hke : forallb (fun c => negb (Ascii.eqb c "="%char)) key = true).
  { apply forallb_forall. intros c Hc. rewrite forallb_forall in Hkc.
    now destruct (andb_prop _ _ (Hkc c Hc)). }
  unfold load_line. rewrite strip_comments_before.
  replace (ws1 ++ key ++ ws2 ++ ["="%char] ++ ws3 ++ value ++ ws4 ++ comment)
    with ((ws1 ++ key ++ ws2 ++ ["="%char] ++ ws3 ++ value ++ ws4) ++ comment)
    by (now rewrite <- !app_assoc).
  rewrite before_comment_app; [|
    rewrite !forallb_app, Hkn, Hvc, (spaces_no_comment ws1 H1),
      (spaces_no_comment ws2 H2), (spaces_no_comment ws3 H3),
      (spaces_no_comment ws4 H4); reflexivity | exact Hcom].
  (* the trimmed line *)
  set (rest := match value with [] => [] | _ :: _ => ws3 ++ value end).
  assert (Hrest : trim rest = value).
  { unfold rest. destruct value as [|v0 value0]; [reflexivity|].
    rewrite (trim_spaces_l ws3 _ H3). now apply trim_id. }
  set (body := key ++ ws2 ++ ["="%char] ++ rest).
  assert (Hline : trim (ws1 ++ key ++ ws2 ++ ["="%char] ++ ws3 ++ value ++ ws4)
                  = body).
  { rewrite (trim_spaces_l ws1 _ H1).
    replace (key ++ ws2 ++ ["="%char] ++ ws3 ++ value ++ ws4)
      with ((key ++ ws2 ++ ["="%char] ++ ws3 ++ value) ++ ws4)
      by (now rewrite <- !app_assoc).
    rewrite (trim_spaces_r _ ws4 H4). unfold body, rest.
    destruct value as [|v0 value0].
    - rewrite !app_nil_r.
      replace (key ++ ws2 ++ ["="%char] ++ ws3)
        with ((key ++ ws2 ++ ["="%char]) ++ ws3) by (now rewrite <- !app_assoc).
      rewrite (trim_spaces_r _ ws3 H3).
      apply trim_id. now apply trimmed_app_cons.
    - apply trim_id.
      cbn [trimmed] in Hv. apply andb_true_iff in Hv as [_ Hlast].
      apply negb_true_iff in Hlast.
      rewrite (app_removelast_last v0 (l := v0 :: value0)) by discriminate.
      replace (key ++ ws2 ++ ["="%char] ++ ws3
               ++ removelast (v0 :: value0) ++ [last (v0 :: value0) v0])
        with (key ++ (ws2 ++ ["="%char] ++ ws3 ++ removelast (v0 :: value0))
              ++ [last (v0 :: value0) v0])
        by (now rewrite <- !app_assoc).
      now apply trimmed_app_cons. }
  rewrite Hline. unfold body at 1.
  destruct key as [|k key]; [contradiction|].
  cbn [app]. cbn [hd] in Hhd.
  replace (Ascii.eqb k "["%char) with false
    by (symmetry; now apply Ascii.eqb_neq).
  cbn [andb].
  change (k :: key ++ ws2 ++ "="%char :: rest) with body.
  assert (Hfind : find "="%char body = Some (length ((k :: key) ++ ws2))).
  { unfold body. rewrite app_assoc. apply find_app.
    rewrite forallb_app, Hke. now rewrite (spaces_not "="%char ws2 eq_refl H2). }
  rewrite Hfind.
  assert (Hkey : trim (substr 0 (length ((k :: key) ++ ws2)) body) = k :: key).
  { unfold substr, body. cbn [skipn]. rewrite app_assoc.
    rewrite firstn_app, Nat.sub_diag, firstn_all. cbn [firstn].
    rewrite app_nil_r, (trim_spaces_r _ ws2 H2). now apply trim_id. }
  assert (Hval : trim (skipn (length ((k :: key) ++ ws2) + 1) body) = value).
  { unfold body. rewrite app_assoc.
    replace (((k :: key) ++ ws2) ++ ["="%char] ++ rest)
      with ((((k :: key) ++ ws2) ++ ["="%char]) ++ rest)
      by (now rewrite <- !app_assoc).
    rewrite skipn_app.
    replace (length ((k :: key) ++ ws2) + 1)%nat
      with (length (((k :: key) ++ ws2) ++ ["="%char]))
      by (rewrite (length_app _ ["="%char]); reflexivity).
    rewrite skipn_all, Nat.sub_diag. cbn [skipn app]. exact Hrest. }
  rewrite Hkey, Hval. reflexivity.
Qed.

(** A carriage return at the end of a line changes nothing. *)
Lemma load_line_cr st line :
  load_line st (line ++ ["013"%char]) = load_line st line.
Proof.
  destruct st as [config section].
  assert (H : trim (strip_comments (line ++ ["013"%char]))
              = trim (strip_comments line)).
  { rewrite !strip_comments_before.
    induction line as [|c line IH].
    - reflexivity.
    - cbn [app before_comment].
      destruct (Ascii.eqb c "#"%char || Ascii.eqb c ";"%char); [reflexivity|].
      clear IH.
      assert (G : forall l, before_comment (l ++ ["013"%char])
                            = before_comment l
                            \/ before_comment (l ++ ["013"%char])
                               = before_comment l ++ ["013"%char]).
      { induction l as [|d l IHl]; [now right|].
        cbn [app before_comment].
        destruct (Ascii.eqb d "#"%char || Ascii.eqb d ";"%char); [now left|].
        destruct IHl as [-> | ->]; [now left | now right]. }
      destruct (G line) as [-> | ->]; [reflexivity|].
      change (c :: before_comment line ++ ["013"%char])
        with ((c :: before_comment line) ++ ["013"%char]).
      now apply trim_spaces_r. }
  unfold load_line. rewrite H. reflexivity.
Qed.

End ConfigLines.

(** ** [load_config] *)

(** X7. A line [key = value] of a configuration file, with spaces anywhere
    around the key and around the value and a comment behind, does what
    [set_value] does with exactly [key] and [value] in the current section,
    which it leaves as it is. *)
Theorem load_line_assignment {clib : CLib} (config : Config)
  (section ws1 key ws2 ws3 value ws4 comment : list ascii) :
  forallb isspace ws1 = true -> forallb isspace ws2 = true ->
  forallb isspace ws3 = true -> forallb isspace ws4 = true ->
  key <> [] -> trimmed key = true ->
  forallb (fun c => no_comment c && negb (Ascii.eqb c "="%char)) key = true ->
  hd NUL key <> "["%char ->
  trimmed value = true -> forallb no_comment value = true ->
  is_comment comment = true ->
  load_line (config, section)
    (ws1 ++ key ++ ws2 ++ ["="%char] ++ ws3 ++ value ++ ws4 ++ comment)
  = (config' <- set_value config section key value ;;
     Some (config', section)).
Proof. apply load_line_pair. Qed.

Lemma load_line_assignment_witness :
  @load_line clib_digits
    (set_defaults, String.list_ascii_of_string "Main"%string)
    (String.list_ascii_of_string
       "  CallSign =  N0CALL-7   # the call sign of the bench"%string)
  = Some (with_callsign "N0CALL-7"%string set_defaults,
          String.list_ascii_of_string "Main"%string).
Proof.
  exact (@load_line_assignment clib_digits set_defaults
           (String.list_ascii_of_string "Main"%string)
           (String.list_ascii_of_string "  "%string)
           (String.list_ascii_of_string "CallSign"%string)
           (String.list_ascii_of_string " "%string)
           (String.list_ascii_of_string "  "%string)
           (String.list_ascii_of_string "N0CALL-7"%string)
           (String.list_ascii_of_string "   "%string)
           (String.list_ascii_of_string "# the call sign of the bench"%string)
           eq_refl eq_refl eq_refl eq_refl
           ltac:(discriminate) eq_refl eq_refl ltac:(discriminate)
           eq_refl eq_refl eq_refl).
Defined.

Section LoadConfig.

Context {clib : CLib}.

Lemma load_lines_cons line lines st :
  load_lines (line :: lines) st
  = (st' <- load_line st line ;; load_lines lines st').
Proof.
  unfold load_lines. cbn [fold_left bind].
  destruct (load_line st line) as [st'|]; [reflexivity|].
  induction lines as [|l lines IH]; [reflexivity | exact IH].
Qed.

Lemma load_lines_cr lines' lines : forall st,
  Forall2 (fun l' l => l' = l \/ l' = l ++ ["013"%char]) lines' lines ->
  load_lines lines' st = load_lines lines st.
Proof.
  intros st H. revert st.
  induction H as [|l' l lines' lines Hl _ IH]; intros st; [reflexivity|].
  rewrite !load_lines_cons.
  replace (load_line st l') with (load_line st l)
    by (destruct Hl as [-> | ->]; [reflexivity | now rewrite load_line_cr]).
  destruct (load_line st l); [apply IH | reflexivity].
Qed.

End LoadConfig.

Lemma getlines_crlf text :
  Forall2 (fun l' l => l' = l \/ l' = l ++ ["013"%char])
          (getlines (crlf text)) (getlines text).
Proof.
  induction text as [|c text IH]; [constructor|].
  unfold crlf in *. cbn [flat_map getlines].
  destruct (Ascii.eqb c newline) eqn:Hc.
  - cbn [app getlines]. change (Ascii.eqb "013"%char newline) with false.
    cbv iota. rewrite Ascii.eqb_refl.
    constructor; [now right | exact IH].
  - cbn [app getlines]. rewrite Hc.
    inversion IH as [|l' l ls' ls Hl Hls E1 E2].
    + constructor; [now left | constructor].
    + constructor; [|exact Hls].
      destruct Hl as [-> | ->]; [now left | now right].
Qed.

(** X8. A configuration file with DOS line ends (a carriage return before
    every newline) loads as the same file with Unix line ends. *)
Theorem load_config_crlf {clib : CLib} (text : list ascii) :
  load_config (Some (crlf text)) = load_config (Some text).
Proof.
  unfold load_config.
  now rewrite (load_lines_cr _ _ _ (getlines_crlf text)).
Qed.

(** *** What a loaded value can be *)

Lemma trim_incl s c : In c (trim s) -> In c s.
Proof.
  intros H. destruct (trim_split s) as (ws1 & ws2 & Hs & _).
  rewrite Hs. apply in_or_app. right. apply in_or_app. now left.
Qed.

Lemma skipn_incl {A} n (l : list A) x : In x (skipn n l) -> In x l.
Proof.
  intros H. rewrite <- (firstn_skipn n l). apply in_or_app. now right.
Qed.

Lemma getlines_no_newline text :
  Forall (fun line => forallb (fun c => negb (Ascii.eqb c newline)) line = true)
         (getlines text).
Proof.
  induction text as [|c text IH]; [constructor|].
  cbn [getlines]. destruct (Ascii.eqb c newline) eqn:Hc.
  - constructor; [reflexivity | exact IH].
  - inversion IH as [|l ls Hl Hls E].
    + constructor; [|constructor]. cbn [forallb]. now rewrite Hc.
    + constructor; [|exact Hls]. cbn [forallb]. now rewrite Hc, Hl.
Qed.

(** The value of a pair is clean. *)
Lemma value_clean line pos :
  forallb (fun c => negb (Ascii.eqb c newline)) line = true ->
  clean (trim (skipn pos (trim (strip_comments line)))) = true.
Proof.
  intros Hnl. unfold clean. rewrite trim_trimmed. cbn [andb].
  apply forallb_forall. intros c Hc.
  apply trim_incl, skipn_incl, trim_incl in Hc.
  rewrite strip_comments_before in Hc.
  pose proof (before_comment_plain line) as Hp.
  rewrite forallb_forall in Hp, Hnl.
  specialize (Hp c Hc). apply before_comment_incl in Hc.
  specialize (Hnl c Hc). unfold plain_char. unfold no_comment in Hp.
  now rewrite Hp, Hnl.
Qed.

Section Clean.

Context {clib : CLib}.

Lemma set_value_clean config section key val config' :
  all_clean_or_default config ->
  clean val = true ->
  set_value config section key val = Some config' ->
  all_clean_or_default config'.
Proof.
  intros (H1 & H2 & H3 & H4 & H5) Hval Hset.
  assert (Hv : clean (String.list_ascii_of_string
                        (String.string_of_list_ascii val)) = true)
    by now rewrite String.list_ascii_of_string_of_list_ascii.
  unfold set_value in Hset.
  repeat match type of Hset with
         | context [if ?b then _ else _] => destruct b
         end;
    try (destruct (F64_to_int _); [|discriminate Hset]);
    cbn [bind] in Hset; injection Hset as <-;
    unfold all_clean_or_default, clean_or_default in *;
    cbn [callsign dest path output info with_debug with_callsign with_dest
         with_path with_output with_info with_iq_sf with_frequency
         with_sampleRate with_amplifier with_txvga_gain];
    repeat split; auto.
Qed.

Lemma load_line_clean config section line config' section' :
  all_clean_or_default config ->
  forallb (fun c => negb (Ascii.eqb c newline)) line = true ->
  load_line (config, section) line = Some (config', section') ->
  all_clean_or_default config'.
Proof.
  intros Hinv Hnl Hload. unfold load_line in Hload.
  destruct (trim (strip_comments line)) as [|front tl] eqn:El.
  - now injection Hload as <- _.
  - destruct (_ && _).
    + now injection Hload as <- _.
    + destruct (find "="%char (front :: tl)) as [eqPos|].
      2:{ now injection Hload as <- _. }
      destruct (trim (substr 0 eqPos (front :: tl))) as [|k key].
      { now injection Hload as <- _. }
      destruct (set_value config section (k :: key) _) as [c'|] eqn:Hset;
        [|discriminate Hload].
      cbn [bind] in Hload. injection Hload as <- _.
      apply (set_value_clean _ _ _ _ _ Hinv) in Hset; [exact Hset|].
      rewrite <- El. now apply value_clean.
Qed.

Lemma load_lines_clean lines : forall config section config' section',
  all_clean_or_default config ->
  Forall (fun line => forallb (fun c => negb (Ascii.eqb c newline)) line = true)
         lines ->
  load_lines lines (config, section) = Some (config', section') ->
  all_clean_or_default config'.
Proof.
  induction lines as [|line lines IH];
    intros config section config' section' Hinv Hnl Hload.
  - now injection Hload as <- _.
  - rewrite load_lines_cons in Hload.
    apply Forall_cons_iff in Hnl as [Hl Hnl].
    destruct (load_line (config, section) line) as [[c1 s1]|] eqn:E;
      [|discriminate Hload].
    cbn [bind] in Hload.
    exact (IH _ _ _ _ (load_line_clean _ _ _ _ _ Hinv Hl E) Hnl Hload).
Qed.

End Clean.

(** X9. Whatever the file holds, each of the strings [callsign], [dest],
    [path], [output] and [info] of the configuration [load_config] returns
    is either the built-in default or a value without '#', ';' and newline
    and without a space at either end: no file can set, for instance, an
    information field that contains a semicolon. *)
Theorem load_config_clean {clib : CLib} (text : list ascii) (config : Config) :
  load_config (Some text) = Some config ->
  clean_or_default callsign config /\ clean_or_default dest config /\
  clean_or_default path config /\ clean_or_default output config /\
  clean_or_default info config.
Proof.
  unfold load_config. intros H.
  destruct (load_lines _ _) as [[c s]|] eqn:E; [|discriminate H].
  cbn [bind fst] in H. injection H as <-.
  apply (load_lines_clean _ _ _ _ _) in E; [exact E | | apply getlines_no_newline].
  repeat split; now left.
Qed.

Lemma load_config_clean_witness :
  @load_config clib_digits
    (Some (String.list_ascii_of_string
             "info =  Hello; world  # greeting"%string))
  = Some (with_info "Hello"%string set_defaults) /\
  clean_or_default info (with_info "Hello"%string set_defaults).
Proof.
  split; [reflexivity|].
  exact (proj2 (proj2 (proj2 (proj2
           (@load_config_clean clib_digits
              (String.list_ascii_of_string
                 "info =  Hello; world  # greeting"%string)
              (with_info "Hello"%string set_defaults) eq_refl))))).
Defined.

(** ** [print_config] read back by [load_config] *)

Lemma getlines_line line rest :
  forallb (fun c => negb (Ascii.eqb c newline)) line = true ->
  getlines (line ++ newline :: rest) = line :: getlines rest.
Proof.
  induction line as [|c line IH]; intros H.
  - cbn [app getlines]. now rewrite Ascii.eqb_refl.
  - cbn [forallb] in H. apply andb_true_iff in H as [Hc H].
    apply negb_true_iff in Hc.
    cbn [app getlines]. now rewrite Hc, (IH H).
Qed.

Lemma getlines_lines lines :
  Forall (fun line => forallb (fun c => negb (Ascii.eqb c newline)) line = true)
         lines ->
  getlines (flat_map (fun line => line ++ [newline]) lines) = lines.
Proof.
  induction 1 as [|line lines Hl _ IH]; [reflexivity|].
  cbn [flat_map]. rewrite <- app_assoc. cbn [app].
  now rewrite (getlines_line _ _ Hl), IH.
Qed.

Lemma clean_no_newline s :
  clean s = true -> forallb (fun c => negb (Ascii.eqb c newline)) s = true.
Proof.
  unfold clean. intros H. apply andb_true_iff in H as [_ H].
  apply forallb_forall. intros c Hc. rewrite forallb_forall in H.
  specialize (H c Hc). unfold plain_char in H.
  now apply andb_true_iff in H as [_ H].
Qed.

Lemma clean_no_comment s : clean s = true -> forallb no_comment s = true.
Proof.
  unfold clean. intros H. apply andb_true_iff in H as [_ H].
  apply forallb_forall. intros c Hc. rewrite forallb_forall in H.
  specialize (H c Hc). unfold plain_char in H.
  now apply andb_true_iff in H as [H _].
Qed.

Lemma clean_trimmed s : clean s = true -> trimmed s = true.
Proof. unfold clean. intros H. now apply andb_true_iff in H as [H _]. Qed.

Section RoundTrip.

Context {clib : CLib}.

Lemma print_config_lines config :
  print_config config
  = flat_map (fun line => line ++ [newline]) (printed_lines config).
Proof.
  unfold print_config, printed_lines. cbn [flat_map].
  rewrite <- !app_assoc. reflexivity.
Qed.

(** A line as [print_config] writes it: two spaces, the key, padding, the
    equals sign, one space, the value. *)
Lemma load_line_printed config section key pad value :
  forallb isspace pad = true ->
  key <> [] -> trimmed key = true ->
  forallb (fun c => no_comment c && negb (Ascii.eqb c "="%char)) key = true ->
  hd NUL key <> "["%char ->
  clean value = true ->
  load_line (config, section)
    ((String.list_ascii_of_string "  "%string ++ key ++ pad
      ++ String.list_ascii_of_string "= "%string) ++ value)
  = (config' <- set_value config section key value ;;
     Some (config', section)).
Proof.
  intros Hpad Hne Hk Hkc Hhd Hv.
  rewrite <- (load_line_pair config section
                (String.list_ascii_of_string "  "%string) key pad
                [" "%char] value [] []
                eq_refl Hpad eq_refl eq_refl Hne Hk Hkc Hhd
                (clean_trimmed _ Hv) (clean_no_comment _ Hv) eq_refl).
  f_equal. rewrite !app_nil_r, <- !app_assoc. reflexivity.
Qed.

End RoundTrip.

(** X10. [load_config] reads back what [print_config] printed.  When the five
    strings of a configuration are clean (no '#', ';' or newline, no space at
    either end) and so are its two numbers as printed, loading the printed
    text gives the same [debug], [callsign], [dest], [path], [output],
    [info] and sample format, the two numbers as [strtod] reads them back,
    and, [print_config] not printing them, the built-in [amplifier] and
    [txvga_gain]. *)
Theorem print_config_load {clib : CLib} (config : Config) :
  clean (String.list_ascii_of_string (callsign config)) = true ->
  clean (String.list_ascii_of_string (dest config)) = true ->
  clean (String.list_ascii_of_string (path config)) = true ->
  clean (String.list_ascii_of_string (output config)) = true ->
  clean (String.list_ascii_of_string (info config)) = true ->
  clean (put_double (frequency config)) = true ->
  clean (put_double (sampleRate config)) = true ->
  load_config (Some (print_config config)) = Some (reloaded config).
Proof.
  intros Hc Hd Hp Ho Hi Hf Hs.
  unfold load_config. rewrite print_config_lines, getlines_lines.
  2:{ unfold printed_lines.
      repeat (apply Forall_cons || apply Forall_nil);
        rewrite ?forallb_app, ?(clean_no_newline _ Hc),
          ?(clean_no_newline _ Hd), ?(clean_no_newline _ Hp),
          ?(clean_no_newline _ Ho), ?(clean_no_newline _ Hi),
          ?(clean_no_newline _ Hf), ?(clean_no_newline _ Hs);
        try destruct (debug config); try destruct (iq_sf config);
        reflexivity. }
  unfold printed_lines.
  rewrite load_lines_cons.
  change (load_line _ (String.list_ascii_of_string
                         "=== Loaded Configuration ==="%string))
    with (Some (set_defaults, String.list_ascii_of_string "main"%string)).
  cbn [bind]. rewrite load_lines_cons.
  change (load_line _ (String.list_ascii_of_string "[main]"%string))
    with (Some (set_defaults, String.list_ascii_of_string "main"%string)).
  cbn [bind]. rewrite load_lines_cons.
  set (main := String.list_ascii_of_string "main"%string).
  set (hackrf := String.list_ascii_of_string "hackrf"%string).
  (* debug *)
  assert (Hdebug : load_line (set_defaults, main)
            (String.list_ascii_of_string "  debug         = "%string
             ++ String.list_ascii_of_string
                  (if debug config then "true" else "false")%string)
          = Some (with_debug (debug config) set_defaults, main))
    by (destruct (debug config); reflexivity).
  rewrite Hdebug. cbn [bind]. clear Hdebug.
  (* callsign *)
  rewrite load_lines_cons.
  rewrite (load_line_printed _ main
             (String.list_ascii_of_string "callsign"%string)
             (String.list_ascii_of_string "      "%string)
             _ eq_refl ltac:(discriminate) eq_refl eq_refl
             ltac:(discriminate) Hc).
  change (set_value ?c main (String.list_ascii_of_string "callsign"%string) ?v)
    with (Some (with_callsign (String.string_of_list_ascii v) c)).
  cbn [bind]. rewrite String.string_of_list_ascii_of_string.
  (* dest *)
  rewrite load_lines_cons.
  rewrite (load_line_printed _ main
             (String.list_ascii_of_string "dest"%string)
             (String.list_ascii_of_string "          "%string)
             _ eq_refl ltac:(discriminate) eq_refl eq_refl
             ltac:(discriminate) Hd).
  change (set_value ?c main (String.list_ascii_of_string "dest"%string) ?v)
    with (Some (with_dest (String.string_of_list_ascii v) c)).
  cbn [bind]. rewrite String.string_of_list_ascii_of_string.
  (* path *)
  rewrite load_lines_cons.
  rewrite (load_line_printed _ main
             (String.list_ascii_of_string "path"%string)
             (String.list_ascii_of_string "          "%string)
             _ eq_refl ltac:(discriminate) eq_refl eq_refl
             ltac:(discriminate) Hp).
  change (set_value ?c main (String.list_ascii_of_string "path"%string) ?v)
    with (Some (with_path (String.string_of_list_ascii v) c)).
  cbn [bind]. rewrite String.string_of_list_ascii_of_string.
  (* output *)
  rewrite load_lines_cons.
  rewrite (load_line_printed _ main
             (String.list_ascii_of_string "output"%string)
             (String.list_ascii_of_string "        "%string)
             _ eq_refl ltac:(discriminate) eq_refl eq_refl
             ltac:(discriminate) Ho).
  change (set_value ?c main (String.list_ascii_of_string "output"%string) ?v)
    with (Some (with_output (String.string_of_list_ascii v) c)).
  cbn [bind]. rewrite String.string_of_list_ascii_of_string.
  (* info *)
  rewrite load_lines_cons.
  rewrite (load_line_printed _ main
             (String.list_ascii_of_string "info"%string)
             (String.list_ascii_of_string "          "%string)
             _ eq_refl ltac:(discriminate) eq_refl eq_refl
             ltac:(discriminate) Hi).
  change (set_value ?c main (String.list_ascii_of_string "info"%string) ?v)
    with (Some (with_info (String.string_of_list_ascii v) c)).
  cbn [bind]. rewrite String.string_of_list_ascii_of_string.
  (* sample_format, the blank line and the section header *)
  rewrite load_lines_cons.
  set (c5 := with_info _ _).
  assert (Hfmt : load_line (c5, main)
            (String.list_ascii_of_string "  sample_format = "%string
             ++ String.list_ascii_of_string
                  match iq_sf config with
                  | IQ_S8 => "s8"
                  | IQ_F32 => "f32"
                  | PCM_F32 => "pcm"
                  end%string)
          = Some (with_iq_sf (iq_sf config) c5, main))
    by (destruct (iq_sf config); reflexivity).
  rewrite Hfmt. cbn [bind]. clear Hfmt.
  rewrite load_lines_cons.
  change (load_line (?c, main) []) with (Some (c, main)).
  cbn [bind]. rewrite load_lines_cons.
  change (load_line (?c, main) (String.list_ascii_of_string "[hackrf]"%string))
    with (Some (c, hackrf)).
  cbn [bind].
  (* frequency *)
  rewrite load_lines_cons.
  rewrite (load_line_printed _ hackrf
             (String.list_ascii_of_string "frequency"%string)
             (String.list_ascii_of_string "  "%string)
             _ eq_refl ltac:(discriminate) eq_refl eq_refl
             ltac:(discriminate) Hf).
  change (set_value ?c hackrf (String.list_ascii_of_string "frequency"%string)
                    ?v)
    with (Some (with_frequency (strtod (c_chars v)) c)).
  cbn [bind].
  (* sampleRate *)
  rewrite load_lines_cons.
  rewrite (load_line_printed _ hackrf
             (String.list_ascii_of_string "sampleRate"%string)
             (String.list_ascii_of_string " "%string)
             _ eq_refl ltac:(discriminate) eq_refl eq_refl
             ltac:(discriminate) Hs).
  change (set_value ?c hackrf (String.list_ascii_of_string "sampleRate"%string)
                    ?v)
    with (Some (with_sampleRate (strtod (c_chars v)) c)).
  cbn [bind].
  (* the closing line and the blank line *)
  rewrite load_lines_cons.
  change (load_line (?c, hackrf)
            (String.list_ascii_of_string "============================"%string))
    with (Some (c, hackrf)).
  cbn [bind]. rewrite load_lines_cons.
  change (load_line (?c, hackrf) []) with (Some (c, hackrf)).
  reflexivity.
Qed.

Lemma print_config_load_witness :
  @load_config clib_digits (Some (@print_config clib_digits bench_config))
  = Some (with_txvga_gain 40 (with_amplifier 1 bench_config)).
Proof.
  exact (@print_config_load clib_digits bench_config
           eq_refl eq_refl eq_refl eq_refl eq_refl eq_refl eq_refl).
Defined.

(** ** Sections [load_config] does not know *)

Section Foreign.

Context {clib : CLib}.

Lemma set_value_foreign config section key val :
  known_section section = false ->
  set_value config section key val = Some config.
Proof.
  unfold known_section, set_value. intros H.
  apply orb_false_iff in H as [-> ->]. reflexivity.
Qed.

Lemma load_line_foreign config section line :
  known_section section = false -> header_line line = false ->
  load_line (config, section) line = Some (config, section).
Proof.
  intros Hs Hh. unfold load_line. unfold header_line in Hh.
  destruct (trim (strip_comments line)) as [|front rest]; [reflexivity|].
  rewrite Hh.
  destruct (find "="%char (front :: rest)) as [eqPos|]; [|reflexivity].
  destruct (trim (substr 0 eqPos (front :: rest))); [reflexivity|].
  now rewrite set_value_foreign.
Qed.

End Foreign.

(** X11. [load_config] skips the sections it does not know.  While the
    current section is neither [main] nor [hackrf] (in any spelling of upper
    and lower case), no line changes the configuration, up to the next
    section header: the sections [general], [aprs] and the like of a
    configuration file set nothing. *)
Theorem load_lines_foreign_section {clib : CLib} (config : Config)
  (section : list ascii) (lines : list (list ascii)) :
  known_section section = false ->
  forallb (fun line => negb (header_line line)) lines = true ->
  load_lines lines (config, section) = Some (config, section).
Proof.
  intros Hs Hl. induction lines as [|line lines IH]; [reflexivity|].
  cbn [forallb] in Hl. apply andb_true_iff in Hl as [Hh Hl].
  apply negb_true_iff in Hh.
  rewrite load_lines_cons, (load_line_foreign _ _ _ Hs Hh). cbn [bind].
  exact (IH Hl).
Qed.

Lemma load_lines_foreign_section_witness :
  @load_lines clib_digits aprs_section
    (set_defaults, String.list_ascii_of_string "APRS"%string)
  = Some (set_defaults, String.list_ascii_of_string "APRS"%string).
Proof.
  exact (@load_lines_foreign_section clib_digits set_defaults
           (String.list_ascii_of_string "APRS"%string) aprs_section
           eq_refl eq_refl).
Defined.


(** ** [override_config_from_args] *)

Lemma override_options_keeps events : forall config config',
  override_options events config = Returns config' ->
  frequency config' = frequency config /\
  sampleRate config' = sampleRate config /\
  amplifier config' = amplifier config /\
  txvga_gain config' = txvga_gain config /\
  info config' = info config /\
  (debug config = true -> debug config' = true).
Proof.
  induction events as [|[opt optarg] rest IH]; intros config config' H.
  - injection H as <-. repeat split; auto.
  - cbn [override_options] in H.
    repeat match type of H with
           | context [if ?b then _ else _] => destruct b
           end;
      try discriminate H; apply IH in H;
      cbn [frequency sampleRate amplifier txvga_gain info debug
           with_callsign with_dest with_path with_output with_iq_sf
           with_debug] in H; intuition.
Qed.

Lemma override_options_exit events : forall config status,
  override_options events config = Exit status -> status = 1.
Proof.
  induction events as [|[opt optarg] rest IH]; intros config status H.
  - discriminate H.
  - cbn [override_options] in H.
    repeat match type of H with
           | context [if ?b then _ else _] => destruct b
           end;
      try (now injection H as <-); exact (IH _ _ H).
Qed.

(** X12. No command line changes the radio settings.  Whatever options
    [getopt] reports, when [override_config_from_args] returns, frequency,
    sample rate, amplifier and gain are those of the configuration file;
    debugging, once on, stays on; the message is the first operand if there
    is one and the configured message otherwise; and when the function does
    not return, the process has exited with status 1. *)
Theorem override_config_from_args_keeps (events : list option_event)
  (operand : option String.string) (config : Config) :
  match override_config_from_args events operand config with
  | Returns config' =>
      frequency config' = frequency config /\
      sampleRate config' = sampleRate config /\
      amplifier config' = amplifier config /\
      txvga_gain config' = txvga_gain config /\
      (debug config = true -> debug config' = true) /\
      info config' = match operand with
                     | Some message => message
                     | None => info config
                     end
  | Exit status => status = 1
  end.
Proof.
  unfold override_config_from_args.
  destruct (override_options events config) as [c|status] eqn:E.
  - apply override_options_keeps in E as (Hf & Hs & Ha & Hg & Hi & Hd).
    destruct operand as [message|]; cbn; auto 10.
  - exact (override_options_exit _ _ _ E).
Qed.


(** ** The loop of [main] *)

Lemma with_info_same config : with_info (info config) config = config.
Proof. now destruct config. Qed.

Lemma with_info_twice s t config :
  with_info s (with_info t config) = with_info s config.
Proof. reflexivity. Qed.

Section MainFacts.

Context {dsp : Dsp} {ax25 : Ax25}.
Variable json : list ascii -> json_result.

Lemma main_loop_cycle polls : forall config0 config n c r,
  config = with_info (info config) config0 ->
  (info config = info config0 \/ info config = ""%string) ->
  nth_error (main_loop json polls config) n = Some (c, r) ->
  c = with_info (if all_populated json polls (S n) then info config
                 else ""%string) config0 /\
  exists jsonMsg fopen_ok,
    nth_error polls n = Some (jsonMsg, fopen_ok) /\ r = run_aprs fopen_ok c.
Proof.
  induction polls as [|[jsonMsg fopen_ok] rest IH];
    intros config0 config n c r Hc Hi Hn.
  - destruct n; discriminate Hn.
  - cbn [main_loop] in Hn. unfold all_populated. cbn [firstn forallb fst].
    set (config1 := after_poll json jsonMsg config) in *.
    assert (H1 : config1
                 = with_info (if match jsonMsg with
                                  | [] => false
                                  | _ :: _ => populated (json jsonMsg)
                                  end
                              then info config else ""%string) config0).
    { unfold config1, after_poll.
      destruct jsonMsg as [|ch tl]; [now rewrite Hc|].
      destruct (json (ch :: tl)); cbn [populated];
        [exact Hc | now rewrite Hc | now rewrite Hc]. }
    destruct n as [|n].
    + cbn [nth_error] in Hn. injection Hn as <- <-.
      cbn [firstn forallb]. rewrite andb_true_r.
      split; [exact H1|]. exists jsonMsg, fopen_ok. auto.
    + cbn [nth_error] in Hn.
      destruct (run_aprs fopen_ok config1) as [res| |];
        try (destruct n; discriminate Hn).
      destruct (match jsonMsg with
                | [] => false
                | _ :: _ => populated (json jsonMsg)
                end) eqn:Ep.
      * apply (IH config0) in Hn.
        -- destruct Hn as (Hcn & Hex). split; [|exact Hex].
           rewrite Hcn. unfold all_populated. rewrite H1. cbn [andb].
           reflexivity.
        -- rewrite H1. reflexivity.
        -- rewrite H1. cbn [info with_info]. exact Hi.
      * apply (IH config0) in Hn.
        -- destruct Hn as (Hcn & Hex). split; [|exact Hex].
           rewrite Hcn. unfold all_populated. rewrite H1. cbn [andb info with_info].
           now destruct (forallb _ _).
        -- rewrite H1. reflexivity.
        -- rewrite H1. cbn [info with_info]. now right.
Qed.

End MainFacts.

(** X13. The loop of [main] never puts anything received from the bus into
    the frame.  The configuration [run_aprs] gets in cycle [n] is the
    initial one, with its information field as long as every message up to
    this cycle gave a populated sensor record, and with an empty one (for
    which [run_aprs] sends its built-in default message) from the first
    cycle on in which the message was empty, had no timestamp or made the
    JSON library throw: that cycle and all later cycles send the default
    message, whatever arrives afterwards. *)
Theorem main_loop_info {dsp : Dsp} {ax25 : Ax25}
  (json : list ascii -> json_result) (polls : list (list ascii * bool))
  (config : Config) (n : nat) (c : Config) (r : outcome (Z * list Z)) :
  nth_error (main_loop json polls config) n = Some (c, r) ->
  c = with_info (if all_populated json polls (S n) then info config
                 else ""%string) config /\
  infoUsed c = (if all_populated json polls (S n) then infoUsed config
                else "Hello from APRS default message"%string) /\
  exists jsonMsg fopen_ok,
    nth_error polls n = Some (jsonMsg, fopen_ok) /\ r = run_aprs fopen_ok c.
Proof.
  intros Hn.
  destruct (main_loop_cycle json polls config config n c r
              (eq_sym (with_info_same config)) (or_introl eq_refl) Hn)
    as (Hc & Hex).
  split; [exact Hc|]. split; [|exact Hex].
  rewrite Hc. destruct (all_populated json polls (S n)).
  - now rewrite with_info_same.
  - reflexivity.
Qed.

Lemma run_aprs_unwritable {dsp : Dsp} {ax25 : Ax25} (config : Config)
  (frame : list bool) :
  ax25frame (string_c_str (callsignUsed config)) (string_c_str (dest config))
            (string_c_str (path config)) (string_c_str (infoUsed config))
            false = Ret frame ->
  empty (output config) = false ->
  run_aprs false config = Ret (1, []).
Proof.
  intros Hframe Hout. unfold run_aprs. rewrite Hframe, Hout. reflexivity.
Qed.

Lemma main_loop_info_witness :
  nth_error
    (@main_loop (dsp_delay_line 16) ax25_spec json_braces
       [(String.list_ascii_of_string "{timestamp: 17}"%string, false);
        ([], false);
        (String.list_ascii_of_string "{timestamp: 19}"%string, false)]
       smoke_config) 1
  = Some (with_info ""%string smoke_config,
          @run_aprs (dsp_delay_line 16) ax25_spec false
            (with_info ""%string smoke_config)) /\
  infoUsed (with_info ""%string smoke_config)
  = "Hello from APRS default message"%string.
Proof.
  assert (E : nth_error
    (@main_loop (dsp_delay_line 16) ax25_spec json_braces
       [(String.list_ascii_of_string "{timestamp: 17}"%string, false);
        ([], false);
        (String.list_ascii_of_string "{timestamp: 19}"%string, false)]
       smoke_config) 1
  = Some (with_info ""%string smoke_config,
          @run_aprs (dsp_delay_line 16) ax25_spec false
            (with_info ""%string smoke_config))).
  { cbn [main_loop].
    change (after_poll json_braces
              (String.list_ascii_of_string "{timestamp: 17}"%string)
              smoke_config) with smoke_config.
    rewrite (@run_aprs_unwritable (dsp_delay_line 16) ax25_spec smoke_config
               smoke_frame smoke_frame_built eq_refl).
    reflexivity. }
  split; [exact E|].
  exact (proj1 (proj2 (@main_loop_info (dsp_delay_line 16) ax25_spec json_braces
                         _ smoke_config 1 _ _ E))).
Defined.

(** ** [interconnect_handshake] *)

Lemma handshake_loop_spec remaining : forall p,
  fst (handshake_loop remaining p)
  = existsb acknowledged (arrivals remaining p).
Proof.
  induction remaining as [|remaining IH]; intros p; [reflexivity|].
  cbn [handshake_loop arrivals].
  destruct (read 127 p) as [data p']. cbn [existsb].
  destruct (acknowledged data); [reflexivity | apply IH].
Qed.

(** X14. The handshake returns a descriptor exactly when the port could be
    opened and configured, HELLO could be written, and one of the first 50
    reads of at most 127 bytes found ACKHELLO among the bytes it got: an
    acknowledgement that arrives split over two reads is not seen.  On every
    path that returns -1 after the port was opened the descriptor is closed,
    and it is left open when it is returned. *)
Theorem interconnect_handshake_spec (env : serial) (p : port) :
  (fd (interconnect_handshake env p) <> None <->
   open_tty_ok env = true /\ configure_ok env = true /\
   write_hello_ok env = true /\
   existsb acknowledged (arrivals 50 p) = true) /\
  was_opened (interconnect_handshake env p) = open_tty_ok env /\
  was_closed (interconnect_handshake env p)
  = match fd (interconnect_handshake env p) with
    | Some _ => false
    | None => open_tty_ok env
    end /\
  existsb acknowledged
    (arrivals 50 [String.list_ascii_of_string "ACKH"%string;
                  String.list_ascii_of_string "ELLO"%string]) = false.
Proof.
  pose proof (handshake_loop_spec 50 p) as Hloop.
  unfold interconnect_handshake.
  destruct env as [o c w]. cbn [open_tty_ok configure_ok write_hello_ok].
  destruct o, c, w; cbn [negb];
    try (split; [split; [intros H; now contradiction H | intros (_ & _ & _ & _); discriminate]
                | repeat split]);
    try (split; [split; [intros H; now contradiction H | intros (H1 & H2 & H3 & _); discriminate]
                | repeat split]).
  destruct (handshake_loop 50 p) as [done p']. cbn [fst] in Hloop.
  rewrite <- Hloop.
  destruct done; cbn [negb fd was_opened was_closed].
  - split; [split; [auto | discriminate] | repeat split].
  - split; [split; [intros H; now contradiction H
                   | intros (_ & _ & _ & H); discriminate H]
           | repeat split].
Qed.

(** ** [interconnect_bus] *)

Lemma read_whole count chunk rest :
  (length chunk <= count)%nat -> read count (chunk :: rest) = (chunk, rest).
Proof.
  intros H. unfold read. now rewrite skipn_all2.
Qed.

Lemma read_length count p :
  (length (fst (read count p)) <= count)%nat.
Proof.
  destruct p as [|chunk rest]; cbn [read fst length]; [lia|].
  destruct (skipn count chunk) as [|c0 more] eqn:E; cbn [fst].
  - destruct (Nat.le_gt_cases (length chunk) count) as [H|H]; [exact H|].
    apply (f_equal (@length ascii)) in E. rewrite length_skipn in E.
    cbn [length] in E. lia.
  - rewrite length_firstn. lia.
Qed.

Lemma bus_loop_returns fuel : forall p buf,
  (1024 <= fuel + length buf)%nat -> (length buf <= 1023)%nat ->
  bus_loop fuel p buf <> None.
Proof.
  induction fuel as [|fuel IH]; intros p buf Hfuel Hbuf; [lia|].
  cbn [bus_loop].
  pose proof (read_length (1024 - length buf - 1) p) as Hlen.
  destruct (read (1024 - length buf - 1) p) as [data p'].
  cbn [fst] in Hlen.
  destruct data as [|c data]; [discriminate|].
  destruct (find newline (c_chars (buf ++ c :: data))); [discriminate|].
  apply IH; rewrite length_app; cbn [length] in *; lia.
Qed.

Lemma c_chars_app s t :
  forallb line_char s = true -> c_chars (s ++ t) = s ++ c_chars t.
Proof.
  induction s as [|c s IH]; intros H; [reflexivity|].
  cbn [forallb] in H. apply andb_true_iff in H as [Hc H].
  unfold line_char in Hc. apply andb_true_iff in Hc as [_ Hc].
  apply negb_true_iff in Hc.
  cbn [app c_chars]. now rewrite Hc, (IH H).
Qed.

Lemma line_char_no_newline s :
  forallb line_char s = true ->
  forallb (fun c => negb (Ascii.eqb c newline)) s = true.
Proof.
  intros H. apply forallb_forall. intros c Hc.
  rewrite forallb_forall in H. specialize (H c Hc).
  unfold line_char in H. now apply andb_true_iff in H as [H _].
Qed.

Lemma bus_loop_line pieces : forall fuel buf line tail rest,
  (length pieces < fuel)%nat ->
  Forall (fun piece => piece <> []) pieces ->
  forallb line_char (buf ++ concat pieces ++ line) = true ->
  (length buf + length (concat pieces) + length (line ++ newline :: tail)
   <= 1023)%nat ->
  bus_loop fuel (pieces ++ (line ++ newline :: tail) :: rest) buf
  = Some (buf ++ concat pieces ++ line, rest).
Proof.
  induction pieces as [|piece pieces IH];
    intros fuel buf line tail rest Hfuel Hne Hchars Hlen.
  - destruct fuel as [|fuel]; [cbn [length] in Hfuel; lia|].
    cbn [app concat] in *. cbn [bus_loop].
    rewrite read_whole by lia.
    destruct (line ++ newline :: tail) as [|c data] eqn:E;
      [destruct line; discriminate E|].
    rewrite <- E, app_assoc, (c_chars_app _ _ Hchars).
    cbn [c_chars]. change (Ascii.eqb newline NUL) with false. cbv iota.
    rewrite (find_app newline _ _ (line_char_no_newline _ Hchars)).
    rewrite firstn_app, Nat.sub_diag, firstn_all. cbn [firstn].
    now rewrite app_nil_r.
  - destruct fuel as [|fuel]; [cbn [length] in Hfuel; lia|].
    apply Forall_cons_iff in Hne as [Hp Hne].
    cbn [app concat] in *. cbn [bus_loop].
    rewrite !length_app in Hlen.
    rewrite read_whole by lia.
    destruct piece as [|c data] eqn:E; [contradiction|]. rewrite <- E in *.
    assert (Hbp : forallb line_char (buf ++ piece) = true).
    { rewrite !app_assoc in Hchars. rewrite !forallb_app in Hchars.
      apply andb_true_iff in Hchars as [Hchars _].
      apply andb_true_iff in Hchars as [Hchars _].
      now rewrite forallb_app. }
    rewrite <- (app_nil_r (buf ++ piece)) at 1.
    rewrite (c_chars_app _ [] Hbp). cbn [c_chars]. rewrite app_nil_r.
    rewrite (find_none newline _ (line_char_no_newline _ Hbp)).
    rewrite (IH fuel (buf ++ piece) line tail rest).
    + now rewrite <- !app_assoc.
    + cbn [length] in Hfuel. lia.
    + exact Hne.
    + rewrite <- !app_assoc in Hchars |- *. exact Hchars.
    + rewrite !length_app. lia.
Qed.

(** X15. [interconnect_bus] always returns, after at most 1024 reads.  When a
    line of text arrives in pieces, the last of which holds the newline, and
    what has arrived fits the buffer, it returns the line without the
    newline; what the last piece held behind the newline is dropped: it is
    not returned and it is no longer in the port.  When a read finds nothing
    before the newline has arrived, it returns the empty string, and the
    pieces read so far are dropped. *)
Theorem interconnect_bus_line (pieces : list (list ascii))
  (line tail : list ascii) (rest : port) :
  Forall (fun piece => piece <> []) pieces ->
  forallb line_char (concat pieces ++ line) = true ->
  (length (concat pieces) + length (line ++ newline :: tail) <= 1023)%nat ->
  (forall p, interconnect_bus p <> None) /\
  interconnect_bus (pieces ++ (line ++ newline :: tail) :: rest)
  = Some (concat pieces ++ line, rest) /\
  interconnect_bus (pieces ++ [] :: rest) = Some ([], rest).
Proof.
  intros Hne Hchars Hlen. split; [|split].
  - intros p. apply bus_loop_returns; cbn [length]; lia.
  - unfold interconnect_bus.
    apply (bus_loop_line pieces 1024 [] line tail rest); auto.
    assert (length pieces <= length (concat pieces))%nat; [|lia].
    clear -Hne. induction Hne as [|piece pieces Hp _ IH]; [cbn; lia|].
    cbn [concat length]. rewrite length_app.
    destruct piece; [contradiction | cbn [length]; lia].
  - unfold interconnect_bus.
    assert (G : forall ps fuel buf,
              (length ps < fuel)%nat ->
              Forall (fun piece => piece <> []) ps ->
              forallb line_char (buf ++ concat ps) = true ->
              (length buf + length (concat ps) <= 1023)%nat ->
              bus_loop fuel (ps ++ [] :: rest) buf = Some ([], rest)).
    { induction ps as [|piece ps IH]; intros fuel buf Hf Hn Hc Hl.
      - destruct fuel as [|fuel]; [cbn [length] in Hf; lia|].
        cbn [app bus_loop]. rewrite read_whole by (cbn [length]; lia).
        reflexivity.
      - destruct fuel as [|fuel]; [cbn [length] in Hf; lia|].
        apply Forall_cons_iff in Hn as [Hp Hn].
        cbn [app concat] in *. cbn [bus_loop].
        rewrite length_app in Hl. rewrite read_whole by lia.
        destruct piece as [|c data] eqn:E; [contradiction|]. rewrite <- E in *.
        assert (Hbp : forallb line_char (buf ++ piece) = true).
        { rewrite app_assoc, forallb_app in Hc.
          now apply andb_true_iff in Hc as [Hc _]. }
        rewrite <- (app_nil_r (buf ++ piece)) at 1.
        rewrite (c_chars_app _ [] Hbp). cbn [c_chars]. rewrite app_nil_r.
        rewrite (find_none newline _ (line_char_no_newline _ Hbp)).
        apply IH.
        + cbn [length] in Hf. lia.
        + exact Hn.
        + now rewrite <- app_assoc.
        + rewrite length_app. lia. }
    apply G; auto.
    + assert (length pieces <= length (concat pieces))%nat; [|lia].
      clear -Hne. induction Hne as [|piece pieces Hp _ IH]; [cbn; lia|].
      cbn [concat length]. rewrite length_app.
      destruct piece; [contradiction | cbn [length]; lia].
    + rewrite forallb_app in Hchars.
      now apply andb_true_iff in Hchars as [Hchars _].
    + rewrite length_app in Hlen. cbn [length] in *. lia.
Qed.

Lemma interconnect_bus_line_witness :
  interconnect_bus
    ([String.list_ascii_of_string "{a"%string;
      String.list_ascii_of_string ":1"%string]
     ++ (String.list_ascii_of_string "}"%string
         ++ newline :: String.list_ascii_of_string "{b:2}"%string)
     :: [String.list_ascii_of_string "{c:3}"%string])
  = Some (String.list_ascii_of_string "{a:1}"%string,
          [String.list_ascii_of_string "{c:3}"%string]).
Proof.
  exact (proj1 (proj2
    (interconnect_bus_line
       [String.list_ascii_of_string "{a"%string;
        String.list_ascii_of_string ":1"%string]
       (String.list_ascii_of_string "}"%string)
       (String.list_ascii_of_string "{b:2}"%string)
       [String.list_ascii_of_string "{c:3}"%string]
       ltac:(repeat constructor; discriminate) eq_refl
       ltac:(cbn; lia)))).
Defined.

(** ** [request_json] *)

Lemma request_loop_spec bus remaining : forall attempts jsonMsg msg reads,
  request_loop remaining attempts bus jsonMsg = (msg, reads) ->
  (exists i, (attempts <= i < attempts + remaining)%nat /\
             reads = S i /\ msg = trimmed_line (bus i) /\
             looks_like_json msg = true /\
             forall j, (attempts <= j < i)%nat ->
                       looks_like_json (trimmed_line (bus j)) = false) \/
  (reads = (attempts + remaining)%nat /\
   msg = match remaining with
         | O => jsonMsg
         | S _ => trimmed_line (bus (attempts + remaining - 1)%nat)
         end /\
   forall j, (attempts <= j < attempts + remaining)%nat ->
             looks_like_json (trimmed_line (bus j)) = false).
Proof.
  induction remaining as [|remaining IH]; intros attempts jsonMsg msg reads H.
  - injection H as <- <-. right. split; [lia|]. split; [reflexivity|].
    intros j Hj. lia.
  - cbn [request_loop] in H.
    destruct (looks_like_json (trimmed_line (bus attempts))) eqn:E.
    + injection H as <- <-. left. exists attempts.
      split; [lia|]. split; [reflexivity|]. split; [reflexivity|].
      split; [exact E|]. intros j Hj. lia.
    + apply IH in H.
      destruct H as [(i & Hi & Hr & Hm & Hl & Hbefore) | (Hr & Hm & Hnone)].
      * left. exists i.
        split; [lia|]. split; [exact Hr|]. split; [exact Hm|].
        split; [exact Hl|].
        intros j Hj. destruct (Nat.eq_dec j attempts) as [->|Hne]; [exact E|].
        apply Hbefore. lia.
      * right. split; [lia|]. split.
        -- rewrite Hm. destruct remaining as [|r].
           ++ f_equal. f_equal. lia.
           ++ f_equal. f_equal. lia.
        -- intros j Hj. destruct (Nat.eq_dec j attempts) as [->|Hne]; [exact E|].
           apply Hnone. lia.
Qed.

(** X16. Once "SEND" is written, [request_json] returns the first of the
    first 50 lines from the bus that, with blanks, carriage returns and
    newlines removed at both ends, starts with '{' and ends with '}', and
    reads no line after it; if none of the 50 does, it returns the last of
    them, trimmed, which is then not of that form (it may be empty, it may
    be anything else).  In both cases it acknowledges. *)
Theorem request_json_first (bus : nat -> list ascii) :
  exists msg reads,
    request_json true bus = (msg, reads, true) /\
    ((exists i, (i < 50)%nat /\ reads = S i /\
                msg = trimmed_line (bus i) /\ looks_like_json msg = true /\
                forall j, (j < i)%nat ->
                          looks_like_json (trimmed_line (bus j)) = false) \/
     (reads = 50%nat /\ msg = trimmed_line (bus 49%nat) /\
      looks_like_json msg = false /\
      forall j, (j < 50)%nat ->
                looks_like_json (trimmed_line (bus j)) = false)).
Proof.
  unfold request_json. cbn [negb].
  destruct (request_loop maxAttempts 0 bus []) as [msg reads] eqn:E.
  exists msg, reads. split; [reflexivity|].
  apply request_loop_spec in E.
  destruct E as [(i & Hi & Hr & Hm & Hl & Hbefore) | (Hr & Hm & Hnone)].
  - left. exists i. unfold maxAttempts in Hi.
    split; [lia|]. split; [exact Hr|]. split; [exact Hm|].
    split; [exact Hl|]. intros j Hj. apply Hbefore. lia.
  - right. unfold maxAttempts in *. cbn in Hm.
    split; [exact Hr|]. split; [exact Hm|]. split.
    + rewrite Hm. apply Hnone. lia.
    + intros j Hj. apply Hnone. lia.
Qed.

(** ** The transmit callback *)

Lemma nth_skipn_add {A} (l : list A) n i d :
  nth i (skipn n l) d = nth (n + i) l d.
Proof.
  revert l. induction n as [|n IH]; intros l; [reflexivity|].
  destruct l as [|x l]; [now destruct i | apply IH].
Qed.

Lemma nth_firstn_lt {A} (l : list A) n i d :
  (i < n)%nat -> nth i (firstn n l) d = nth i l d.
Proof.
  revert l i. induction n as [|n IH]; intros l i H; [lia|].
  destruct l as [|x l]; [reflexivity|].
  destruct i as [|i]; [reflexivity|]. cbn [firstn nth]. apply IH. lia.
Qed.

Lemma nth_padded (data : list Z) n i :
  nth i (firstn n data ++ repeat 0 (n - length (firstn n data))) 0
  = if Nat.ltb i n then nth i data 0 else 0.
Proof.
  destruct (Nat.ltb_spec i n) as [Hi|Hi].
  - destruct (Nat.lt_ge_cases i (length (firstn n data))) as [Hl|Hl].
    + rewrite app_nth1 by exact Hl. now apply nth_firstn_lt.
    + rewrite app_nth2 by exact Hl. rewrite nth_repeat.
      symmetry. apply nth_overflow. rewrite length_firstn in Hl. lia.
  - apply nth_overflow. rewrite length_app, repeat_length, length_firstn. lia.
Qed.

(** One callback on a stream that does not fail. *)
Lemma tx_callback_opened data e buffer :
  tx_callback (Some {| unread := data; eof := e; broken_after := None |})
              buffer
  = (firstn (length buffer) data
       ++ repeat 0 (length buffer - length (firstn (length buffer) data)),
     if Nat.leb (length buffer) (length data) then 0 else -1,
     Some {| unread := skipn (length buffer) data;
             eof := e || Nat.ltb (length data) (length buffer);
             broken_after := None |}).
Proof.
  unfold tx_callback, fread. cbn [broken_after unread eof].
  rewrite length_firstn.
  destruct (Nat.leb_spec (length buffer) (length data)) as [Hle|Hgt].
  - replace (Nat.min (length buffer) (length data)) with (length buffer) by lia.
    rewrite Nat.ltb_irrefl, Nat.sub_diag, skipn_all. reflexivity.
  - replace (Nat.min (length buffer) (length data)) with (length data) by lia.
    replace (Nat.ltb (length data) (length buffer)) with true
      by (symmetry; apply Nat.ltb_lt; lia).
    rewrite orb_true_r. reflexivity.
Qed.

Lemma callbacks_opened B buffers : forall data e k filled code,
  Forall (fun buffer => length buffer = B) buffers ->
  nth_error
    (callbacks (Some {| unread := data; eof := e; broken_after := None |})
               buffers) k
  = Some (filled, code) ->
  length filled = B /\
  (forall j, (j < B)%nat -> nth j filled 0 = nth (k * B + j) data 0) /\
  code = if Nat.leb ((k + 1) * B) (length data) then 0 else -1.
Proof.
  induction buffers as [|buffer rest IH]; intros data e k filled code HB Hk.
  - destruct k; discriminate Hk.
  - apply Forall_cons_iff in HB as [Hb HB].
    cbn [callbacks] in Hk. rewrite tx_callback_opened, Hb in Hk.
    destruct k as [|k].
    + cbn [nth_error] in Hk. injection Hk as <- <-.
      split; [|split].
      * rewrite length_app, repeat_length, length_firstn. lia.
      * intros j Hj. rewrite nth_padded.
        replace (Nat.ltb j B) with true by (symmetry; now apply Nat.ltb_lt).
        reflexivity.
      * now rewrite Nat.mul_1_l.
    + cbn [nth_error] in Hk.
      destruct (IH _ _ _ _ _ HB Hk) as (Hlen & Hnth & Hcode).
      split; [exact Hlen|]. split.
      * intros j Hj. rewrite (Hnth j Hj), nth_skipn_add. f_equal. lia.
      * rewrite Hcode, length_skipn.
        destruct (Nat.leb_spec ((k + 1) * B) (length data - B)),
                 (Nat.leb_spec ((S k + 1) * B) (length data)); try reflexivity;
          lia.
Qed.

(** X17. The callback streams the file.  Called on successive buffers of [B]
    bytes with a file that reads without error, it fills buffer number [k]
    with bytes [k * B] to [k * B + B - 1] of the file, zero where the file
    has ended, and returns 0 as long as the file had [B] more bytes and -1
    from the first buffer on that it could not fill from the file; a file
    whose length is a multiple of [B] gets one more, all-zero, buffer. *)
Theorem tx_callback_stream (data : list Z) (B : nat)
  (buffers : list (list Z)) (k : nat) (filled : list Z) (code : Z) :
  Forall (fun buffer => length buffer = B) buffers ->
  nth_error (callbacks (Some (opened data)) buffers) k = Some (filled, code) ->
  length filled = B /\
  (forall j, (j < B)%nat -> nth j filled 0 = nth (k * B + j) data 0) /\
  code = if Nat.leb ((k + 1) * B) (length data) then 0 else -1.
Proof. apply callbacks_opened. Qed.

Lemma tx_callback_stream_witness :
  nth_error (callbacks (Some (opened [11; 12; 13; 14; 15; 16]))
                       [[1; 2; 3; 4]; [5; 6; 7; 8]; [9; 9; 9; 9]]) 1
  = Some ([15; 16; 0; 0], -1) /\
  length [15; 16; 0; 0] = 4%nat /\
  (forall j, (j < 4)%nat ->
     nth j [15; 16; 0; 0] 0 = nth (1 * 4 + j) [11; 12; 13; 14; 15; 16] 0) /\
  -1 = if Nat.leb ((1 + 1) * 4) (length [11; 12; 13; 14; 15; 16]) then 0
       else -1.
Proof.
  split; [reflexivity|].
  exact (@tx_callback_stream [11; 12; 13; 14; 15; 16] 4
           [[1; 2; 3; 4]; [5; 6; 7; 8]; [9; 9; 9; 9]] 1 [15; 16; 0; 0] (-1)
           ltac:(repeat constructor) eq_refl).
Defined.

(** ** [transmit_s8_iq_file] *)

Lemma filter_wait kind polls :
  kind hackrf_is_streaming = false -> (forall u, kind (usleep u) = false) ->
  filter kind (wait_streaming polls) = [].
Proof.
  intros H1 H2. unfold wait_streaming. rewrite filter_app.
  cbn [filter]. rewrite H1, app_nil_r.
  induction polls as [|n IH]; [reflexivity|].
  cbn [repeat concat app filter]. now rewrite H1, H2.
Qed.

Lemma ends_exit (log : list call) :
  last log hackrf_init = hackrf_exit ->
  exists before, log = before ++ [hackrf_exit].
Proof.
  intros H. exists (removelast log). rewrite <- H.
  apply app_removelast_last. intros ->. discriminate H.
Qed.

Lemma last_app_cons {A} (l l' : list A) x d :
  last (l ++ x :: l') d = last (x :: l') d.
Proof.
  induction l as [|y l IH]; [reflexivity|].
  cbn [app]. rewrite <- IH. cbn [last].
  destruct (l ++ x :: l') eqn:E; [|reflexivity].
  now destruct l.
Qed.

Ltac ends_with_exit :=
  intros _; apply ends_exit;
  first [ reflexivity
        | rewrite (last_app_cons _ [hackrf_close; hackrf_exit] fclose);
          reflexivity ].

(** X18. Every way through [transmit_s8_iq_file] releases what it acquired.
    Whatever steps fail, and however long the driver streams, the library is
    exited once if and only if it was initialised, the device is closed once
    if and only if it was opened, the file is closed once if and only if it
    was opened (which is attempted only with the device fully set up),
    transmission is stopped once if and only if it was started, and the
    last call is the exit of the library; the function returns true exactly
    when every step succeeded. *)
Theorem transmit_s8_iq_file_releases (env : hackrf)
  (filename : String.string) (config : Config) (result : bool)
  (log : list call) :
  transmit_s8_iq_file env filename config = Some (result, log) ->
  result = all_ok env /\
  calls is_exit log = b2n (init_ok env) /\
  calls is_close log = b2n (init_ok env && open_ok env) /\
  calls is_fopen log = b2n (device_ready env) /\
  calls is_fclose log = b2n (device_ready env && fopen_rb_ok env) /\
  calls is_start_tx log = b2n (device_ready env && fopen_rb_ok env) /\
  calls is_stop_tx log
  = b2n (device_ready env && fopen_rb_ok env && start_tx_ok env) /\
  (init_ok env = true -> exists before, log = before ++ [hackrf_exit]).
Proof.
  destruct env as [i o f r a g p s polls t].
  unfold all_ok, device_ready, calls.
  cbv beta iota zeta delta
      [transmit_s8_iq_file init_ok open_ok set_freq_ok set_sample_rate_ok
       set_amp_enable_ok set_txvga_gain_ok fopen_rb_ok start_tx_ok
       streaming_polls stop_tx_ok].
  intros H.
  destruct i; cbv beta iota delta [negb] in H.
  2:{ injection H as <- <-. do 7 (split; [reflexivity|]). discriminate. }
  destruct o; cbv beta iota delta [negb] in H.
  2:{ injection H as <- <-. do 7 (split; [reflexivity|]).
      ends_with_exit. }
  destruct (F64_to_uint64 (frequency config)) as [hz|]; [|discriminate H].
  cbv beta iota delta [bind] in H.
  destruct f; cbv beta iota delta [negb] in H.
  2:{ injection H as <- <-. do 7 (split; [reflexivity|]). ends_with_exit. }
  destruct r; cbv beta iota delta [negb] in H.
  2:{ injection H as <- <-. do 7 (split; [reflexivity|]). ends_with_exit. }
  destruct a; cbv beta iota delta [negb] in H.
  2:{ injection H as <- <-. do 7 (split; [reflexivity|]). ends_with_exit. }
  destruct g; cbv beta iota delta [negb] in H.
  2:{ injection H as <- <-. do 7 (split; [reflexivity|]). ends_with_exit. }
  destruct p; cbv beta iota delta [negb] in H.
  2:{ injection H as <- <-. do 7 (split; [reflexivity|]). ends_with_exit. }
  destruct s; cbv beta iota delta [negb] in H.
  2:{ injection H as <- <-. do 7 (split; [reflexivity|]). ends_with_exit. }
  assert (Hlog : forall kind,
            kind hackrf_is_streaming = false ->
            (forall u, kind (usleep u) = false) ->
            forall pre post,
              filter kind ((pre ++ wait_streaming polls ++ [hackrf_stop_tx])
                           ++ post)
              = filter kind pre ++ filter kind [hackrf_stop_tx]
                ++ filter kind post).
  { intros kind H1 H2 pre post.
    rewrite !filter_app, (filter_wait kind polls H1 H2), <- app_assoc.
    reflexivity. }
  destruct t; cbv beta iota delta [negb] in H;
    match type of H with
    | Some (?r, ?l) = Some _ =>
        assert (Hr : r = result) by congruence;
        assert (Hl : l = log) by congruence
    end;
    subst result log;
    rewrite !Hlog by (reflexivity || (intros; reflexivity));
    do 7 (split; [reflexivity|]); ends_with_exit.
Qed.

Lemma transmit_s8_iq_file_releases_witness :
  exists log,
    transmit_s8_iq_file hackrf_fine "pkt8.s8"%string set_defaults
    = Some (true, log) /\
    calls is_exit log = 1%nat /\ calls is_close log = 1%nat /\
    calls is_fclose log = 1%nat.
Proof.
  eexists. split; [reflexivity|].
  destruct (transmit_s8_iq_file_releases hackrf_fine "pkt8.s8"%string
              set_defaults true _ eq_refl)
    as (_ & He & Hc & _ & Hf & _).
  exact (conj He (conj Hc Hf)).
Defined.
